(** * The credis protocol engine (credis.cc), as a functional model

    credis is a C-style client for the Redis line protocol.  This file
    embeds its buffer management, line reader, reply decoder, send path,
    connection handshake, the two set commands, the INFO query and the
    commands PING, AUTH, MONITOR and SLAVEOF, and states the properties of
    the engine against that embedding.

    Conventions of the embedding.
    - A [char] is an [ascii]; [int] quantities are integers of [Z].  Signed
      overflow is undefined in C++, so the model describes the executions
      in which the arithmetic on sizes and offsets stays inside [int];
      [atoi], which turns wire text into an [int], has its narrowing
      written out.  Where a statement depends on it, the exchange is
      assumed to be [modest], which keeps every size the engine computes
      below [INT_MAX].
    - A pointer into the receive buffer is its offset from [buf->data];
      a pointer that may be [NULL] is an [option].  An offset survives a
      [realloc] that moves the buffer, a pointer of the source does not:
      the reply pointers of an earlier request dangle once a later one
      has grown the buffer, and so does the bulk pointer that
      [cr_receivebulk] stores when it accepts a line read that ended with
      the connection closed.  The statements about [credis_connect], which
      reads that pointer, assume a server that keeps the connection open.
    - The socket is a script of events: what each [select]/[recv] and each
      [select]/[send] pair will observe.  Time is not modelled; a timeout
      is an event of the script, and an exhausted script times out.
    - Memory that the program never initialised ([malloc]/[realloc]
      storage, locals, the byte past an allocation) is read from a
      [platform] record, as is the success of every allocation, so every
      theorem holds whatever such memory contains.  A store outside the
      allocation is dropped; the source makes one only in a line read that
      starts in front of the cursor, and where a statement depends on it
      the exchange is assumed to be [tame], which leaves those line reads
      out.
    - The POSIX branch of the source is the one embedded; the calls that
      create, configure and connect the socket are summarised by their
      outcome.  The DEBUG macro expands to nothing. *)

From Stdlib Require Import Ascii String DecimalString DecimalNat.
From Stdlib Require Import ZArith List Lia Bool.
Import ListNotations.
Local Open Scope Z_scope.

(** ** Constants of credis.cc and credis.hh *)

Definition NUL : ascii := "000"%char.
Definition CR : ascii := "013"%char.
Definition LF : ascii := "010"%char.

Definition CR_ERROR : ascii := "-"%char.
Definition CR_INLINE : ascii := "+"%char.
Definition CR_BULK : ascii := "$"%char.
Definition CR_MULTIBULK : ascii := "*"%char.
Definition CR_INT : ascii := ":"%char.

Definition CR_BUFFER_SIZE : Z := 4096.
Definition CR_BUFFER_WATERMARK : Z := Z.quot CR_BUFFER_SIZE 10 + 1.
Definition CR_MULTIBULK_SIZE : Z := 256.

Definition CREDIS_OK : Z := 0.
Definition CREDIS_ERR : Z := -90.
Definition CREDIS_ERR_NOMEM : Z := -91.
Definition CREDIS_ERR_RESOLVE : Z := -92.
Definition CREDIS_ERR_CONNECT : Z := -93.
Definition CREDIS_ERR_SEND : Z := -94.
Definition CREDIS_ERR_RECV : Z := -95.
Definition CREDIS_ERR_TIMEOUT : Z := -96.
Definition CREDIS_ERR_PROTOCOL : Z := -97.

Definition INT_MIN : Z := - 2 ^ 31.
Definition INT_MAX : Z := 2 ^ 31 - 1.
Definition LONG_MIN : Z := - 2 ^ 63.
Definition LONG_MAX : Z := 2 ^ 63 - 1.

(** Text of the source written as a string literal, plus the line end. *)
Definition txt (s : string) : list ascii := list_ascii_of_string s.
Definition CRLF : list ascii := [CR; LF].

(** ** What the program does not control *)

Record platform := mk_platform {
  junk : Z -> ascii;        (* uninitialised or foreign byte at an offset from buf->data *)
  junk_int : Z;             (* an uninitialised int or pointer local *)
  junk_ptr : option Z;      (* an uninitialised slot of the bulks array *)
  alloc_ok : Z -> bool      (* does malloc/realloc of that many bytes succeed *)
}.

(** ** Data model *)

Record cr_buffer := mk_buffer {
  buf_data : list ascii;
  buf_idx : Z;
  buf_len : Z;
  buf_size : Z
}.

Record cr_multibulk := mk_multibulk {
  mb_bulks : list (option Z);
  mb_idxs : list Z;
  mb_size : Z;
  mb_len : Z
}.

Record cr_reply := mk_reply {
  reply_integer : Z;
  reply_line : option Z;
  reply_bulk : option Z;
  reply_multibulk : cr_multibulk
}.

Record cr_version := mk_version { major : Z; minor : Z; patch : Z }.

Record cr_redis := mk_redis {
  version : cr_version;
  fd : Z;
  ip : list ascii;
  port : Z;
  timeout : Z;
  buf : cr_buffer;
  reply : cr_reply;
  error : Z
}.

Definition set_buf (h : cr_redis) (b : cr_buffer) : cr_redis :=
  mk_redis (version h) (fd h) (ip h) (port h) (timeout h) b (reply h) (error h).
Definition set_reply (h : cr_redis) (r : cr_reply) : cr_redis :=
  mk_redis (version h) (fd h) (ip h) (port h) (timeout h) (buf h) r (error h).
Definition set_version (h : cr_redis) (v : cr_version) : cr_redis :=
  mk_redis v (fd h) (ip h) (port h) (timeout h) (buf h) (reply h) (error h).

(** ** The socket *)

Inductive rx_event :=
| RxData (bytes : list ascii)   (* readable; these bytes are waiting *)
| RxClosed                      (* readable; recv returns 0 *)
| RxTimeout                     (* select returns 0 *)
| RxSelectError                 (* select returns -1 *)
| RxRecvError.                  (* readable; recv returns -1 *)

Inductive tx_event :=
| TxSend (room : nat)           (* writable; send takes at most [room] bytes *)
| TxSendError                   (* writable; send returns -1 *)
| TxTimeout                     (* select returns 0 *)
| TxSelectError.                (* select returns -1 *)

Record net := mk_net {
  rx : list rx_event;           (* what the receives will see, in order *)
  tx : list tx_event;           (* what the sends will see, in order *)
  wire_out : list ascii         (* bytes accepted by send so far *)
}.

(** An exhausted script means that nothing more happens: select times out. *)

(** ** Memory access *)

Definition in_alloc (b : cr_buffer) (i : Z) : bool :=
  (0 <=? i) && (i <? Z.of_nat (length (buf_data b))).

Fixpoint poke (l : list ascii) (i : nat) (c : ascii) : list ascii :=
  match l, i with
  | [], _ => []
  | _ :: l', O => c :: l'
  | x :: l', S i' => x :: poke l' i' c
  end.

(** [blit l off bs] copies [bs] over [l] from position [off] on, as far as
    [l] reaches. *)
Fixpoint blit (l : list ascii) (off : nat) (bs : list ascii) : list ascii :=
  match l with
  | [] => []
  | x :: l' =>
      match off with
      | S o => x :: blit l' o bs
      | O => match bs with
             | [] => l
             | c :: bs' => c :: blit l' O bs'
             end
      end
  end.

Fixpoint c_string_of (l : list ascii) : list ascii :=
  match l with
  | [] => []
  | c :: l' => if Ascii.eqb c NUL then [] else c :: c_string_of l'
  end.

(** The zero-terminated string that starts at offset [off] of the buffer. *)
Definition c_string (b : cr_buffer) (off : Z) : list ascii :=
  if 0 <=? off then c_string_of (skipn (Z.to_nat off) (buf_data b)) else [].

Definition poke_buf (b : cr_buffer) (i : Z) (c : ascii) : cr_buffer :=
  if in_alloc b i
  then mk_buffer (poke (buf_data b) (Z.to_nat i) c) (buf_idx b) (buf_len b) (buf_size b)
  else b.

(** ** The C library functions the engine calls

    [atoi], [sscanf] and [strsep] belong to the C library, not to credis.
    They are modelled after the C standard; where the standard leaves the
    result open (a number too large for its type) the model follows the
    GNU library: [strtol] saturates at the bounds of [long] and the value
    is then narrowed to [int]. *)

Definition code (c : ascii) : Z := Z.of_N (N_of_ascii c).

Definition isspace (c : ascii) : bool :=
  (code c =? 32) || ((9 <=? code c) && (code c <=? 13)).

Definition isdigit (c : ascii) : bool := (48 <=? code c) && (code c <=? 57).

Definition digit_value (c : ascii) : Z := code c - 48.

Fixpoint skip_space (l : list ascii) : list ascii :=
  match l with
  | c :: l' => if isspace c then skip_space l' else l
  | [] => []
  end.

(** The value of the leading run of digits of [l], continuing from [acc],
    and what follows the run. *)
Fixpoint digits (acc : Z) (l : list ascii) : Z * list ascii :=
  match l with
  | c :: l' => if isdigit c then digits (acc * 10 + digit_value c) l'
               else (acc, l)
  | [] => (acc, [])
  end.

Definition starts_with_digit (l : list ascii) : bool :=
  match l with
  | c :: _ => isdigit c
  | [] => false
  end.

Definition saturate_long (z : Z) : Z := Z.max LONG_MIN (Z.min LONG_MAX z).

Definition to_int (z : Z) : Z := (z + 2 ^ 31) mod 2 ^ 32 - 2 ^ 31.

(** A signed decimal number at the head of [l], after optional white
    space: its value and the rest, or nothing when no digit is there. *)
Definition scan_int (l : list ascii) : option (Z * list ascii) :=
  let l1 := skip_space l in
  let '(neg, l2) :=
    match l1 with
    | c :: r => if Ascii.eqb c "-" then (true, r)
                else if Ascii.eqb c "+" then (false, r)
                else (false, l1)
    | [] => (false, l1)
    end in
  if starts_with_digit l2
  then let '(v, rest) := digits 0 l2 in
       Some (to_int (saturate_long (if neg then - v else v)), rest)
  else None.

Definition atoi (l : list ascii) : Z :=
  match scan_int l with
  | Some (v, _) => v
  | None => 0
  end.

(** [sscanf] for formats made of ordinary characters, white space and
    [%d].  The result is the list of converted values, in order, and
    whether the input ran out before the first conversion (the C
    library then returns EOF, which is -1). *)
Inductive directive :=
| DChar (c : ascii)
| DSpace
| DInt.

Definition EOF : Z := -1.

Fixpoint sscanf_run (fmt : list directive) (input : list ascii) (got : list Z)
  : Z * list Z :=
  match fmt with
  | [] => (Z.of_nat (length got), got)
  | DChar c :: fmt' =>
      match input with
      | [] => (match got with [] => EOF | _ => Z.of_nat (length got) end, got)
      | x :: input' =>
          if Ascii.eqb x c then sscanf_run fmt' input' got
          else (Z.of_nat (length got), got)
      end
  | DSpace :: fmt' => sscanf_run fmt' (skip_space input) got
  | DInt :: fmt' =>
      match skip_space input with
      | [] => (match got with [] => EOF | _ => Z.of_nat (length got) end, got)
      | _ =>
          match scan_int input with
          | Some (v, input') => sscanf_run fmt' input' (got ++ [v])
          | None => (Z.of_nat (length got), got)
          end
      end
  end.

Definition sscanf (input : list ascii) (fmt : list directive) : Z * list Z :=
  sscanf_run fmt input [].

(** [strsep] called until it returns NULL, with the delimiters CR and LF:
    the tokens in order.  Two delimiters in a row enclose an empty token. *)
Fixpoint strsep_all (s : list ascii) : list (list ascii) :=
  match s with
  | [] => [[]]
  | c :: s' =>
      if Ascii.eqb c CR || Ascii.eqb c LF then [] :: strsep_all s'
      else match strsep_all s' with
           | t :: ts => (c :: t) :: ts
           | [] => [[c]]
           end
  end.

(** [%zu] and non-negative [%d] *)
Definition decimal (n : nat) : list ascii :=
  list_ascii_of_string (NilZero.string_of_uint (Nat.to_uint n)).

Fixpoint upd {A : Type} (l : list A) (i : nat) (x : A) : list A :=
  match l, i with
  | [], _ => []
  | _ :: l', O => x :: l'
  | y :: l', S i' => y :: upd l' i' x
  end.

Section Engine.

Variable P : platform.

Definition peek (b : cr_buffer) (i : Z) : ascii :=
  if in_alloc b i then nth (Z.to_nat i) (buf_data b) NUL else junk P i.

Definition fresh_bytes (from : Z) (n : nat) : list ascii :=
  map (fun k => junk P (from + Z.of_nat k)) (seq 0 n).

(** ** cr_findnl *)

(** The scan of [len] positions from offset [p] of the memory [mem]: at
    each position the byte is compared with CR and, when it is one, the byte
    after it with LF; the source does not compare the position of that
    second byte with [len]. *)
Fixpoint cr_findnl (mem : Z -> ascii) (p : Z) (len : nat) : option Z :=
  match len with
  | O => None
  | S len' =>
      if Ascii.eqb (mem p) CR && Ascii.eqb (mem (p + 1)) LF
      then Some p
      else cr_findnl mem (p + 1) len'
  end.

(** ** cr_moremem *)

Definition cr_moremem (b : cr_buffer) (size : Z) : option cr_buffer :=
  let n := Z.quot size CR_BUFFER_SIZE + 1 in
  let total := buf_size b + n * CR_BUFFER_SIZE in
  if alloc_ok P total
  then
    let old := length (buf_data b) in
    let kept := firstn (Z.to_nat total) (buf_data b) in
    Some (mk_buffer
            (kept ++ fresh_bytes (Z.of_nat old) (Z.to_nat total - old))
            (buf_idx b) (buf_len b) total)
  else None.

(** ** cr_morebulk *)

Definition grow_to {A : Type} (l : list A) (total : nat) (x : A) : list A :=
  firstn total l ++ repeat x (total - length l).

Definition cr_morebulk (mb : cr_multibulk) (size : Z) : option cr_multibulk :=
  let n := (Z.quot size CR_MULTIBULK_SIZE + 1) * CR_MULTIBULK_SIZE in
  let total := mb_size mb + n in
  if alloc_ok P (total * 8) && alloc_ok P (total * 4)
  then Some (mk_multibulk
               (grow_to (mb_bulks mb) (Z.to_nat total) (junk_ptr P))
               (grow_to (mb_idxs mb) (Z.to_nat total) (junk_int P))
               total (mb_len mb))
  else None.

(** ** cr_receivedata *)

(** Returns the return code, the bytes that [recv] wrote to its buffer
    argument and the socket afterwards. *)
Definition cr_receivedata (n : net) (msecs : Z) (size : Z)
  : Z * list ascii * net :=
  match rx n with
  | [] => (-2, [], n)
  | RxTimeout :: r => (-2, [], mk_net r (tx n) (wire_out n))
  | RxSelectError :: r => (-1, [], mk_net r (tx n) (wire_out n))
  | RxRecvError :: r => (-1, [], mk_net r (tx n) (wire_out n))
  | RxClosed :: r => (0, [], mk_net r (tx n) (wire_out n))
  | RxData bytes :: r =>
      let got := firstn (Z.to_nat size) bytes in
      let rest := skipn (Z.to_nat size) bytes in
      match got with
      | [] => (0, [], match bytes with
                      | [] => mk_net r (tx n) (wire_out n)
                      | _ => n
                      end)
      | _ => (Z.of_nat (length got), got,
              mk_net (match rest with [] => r | _ => RxData rest :: r end)
                     (tx n) (wire_out n))
      end
  end.

(** ** cr_senddata *)

(** The loop [while (sent < size)], one script event per iteration. *)
Fixpoint cr_senddata_loop (script : list tx_event) (out : list ascii)
    (bytes : list ascii) (sent : Z) (size : Z)
  : Z * list tx_event * list ascii :=
  if sent <? size then
    match script with
    | [] => (sent, [], out)
    | TxTimeout :: s => (sent, s, out)
    | TxSelectError :: s => (-1, s, out)
    | TxSendError :: s => (-1, s, out)
    | TxSend room :: s =>
        let todo := skipn (Z.to_nat sent) bytes in
        let taken := firstn (Nat.min room (Z.to_nat (size - sent))) todo in
        cr_senddata_loop s (out ++ taken) bytes
                         (sent + Z.of_nat (length taken)) size
    end
  else (sent, script, out).

Definition cr_senddata (n : net) (msecs : Z) (bytes : list ascii) (size : Z)
  : Z * net :=
  let '(rc, s, out) := cr_senddata_loop (tx n) (wire_out n) bytes 0 size in
  (rc, mk_net (rx n) s out).

(** ** cr_readln *)

Record readln_result := mk_readln {
  rl_rc : Z;
  rl_line : Z;          (* the caller's [line] after the call *)
  rl_idx : Z;           (* the caller's [idx] after the call *)
  rl_h : cr_redis;
  rl_net : net
}.

Definition more_needed (b : cr_buffer) (start : Z) : Z :=
  let more := buf_idx b + start + 2 - buf_len b in
  if more <? 0 then 0 else more.

(** How a run of the receive loop ends: with the terminator found at
    offset [nl], or with an early [return]. *)
Inductive loop_exit :=
| Found (nl : Z) (h : cr_redis) (n : net)
| Return (rc : Z) (h : cr_redis) (n : net).

Definition rx_weight (s : list rx_event) : nat :=
  fold_right (fun e w => match e with
                         | RxData bytes => S (length bytes + w)
                         | _ => S w
                         end) O s.

Definition store_received (b : cr_buffer) (bytes : list ascii) : cr_buffer :=
  mk_buffer (blit (buf_data b) (Z.to_nat (buf_len b)) bytes)
            (buf_idx b) (buf_len b + Z.of_nat (length bytes)) (buf_size b).

Fixpoint cr_readln_loop (fuel : nat) (h : cr_redis) (n : net) (start more : Z)
  : option loop_exit :=
  match fuel with
  | O => None
  | S fuel' =>
      let b := buf h in
      let nl := if 0 <? more then None
                else cr_findnl (peek b) (buf_idx b + start)
                               (Z.to_nat (buf_len b - (buf_idx b + start))) in
      match nl with
      | Some p => Some (Found p h n)
      | None =>
          let avail := buf_size b - buf_len b in
          let grown :=
            if (avail <? CR_BUFFER_WATERMARK) || (avail <? more)
            then cr_moremem b (if 0 <? more then more else 1)
            else Some b in
          match grown with
          | None => Some (Return CREDIS_ERR_NOMEM h n)
          | Some b1 =>
              let avail := buf_size b1 - buf_len b1 in
              let '(rc, bytes, n1) := cr_receivedata n (timeout h) avail in
              if 0 <? rc then
                let b2 := store_received b1 bytes in
                cr_readln_loop fuel' (set_buf h b2) n1 start
                               (more_needed b2 start)
              else if rc =? 0 then Some (Return 0 (set_buf h b1) n1)
              else Some (Return (-1) (set_buf h b1) n1)
          end
      end
  end.

Definition cr_readln (h : cr_redis) (n : net) (start : Z) (line idx : Z)
  : readln_result :=
  match cr_readln_loop (S (rx_weight (rx n))) h n start
                       (more_needed (buf h) start) with
  | Some (Found nl h1 n1) =>
      let b := poke_buf (buf h1) nl NUL in
      let line1 := buf_idx b in
      mk_readln (nl - line1) line1 (buf_idx b)
                (set_buf h1 (mk_buffer (buf_data b) (nl + 2) (buf_len b) (buf_size b)))
                n1
  | Some (Return rc h1 n1) => mk_readln rc line idx h1 n1
  | None => mk_readln (-1) line idx h n
  end.


(** ** The reply decoder *)

Definition set_reply_line (h : cr_redis) (l : option Z) : cr_redis :=
  set_reply h (mk_reply (reply_integer (reply h)) l (reply_bulk (reply h))
                        (reply_multibulk (reply h))).
Definition set_reply_bulk (h : cr_redis) (p : option Z) : cr_redis :=
  set_reply h (mk_reply (reply_integer (reply h)) (reply_line (reply h)) p
                        (reply_multibulk (reply h))).
Definition set_reply_integer (h : cr_redis) (v : Z) : cr_redis :=
  set_reply h (mk_reply v (reply_line (reply h)) (reply_bulk (reply h))
                        (reply_multibulk (reply h))).
Definition set_reply_multibulk (h : cr_redis) (mb : cr_multibulk) : cr_redis :=
  set_reply h (mk_reply (reply_integer (reply h)) (reply_line (reply h))
                        (reply_bulk (reply h)) mb).

Definition set_idxs (h : cr_redis) (i : Z) (v : Z) : cr_redis :=
  let mb := reply_multibulk (reply h) in
  set_reply_multibulk h
    (mk_multibulk (mb_bulks mb)
                  (if 0 <=? i then upd (mb_idxs mb) (Z.to_nat i) v else mb_idxs mb)
                  (mb_size mb) (mb_len mb)).

(** How the element loop of [cr_receivemultibulk] ends: by a [return]
    from its body, or by its condition failing. *)
Inductive mb_exit :=
| MbReturn (rc : Z) (h : cr_redis) (n : net)
| MbDone (i bnum : Z) (h : cr_redis) (n : net).

(** [for (i = 0; bnum > 0 && (rc = cr_readln(rhnd, 0, &line, NULL)) > 0; i++, bnum--)];
    [k] is [bnum] as a natural number. *)
Fixpoint multibulk_loop (k : nat) (h : cr_redis) (n : net)
    (i bnum line idx : Z) : mb_exit :=
  match k with
  | O => MbDone i bnum h n
  | S k' =>
      let r := cr_readln h n 0 line idx in
      if 0 <? rl_rc r then
        let h1 := rl_h r in
        if negb (Ascii.eqb (peek (buf h1) (rl_line r)) CR_BULK)
        then MbReturn CREDIS_ERR_PROTOCOL h1 (rl_net r)
        else
          let line1 := rl_line r + 1 in
          let blen := atoi (c_string (buf h1) line1) in
          if blen =? -1
          then multibulk_loop k' (set_idxs h1 i (-1)) (rl_net r)
                              (i + 1) (bnum - 1) line1 idx
          else
            let r2 := cr_readln h1 (rl_net r) blen line1 idx in
            if negb (rl_rc r2 =? blen)
            then MbReturn CREDIS_ERR_PROTOCOL (rl_h r2) (rl_net r2)
            else multibulk_loop k' (set_idxs (rl_h r2) i (rl_idx r2)) (rl_net r2)
                                (i + 1) (bnum - 1) (rl_line r2) (rl_idx r2)
      else MbDone i bnum (rl_h r) (rl_net r)
  end.

(** The last loop of [cr_receivemultibulk]: offsets become pointers. *)
Definition resolve_bulks (mb : cr_multibulk) : cr_multibulk :=
  let k := Z.to_nat (mb_len mb) in
  mk_multibulk
    (map (fun ix => if 0 <? ix then Some ix else None) (firstn k (mb_idxs mb))
         ++ skipn k (mb_bulks mb))
    (mb_idxs mb) (mb_size mb) (mb_len mb).

Definition set_mb_len (mb : cr_multibulk) (l : Z) : cr_multibulk :=
  mk_multibulk (mb_bulks mb) (mb_idxs mb) (mb_size mb) l.

Definition cr_receivemultibulk (h : cr_redis) (n : net) (line : Z)
  : Z * cr_redis * net :=
  let bnum := atoi (c_string (buf h) line) in
  let mb := reply_multibulk (reply h) in
  if bnum =? -1 then (0, set_reply_multibulk h (set_mb_len mb 0), n)
  else
    let grown := if mb_size mb <? bnum
                 then cr_morebulk mb (bnum - mb_size mb)
                 else Some mb in
    match grown with
    | None => (CREDIS_ERR_NOMEM, h, n)
    | Some mb1 =>
        match multibulk_loop (Z.to_nat bnum) (set_reply_multibulk h mb1) n
                             0 bnum line (junk_int P) with
        | MbReturn rc h1 n1 => (rc, h1, n1)
        | MbDone i bnum1 h1 n1 =>
            if negb (bnum1 =? 0) then (CREDIS_ERR_PROTOCOL, h1, n1)
            else
              (0,
               set_reply_multibulk h1
                 (resolve_bulks (set_mb_len (reply_multibulk (reply h1)) i)),
               n1)
        end
    end.

Definition cr_receivebulk (h : cr_redis) (n : net) (line : Z)
  : Z * cr_redis * net :=
  let blen := atoi (c_string (buf h) line) in
  if blen =? -1 then (0, set_reply_bulk h None, n)
  else
    let r := cr_readln h n blen line (junk_int P) in
    if 0 <=? rl_rc r
    then (0, set_reply_bulk (rl_h r) (Some (rl_line r)), rl_net r)
    else (CREDIS_ERR_PROTOCOL, rl_h r, rl_net r).

Definition cr_receiveinline (h : cr_redis) (line : Z) : Z * cr_redis :=
  (0, set_reply_line h (Some line)).

Definition cr_receiveint (h : cr_redis) (line : Z) : Z * cr_redis :=
  (0, set_reply_integer h (atoi (c_string (buf h) line))).

Definition cr_receiveerror (h : cr_redis) (line : Z) : Z * cr_redis :=
  (CREDIS_ERR_PROTOCOL, set_reply_line h (Some line)).

Definition reset_buffer (b : cr_buffer) : cr_buffer :=
  mk_buffer (buf_data b) 0 0 (buf_size b).

Definition cr_receivereply (h : cr_redis) (n : net) (recvtype : ascii)
  : Z * cr_redis * net :=
  let h0 := set_buf h (reset_buffer (buf h)) in
  let r := cr_readln h0 n 0 (junk_int P) (junk_int P) in
  let h1 := rl_h r in
  let n1 := rl_net r in
  if 0 <? rl_rc r then
    let prefix := peek (buf h1) (rl_line r) in
    let line := rl_line r + 1 in
    if negb (Ascii.eqb prefix recvtype) && negb (Ascii.eqb prefix CR_ERROR)
    then (CREDIS_ERR_PROTOCOL, h1, n1)
    else if Ascii.eqb prefix CR_ERROR
    then let '(rc, h2) := cr_receiveerror h1 line in (rc, h2, n1)
    else if Ascii.eqb prefix CR_INLINE
    then let '(rc, h2) := cr_receiveinline h1 line in (rc, h2, n1)
    else if Ascii.eqb prefix CR_INT
    then let '(rc, h2) := cr_receiveint h1 line in (rc, h2, n1)
    else if Ascii.eqb prefix CR_BULK
    then cr_receivebulk h1 n1 line
    else if Ascii.eqb prefix CR_MULTIBULK
    then cr_receivemultibulk h1 n1 line
    else (CREDIS_ERR_RECV, h1, n1)
  else (CREDIS_ERR_RECV, h1, n1).


(** ** Handles and the request cycle *)

Definition sizeof_cr_redis : Z := 112.

Definition cr_new : option cr_redis :=
  if alloc_ok P sizeof_cr_redis && alloc_ok P 32 && alloc_ok P CR_BUFFER_SIZE
     && alloc_ok P (8 * CR_MULTIBULK_SIZE) && alloc_ok P (4 * CR_MULTIBULK_SIZE)
  then Some (mk_redis
               (mk_version 0 0 0) 0 (fresh_bytes 0 32) 0 0
               (mk_buffer (fresh_bytes 0 (Z.to_nat CR_BUFFER_SIZE)) 0 0 CR_BUFFER_SIZE)
               (mk_reply 0 None None
                  (mk_multibulk (repeat (junk_ptr P) (Z.to_nat CR_MULTIBULK_SIZE))
                                (repeat (junk_int P) (Z.to_nat CR_MULTIBULK_SIZE))
                                CR_MULTIBULK_SIZE 0))
               0)
  else None.

(** [vsnprintf(buf->data, buf->size, format, ap)], where [text] is what the
    format and its arguments render to: at most [size - 1] characters and a
    terminator are written, the length of the whole text is returned. *)
Definition vsnprintf (b : cr_buffer) (text : list ascii) : Z * cr_buffer :=
  (Z.of_nat (length text),
   if 0 <? buf_size b
   then mk_buffer
          (blit (buf_data b) O (firstn (Z.to_nat (buf_size b - 1)) text ++ [NUL]))
          (buf_idx b) (buf_len b) (buf_size b)
   else b).

Definition set_len (b : cr_buffer) (l : Z) : cr_buffer :=
  mk_buffer (buf_data b) (buf_idx b) l (buf_size b).

Definition cr_sendandreceive (h : cr_redis) (n : net) (recvtype : ascii)
  : Z * cr_redis * net :=
  let '(rc, n1) := cr_senddata n (timeout h) (buf_data (buf h)) (buf_len (buf h)) in
  if negb (rc =? buf_len (buf h)) then
    if rc <? 0 then (CREDIS_ERR_SEND, h, n1)
    else (CREDIS_ERR_TIMEOUT, h, n1)
  else cr_receivereply h n1 recvtype.

(** The first part of [cr_sendfandreceive]: the command is formatted into
    the buffer, which grows once when the text does not fit, and [buf->len]
    becomes its length.  [None] stands for the failure of that growth.
    ([vsnprintf] fails only for a text longer than [INT_MAX]; the test
    [rc < 0] of the source, which answers that, has no counterpart.) *)
Definition render (h : cr_redis) (text : list ascii) : option cr_redis :=
  let '(rc, b1) := vsnprintf (buf h) text in
  if buf_size b1 <=? rc then
    match cr_moremem b1 (rc - buf_size b1 + 1) with
    | None => None
    | Some b2 => let '(rc2, b3) := vsnprintf b2 text in
                 Some (set_buf h (set_len b3 rc2))
    end
  else Some (set_buf h (set_len b1 rc)).

Definition cr_sendfandreceive (h : cr_redis) (n : net) (recvtype : ascii)
    (text : list ascii) : Z * cr_redis * net :=
  match render h text with
  | None => (CREDIS_ERR_NOMEM, set_buf h (snd (vsnprintf (buf h) text)), n)
  | Some h1 => cr_sendandreceive h1 n recvtype
  end.

Definition credis_errorreply (h : cr_redis) : option Z := reply_line (reply h).

(** ** credis_connect *)

(** What the socket calls of [credis_connect] arrive at: the descriptor
    and the printed peer address, or nothing when one of [socket],
    [setsockopt], the host lookup or the timed [connect] failed. *)
Record link := mk_link { link_fd : Z; link_ip : list ascii }.

Inductive connect_result :=
| Connected (h : cr_redis)      (* the handle is returned *)
| Refused                       (* NULL is returned, the handle is released *)
| Crashed.                      (* strdup of a null pointer *)

Definition version_format : list directive :=
  map DChar (txt "redis_version:") ++
  [DInt; DChar "."; DInt; DChar "."; DInt; DSpace; DSpace].

(** One [sscanf] over a token: the item count and the version fields
    after the stores it made. *)
Definition scan_version_line (token : list ascii) (v : cr_version)
  : Z * cr_version :=
  let '(items, got) := sscanf token version_format in
  (items,
   match got with
   | [a] => mk_version a (minor v) (patch v)
   | [a; b] => mk_version a b (patch v)
   | a :: b :: c :: _ => mk_version a b c
   | [] => v
   end).

(** [while ((token = strsep(&string, "\r\n")) != NULL && items < 2)] *)
Fixpoint scan_version (tokens : list (list ascii)) (items : Z) (v : cr_version)
  : Z * cr_version :=
  match tokens with
  | [] => (items, v)
  | token :: rest =>
      if items <? 2
      then let '(items1, v1) := scan_version_line token v in
           scan_version rest items1 v1
      else (items, v)
  end.

Definition strdup_tokens (s : list ascii) : list (list ascii) :=
  if alloc_ok P (Z.of_nat (length s) + 1) then strsep_all s else [].

Definition credis_connect (lk : option link) (n : net)
    (host : option (list ascii)) (port timeout : Z) : connect_result * net :=
  match cr_new with
  | None => (Refused, n)
  | Some h0 =>
      let port := if port =? 0 then 6379 else port in
      match lk with
      | None => (Refused, n)
      | Some l =>
          let h := mk_redis (version h0) (link_fd l) (link_ip l) port timeout
                            (buf h0) (reply h0) (error h0) in
          let '(rc, h1, n1) :=
            cr_sendfandreceive h n CR_BULK (txt "INFO" ++ CRLF) in
          if rc =? 0 then
            match reply_bulk (reply h1) with
            | None => (Crashed, n1)
            | Some p =>
                let '(items, v) :=
                  scan_version (strdup_tokens (c_string (buf h1) p)) 0 (version h1) in
                if items <? 2 then (Refused, n1)
                else if items =? 2
                then (Connected (set_version h1 (mk_version (major v) 0 (minor v))), n1)
                else (Connected (set_version h1 v), n1)
            end
          else (Connected h1, n1)
      end
  end.

(** ** Commands *)

Definition credis_ping (h : cr_redis) (n : net) : Z * cr_redis * net :=
  cr_sendfandreceive h n CR_INLINE (txt "PING" ++ CRLF).

Definition SP : list ascii := txt " ".

Definition cr_setaddrem (h : cr_redis) (n : net) (cmd key member : list ascii)
  : Z * cr_redis * net :=
  let '(rc, h1, n1) :=
    cr_sendfandreceive h n CR_INT
      (cmd ++ SP ++ key ++ SP ++ decimal (length member) ++ CRLF
           ++ member ++ CRLF) in
  (if (rc =? 0) && (reply_integer (reply h1) =? 0) then -1 else rc, h1, n1).

(** The score is a [double]; only its [%f] rendering enters the command. *)
Variable double : Type.
Variable printf_f : double -> list ascii.

Definition credis_zadd (h : cr_redis) (n : net) (key : list ascii)
    (score : double) (member : list ascii) : Z * cr_redis * net :=
  let '(rc, h1, n1) :=
    cr_sendfandreceive h n CR_INT
      (txt "ZADD " ++ key ++ SP ++ printf_f score ++ SP
           ++ decimal (length member) ++ CRLF ++ member ++ CRLF) in
  (if (rc =? 0) && (reply_integer (reply h1) =? 0) then -1 else rc, h1, n1).

Definition credis_sadd (h : cr_redis) (n : net) (key member : list ascii)
  : Z * cr_redis * net :=
  cr_setaddrem h n (txt "SADD") key member.

End Engine.

(** * The remaining commands *)

(** [%d] of [printf] *)
Definition printf_d (v : Z) : list ascii :=
  if v <? 0 then "-"%char :: decimal (Z.to_nat (- v)) else decimal (Z.to_nat v).

Section Commands.

Variable P : platform.

Definition credis_auth (h : cr_redis) (n : net) (password : list ascii)
  : Z * cr_redis * net :=
  cr_sendfandreceive P h n CR_INLINE (txt "AUTH " ++ password ++ CRLF).

Definition credis_monitor (h : cr_redis) (n : net) : Z * cr_redis * net :=
  cr_sendfandreceive P h n CR_INLINE (txt "MONITOR" ++ CRLF).

(** [host] is [None] for the null pointer. *)
Definition credis_slaveof (h : cr_redis) (n : net) (host : option (list ascii))
    (port : Z) : Z * cr_redis * net :=
  match host with
  | None => cr_sendfandreceive P h n CR_INLINE (txt "SLAVEOF no one" ++ CRLF)
  | Some name =>
      if port =? 0
      then cr_sendfandreceive P h n CR_INLINE (txt "SLAVEOF no one" ++ CRLF)
      else cr_sendfandreceive P h n CR_INLINE
             (txt "SLAVEOF " ++ name ++ SP ++ printf_d port ++ CRLF)
  end.

End Commands.

(** * INFO *)

Definition CREDIS_SERVER_MASTER : Z := 1.
Definition CREDIS_SERVER_SLAVE : Z := 2.

Definition CREDIS_VERSION_STRING_SIZE : nat := 32.
Definition CREDIS_MULTIPLEXING_API_SIZE : nat := 16.
Definition CREDIS_USED_MEMORY_HUMAN_SIZE : nat := 32.

Record REDIS_INFO := mk_info {
  redis_version : list ascii;
  arch_bits : Z;
  multiplexing_api : list ascii;
  process_id : Z;
  uptime_in_seconds : Z;
  uptime_in_days : Z;
  connected_clients : Z;
  connected_slaves : Z;
  blocked_clients : Z;
  used_memory : Z;
  used_memory_human : list ascii;
  changes_since_last_save : Z;
  bgsave_in_progress : Z;
  last_save_time : Z;
  bgrewriteaof_in_progress : Z;
  total_connections_received : Z;
  total_commands_processed : Z;
  expired_keys : Z;
  hash_max_zipmap_entries : Z;
  hash_max_zipmap_value : Z;
  pubsub_channels : Z;
  pubsub_patterns : Z;
  vm_enabled : Z;
  role : Z
}.

(** ** The C library functions of [cr_parseinfo]

    [strstr] and the conversions of [sscanf] that the formats of
    [credis_info] use, after the C standard and, for numbers outside the
    range of their type, the GNU library: the digits are converted by
    [strtol] or [strtoul] and the result is narrowed to the type of the
    field. *)

Fixpoint is_prefix (p l : list ascii) : bool :=
  match p, l with
  | [], _ => true
  | c :: p', d :: l' => Ascii.eqb c d && is_prefix p' l'
  | _ :: _, [] => false
  end.

(** The offset of the first occurrence of [needle] in [hay]. *)
Fixpoint strstr (hay needle : list ascii) : option nat :=
  if is_prefix needle hay then Some O
  else match hay with
       | [] => None
       | _ :: hay' => option_map S (strstr hay' needle)
       end.

(** The sign and the magnitude of the decimal number at the head of [l],
    after optional white space; nothing when no digit is there. *)
Definition scan_number (l : list ascii) : option (bool * Z) :=
  let l1 := skip_space l in
  let '(neg, l2) :=
    match l1 with
    | c :: r => if Ascii.eqb c "-" then (true, r)
                else if Ascii.eqb c "+" then (false, r)
                else (false, l1)
    | [] => (false, l1)
    end in
  if starts_with_digit l2 then Some (neg, fst (digits 0 l2)) else None.

Definition ULONG_MAX : Z := 2 ^ 64 - 1.

Definition strtol_value (neg : bool) (v : Z) : Z :=
  saturate_long (if neg then - v else v).

Definition strtoul_value (neg : bool) (v : Z) : Z :=
  if ULONG_MAX <? v then ULONG_MAX
  else if neg then (- v) mod 2 ^ 64 else v.

(** [%d] *)
Definition scan_d (l : list ascii) : option Z := option_map fst (scan_int l).

(** [%ld] and [%lld] *)
Definition scan_ld (l : list ascii) : option Z :=
  option_map (fun '(neg, v) => strtol_value neg v) (scan_number l).

(** [%zu] *)
Definition scan_zu (l : list ascii) : option Z :=
  option_map (fun '(neg, v) => strtoul_value neg v) (scan_number l).

(** [%u] *)
Definition scan_u (l : list ascii) : option Z :=
  option_map (fun '(neg, v) => strtoul_value neg v mod 2 ^ 32) (scan_number l).

Fixpoint token (l : list ascii) : list ascii :=
  match l with
  | c :: l' => if isspace c then [] else c :: token l'
  | [] => []
  end.

(** [%Ns]: the characters stored, at most [width] of them; the terminator
    is stored behind them, behind the array when they fill it. *)
Definition scan_s (width : nat) (l : list ascii) : option (list ascii) :=
  match firstn width (token (skip_space l)) with
  | [] => None
  | tok => Some tok
  end.

(** [%c] *)
Definition scan_c (l : list ascii) : option ascii :=
  match l with
  | c :: _ => Some c
  | [] => None
  end.

(** ** cr_parseinfo *)

(** [info] is the memory from the first byte of the reply on, its string
    ends at the first NUL; [scan] is the conversion of the format.  The
    result is what [sscanf] stored, or nothing when the storage was left
    as it was.  The pointer is moved behind the field and one more byte,
    whatever that byte is, and may pass the end of the string. *)
Definition cr_parseinfo {A : Type} (info field : list ascii)
    (scan : list ascii -> option A) : option A :=
  match strstr (c_string_of info) field with
  | Some found => scan (c_string_of (skipn (found + length field + 1) info))
  | None => None
  end.

Definition stored {A : Type} (v : option A) (before : A) : A :=
  match v with
  | Some x => x
  | None => before
  end.

Section Info.

Variable P : platform.

(** ** credis_info *)

(** [role_at] is the place of the local [role], which has no initial
    value.  The structure is cleared and each call of [cr_parseinfo]
    stores to a field of its own, so the structure after the calls is
    written as one record.  [None] stands for [strstr] of the null
    pointer that a reply without a value leaves in [reply.bulk]. *)
Definition credis_info (h : cr_redis) (n : net) (info : REDIS_INFO) (role_at : Z)
  : option (Z * cr_redis * net * REDIS_INFO) :=
  let '(rc, h1, n1) := cr_sendfandreceive P h n CR_BULK (txt "INFO" ++ CRLF) in
  if rc =? 0 then
    match reply_bulk (reply h1) with
    | None => None
    | Some p =>
        let bulk := skipn (Z.to_nat p) (buf_data (buf h1)) in
        let role := stored (cr_parseinfo bulk (txt "role") scan_c) (junk P role_at) in
        Some (rc, h1, n1,
          mk_info
            (stored (cr_parseinfo bulk (txt "redis_version")
                       (scan_s CREDIS_VERSION_STRING_SIZE)) [])
            (stored (cr_parseinfo bulk (txt "arch_bits") scan_d) 0)
            (stored (cr_parseinfo bulk (txt "multiplexing_api")
                       (scan_s CREDIS_MULTIPLEXING_API_SIZE)) [])
            (stored (cr_parseinfo bulk (txt "process_id") scan_ld) 0)
            (stored (cr_parseinfo bulk (txt "uptime_in_seconds") scan_ld) 0)
            (stored (cr_parseinfo bulk (txt "uptime_in_days") scan_ld) 0)
            (stored (cr_parseinfo bulk (txt "connected_clients") scan_d) 0)
            (stored (cr_parseinfo bulk (txt "connected_slaves") scan_d) 0)
            (stored (cr_parseinfo bulk (txt "blocked_clients") scan_d) 0)
            (stored (cr_parseinfo bulk (txt "used_memory") scan_zu) 0)
            (stored (cr_parseinfo bulk (txt "used_memory_human")
                       (scan_s CREDIS_USED_MEMORY_HUMAN_SIZE)) [])
            (stored (cr_parseinfo bulk (txt "changes_since_last_save") scan_ld) 0)
            (stored (cr_parseinfo bulk (txt "bgsave_in_progress") scan_d) 0)
            (stored (cr_parseinfo bulk (txt "last_save_time") scan_ld) 0)
            (stored (cr_parseinfo bulk (txt "bgrewriteaof_in_progress") scan_d) 0)
            (stored (cr_parseinfo bulk (txt "total_connections_received") scan_ld) 0)
            (stored (cr_parseinfo bulk (txt "total_commands_processed") scan_ld) 0)
            (stored (cr_parseinfo bulk (txt "expired_keys") scan_ld) 0)
            (stored (cr_parseinfo bulk (txt "hash_max_zipmap_entries") scan_zu) 0)
            (stored (cr_parseinfo bulk (txt "hash_max_zipmap_value") scan_zu) 0)
            (stored (cr_parseinfo bulk (txt "pubsub_channels") scan_ld) 0)
            (stored (cr_parseinfo bulk (txt "pubsub_patterns") scan_u) 0)
            (stored (cr_parseinfo bulk (txt "vm_enabled") scan_d) 0)
            (if Ascii.eqb role "m" then CREDIS_SERVER_MASTER
             else CREDIS_SERVER_SLAVE))
    end
  else Some (rc, h1, n1, info).

End Info.

(** * The vocabulary of the properties *)

(** ** Runs on a quiet platform *)

(** Uninitialised memory reads as zero and every allocation succeeds. *)
Definition quiet : platform :=
  mk_platform (fun _ => NUL) 0 None (fun _ => true).

(** A socket that will deliver [events] and takes whatever is sent. *)
Definition idle (events : list rx_event) : net :=
  mk_net events (repeat (TxSend 4096) 16) [].

(** A handle as [cr_new] makes it, the socket attached. *)
Definition fresh_handle : cr_redis :=
  match cr_new quiet with
  | Some h => mk_redis (version h) 3 (txt "127.0.0.1") 6379 2000
                       (buf h) (reply h) (error h)
  | None => mk_redis (mk_version 0 0 0) 0 [] 0 0 (mk_buffer [] 0 0 0)
                     (mk_reply 0 None None (mk_multibulk [] [] 0 0)) 0
  end.

(** The handle once a command has been rendered into its buffer. *)
Definition rendered (h : cr_redis) (text : list ascii) : cr_redis :=
  match render quiet h text with
  | Some h' => h'
  | None => h
  end.

(** The decode of a reply that arrives as [events]. *)
Definition decode (events : list rx_event) (recvtype : ascii) :=
  cr_receivereply quiet fresh_handle (idle events) recvtype.

(** ** What a caller sees of a result *)

Definition decoded (r : Z * cr_redis * net) : cr_redis := snd (fst r).

(** The string a reply pointer refers to. *)
Definition view_string (h : cr_redis) (p : option Z) : option (list ascii) :=
  option_map (c_string (buf h)) p.

Definition bulk_value (r : Z * cr_redis * net) : option (list ascii) :=
  view_string (decoded r) (reply_bulk (reply (decoded r))).

Definition multibulk_values (r : Z * cr_redis * net) : list (option (list ascii)) :=
  let mb := reply_multibulk (reply (decoded r)) in
  map (view_string (decoded r)) (firstn (Z.to_nat (mb_len mb)) (mb_bulks mb)).

(** The line a line read returns: its length, its text and the cursor
    after it. *)
Definition line_read (r : readln_result) :=
  (rl_rc r, c_string (buf (rl_h r)) (rl_line r), buf_idx (buf (rl_h r))).

(** The codes [cr_receivereply] can return. *)
Definition decoder_code (rc : Z) : Prop :=
  rc = 0 \/ rc = CREDIS_ERR_PROTOCOL \/ rc = CREDIS_ERR_RECV \/ rc = CREDIS_ERR_NOMEM.

(** ** The buffer *)

Definition ceiling (a b : Z) : Z := (a + b - 1) / b.

(** The buffer record describes its allocation. *)
Definition allocated (b : cr_buffer) : Prop :=
  Z.of_nat (length (buf_data b)) = buf_size b.

Definition buffer_invariant (b : cr_buffer) : Prop :=
  0 <= buf_idx b /\ buf_idx b <= buf_len b /\ buf_len b <= buf_size b.

(** The record fits the allocation and the fill is inside it. *)
Definition sound (b : cr_buffer) : Prop :=
  allocated b /\ 0 <= buf_len b <= buf_size b.

(** ** The send path *)

(** The script offers nothing more in time: select returns 0. *)
Definition times_out (s : list tx_event) : bool :=
  match s with
  | [] => true
  | TxTimeout :: _ => true
  | _ => false
  end.

(** What [cr_senddata] returns for the command in the buffer. *)
Definition send_code (h : cr_redis) (n : net) : Z :=
  fst (cr_senddata n (timeout h) (buf_data (buf h)) (buf_len (buf h))).

(** The commands of [credis_sadd] and [credis_zadd] as rendered. *)
Definition sadd_text (key member : list ascii) : list ascii :=
  txt "SADD" ++ SP ++ key ++ SP ++ decimal (length member) ++ CRLF
      ++ member ++ CRLF.

Definition zadd_text (score_text key member : list ascii) : list ascii :=
  txt "ZADD " ++ key ++ SP ++ score_text ++ SP
      ++ decimal (length member) ++ CRLF ++ member ++ CRLF.

(** A score given by its text. *)
Definition printed_score (s : list ascii) : list ascii := s.

(** ** The line reader *)

(** The bytes the socket will deliver before anything but data happens. *)
Fixpoint rx_bytes (s : list rx_event) : list ascii :=
  match s with
  | RxData bytes :: r => bytes ++ rx_bytes r
  | _ => []
  end.

(** CR at offset [j] and LF after it. *)
Definition crlf_at (mem : Z -> ascii) (j : Z) : Prop :=
  mem j = CR /\ mem (j + 1) = LF.

(** [h'] is [h] after the bytes [got] were received behind its fill,
    possibly into a grown buffer. *)
Record extends (P : platform) (h h' : cr_redis) (got : list ascii) : Prop :=
  mk_extends {
  ext_sound : sound (buf h');
  ext_len : buf_len (buf h') = buf_len (buf h) + Z.of_nat (length got);
  ext_idx : buf_idx (buf h') = buf_idx (buf h);
  ext_size : buf_size (buf h) <= buf_size (buf h');
  ext_data : firstn (Z.to_nat (buf_len (buf h'))) (buf_data (buf h')) =
             firstn (Z.to_nat (buf_len (buf h))) (buf_data (buf h)) ++ got;
  ext_stale : forall i, buf_len (buf h') <= i ->
                        peek P (buf h') i = peek P (buf h) i;
  ext_rest : h' = set_buf h (buf h')
}.

(** What a run of the receive loop establishes. *)
Definition loop_post (P : platform) (h : cr_redis) (n : net) (start : Z)
    (ex : loop_exit) : Prop :=
  match ex with
  | Found nl h' n' =>
      exists got,
        extends P h h' got /\
        rx_bytes (rx n) = got ++ rx_bytes (rx n') /\
        tx n' = tx n /\ wire_out n' = wire_out n /\
        buf_idx (buf h) + start + 2 <= buf_len (buf h') /\
        buf_idx (buf h) + start <= nl < buf_len (buf h') /\
        crlf_at (peek P (buf h')) nl /\
        (forall j, buf_idx (buf h) + start <= j < nl ->
                   ~ crlf_at (peek P (buf h')) j)
  | Return rc h' n' =>
      exists got,
        extends P h h' got /\
        (exists rest, rx_bytes (rx n) = got ++ rest) /\
        tx n' = tx n /\ wire_out n' = wire_out n /\
        (rc = 0 \/ rc = -1 \/ rc = CREDIS_ERR_NOMEM)
  end.

(** The buffer when [cr_readln] returns a line that ends at [nl]. *)
Definition line_taken (b : cr_buffer) (nl : Z) : cr_buffer :=
  mk_buffer (poke (buf_data b) (Z.to_nat nl) NUL) (nl + 2) (buf_len b) (buf_size b).

(** [cr_readln] returned the line that ends at the first CRLF at or after
    the start offset. *)
Definition line_found (P : platform) (h : cr_redis) (n : net) (start : Z)
    (r : readln_result) : Prop :=
  exists nl hm got,
    extends P h hm got /\
    rx_bytes (rx n) = got ++ rx_bytes (rx (rl_net r)) /\
    tx (rl_net r) = tx n /\ wire_out (rl_net r) = wire_out n /\
    buf_idx (buf h) + start <= nl < buf_len (buf hm) /\
    crlf_at (peek P (buf hm)) nl /\
    (forall j, buf_idx (buf h) + start <= j < nl -> ~ crlf_at (peek P (buf hm)) j) /\
    rl_rc r = nl - buf_idx (buf h) /\
    rl_line r = buf_idx (buf h) /\ rl_idx r = buf_idx (buf h) /\
    rl_h r = set_buf h (line_taken (buf hm) nl).

(** [cr_readln] returned without a line. *)
Definition line_missing (P : platform) (h : cr_redis) (n : net) (line idx : Z)
    (r : readln_result) : Prop :=
  rl_line r = line /\ rl_idx r = idx /\
  (exists got, extends P h (rl_h r) got) /\
  tx (rl_net r) = tx n /\ wire_out (rl_net r) = wire_out n /\
  (rl_rc r = 0 \/ rl_rc r = -1 \/ rl_rc r = CREDIS_ERR_NOMEM).

(** The first line of a reply, as [cr_receivereply] reads it. *)
Definition first_line (P : platform) (h : cr_redis) (n : net) : readln_result :=
  cr_readln P (set_buf h (reset_buffer (buf h))) n 0 (junk_int P) (junk_int P).

(** ** The course of a decode *)

(** What a decode passes through: the buffer after the reset and after
    every growth, receive and line read; the offset from the cursor at
    which each line read starts to look for the line end; the element
    count of a multibulk reply. *)
Inductive decode_event :=
| Buffer (b : cr_buffer)
| Start (s : Z)
| Elements (k : Z).

Section Course.

Variable P : platform.

(** The receive loop of [cr_readln], iteration by iteration: the buffer
    after [cr_moremem] when it was called, and after the received bytes
    were counted in. *)
Fixpoint cr_readln_loop_course (fuel : nat) (h : cr_redis) (n : net)
    (start more : Z) : list decode_event :=
  match fuel with
  | O => []
  | S fuel' =>
      let b := buf h in
      let nl := if 0 <? more then None
                else cr_findnl (peek P b) (buf_idx b + start)
                               (Z.to_nat (buf_len b - (buf_idx b + start))) in
      match nl with
      | Some p => []
      | None =>
          let avail := buf_size b - buf_len b in
          let low := (avail <? CR_BUFFER_WATERMARK) || (avail <? more) in
          let grown :=
            if low then cr_moremem P b (if 0 <? more then more else 1)
            else Some b in
          match grown with
          | None => []
          | Some b1 =>
              (if low then [Buffer b1] else []) ++
              let avail := buf_size b1 - buf_len b1 in
              let '(rc, bytes, n1) := cr_receivedata n (timeout h) avail in
              if 0 <? rc then
                let b2 := store_received b1 bytes in
                Buffer b2 ::
                cr_readln_loop_course fuel' (set_buf h b2) n1 start
                                      (more_needed b2 start)
              else []
          end
      end
  end.

(** One call of [cr_readln]: its start offset, its loop, and the buffer it
    returns with. *)
Definition cr_readln_course (h : cr_redis) (n : net) (start line idx : Z)
  : list decode_event :=
  Start start ::
  cr_readln_loop_course (S (rx_weight (rx n))) h n start
                        (more_needed (buf h) start) ++
  [Buffer (buf (rl_h (cr_readln P h n start line idx)))].

(** The element loop of [cr_receivemultibulk]: two line reads an element,
    one for an element that does not exist. *)
Fixpoint multibulk_loop_course (k : nat) (h : cr_redis) (n : net)
    (i bnum line idx : Z) : list decode_event :=
  match k with
  | O => []
  | S k' =>
      let r := cr_readln P h n 0 line idx in
      cr_readln_course h n 0 line idx ++
      if 0 <? rl_rc r then
        let h1 := rl_h r in
        if negb (Ascii.eqb (peek P (buf h1) (rl_line r)) CR_BULK)
        then []
        else
          let line1 := rl_line r + 1 in
          let blen := atoi (c_string (buf h1) line1) in
          if blen =? -1
          then multibulk_loop_course k' (set_idxs h1 i (-1)) (rl_net r)
                                     (i + 1) (bnum - 1) line1 idx
          else
            let r2 := cr_readln P h1 (rl_net r) blen line1 idx in
            cr_readln_course h1 (rl_net r) blen line1 idx ++
            if negb (rl_rc r2 =? blen)
            then []
            else multibulk_loop_course k' (set_idxs (rl_h r2) i (rl_idx r2))
                                       (rl_net r2) (i + 1) (bnum - 1)
                                       (rl_line r2) (rl_idx r2)
      else []
  end.

Definition cr_receivemultibulk_course (h : cr_redis) (n : net) (line : Z)
  : list decode_event :=
  let bnum := atoi (c_string (buf h) line) in
  let mb := reply_multibulk (reply h) in
  Elements bnum ::
  if bnum =? -1 then []
  else
    let grown := if mb_size mb <? bnum
                 then cr_morebulk P mb (bnum - mb_size mb)
                 else Some mb in
    match grown with
    | None => []
    | Some mb1 =>
        multibulk_loop_course (Z.to_nat bnum) (set_reply_multibulk h mb1) n
                              0 bnum line (junk_int P)
    end.

Definition cr_receivebulk_course (h : cr_redis) (n : net) (line : Z)
  : list decode_event :=
  let blen := atoi (c_string (buf h) line) in
  if blen =? -1 then []
  else cr_readln_course h n blen line (junk_int P).

(** [cr_receivereply]: the reset, the first line, and the decoder the
    prefix selects. *)
Definition cr_receivereply_course (h : cr_redis) (n : net) (recvtype : ascii)
  : list decode_event :=
  let h0 := set_buf h (reset_buffer (buf h)) in
  let r := cr_readln P h0 n 0 (junk_int P) (junk_int P) in
  let h1 := rl_h r in
  let n1 := rl_net r in
  Buffer (buf h0) ::
  cr_readln_course h0 n 0 (junk_int P) (junk_int P) ++
  if 0 <? rl_rc r then
    let prefix := peek P (buf h1) (rl_line r) in
    let line := rl_line r + 1 in
    if negb (Ascii.eqb prefix recvtype) && negb (Ascii.eqb prefix CR_ERROR)
    then []
    else if Ascii.eqb prefix CR_ERROR then []
    else if Ascii.eqb prefix CR_INLINE then []
    else if Ascii.eqb prefix CR_INT then []
    else if Ascii.eqb prefix CR_BULK then cr_receivebulk_course h1 n1 line
    else if Ascii.eqb prefix CR_MULTIBULK
    then cr_receivemultibulk_course h1 n1 line
    else []
  else [].

(** The decode that follows a request, when the request was sent whole. *)
Definition cr_sendandreceive_course (h : cr_redis) (n : net) (recvtype : ascii)
  : list decode_event :=
  let '(rc, n1) := cr_senddata n (timeout h) (buf_data (buf h)) (buf_len (buf h)) in
  if negb (rc =? buf_len (buf h)) then []
  else cr_receivereply_course h n1 recvtype.

Definition cr_sendfandreceive_course (h : cr_redis) (n : net) (recvtype : ascii)
    (text : list ascii) : list decode_event :=
  match render P h text with
  | None => []
  | Some h1 => cr_sendandreceive_course h1 n recvtype
  end.


End Course.

(** ** Exchanges inside the range of [int]

    The sizes and offsets of the source are [int]s, and [cr_readln] adds
    the length a reply announces to the cursor.  An exchange is modest
    when the buffer it starts with and all the socket will deliver are at
    most an eighth of the range of [int], and so is a modest command.  A
    decode is tame when every line read starts at or behind the cursor and
    no further than that eighth from it, and a multibulk reply announces
    no more elements than that.  In a modest and tame exchange the sums
    the engine forms stay below [INT_MAX] and the scan for the line end
    stays inside the buffer. *)
Definition MODEST : Z := 2 ^ 28.

(** The bytes of all the data the socket will deliver. *)
Fixpoint rx_total (s : list rx_event) : nat :=
  match s with
  | [] => O
  | RxData bytes :: r => (length bytes + rx_total r)%nat
  | _ :: r => rx_total r
  end.

Definition modest (h : cr_redis) (n : net) : Prop :=
  buf_size (buf h) <= MODEST /\ Z.of_nat (rx_total (rx n)) <= MODEST.


Definition modest_text (text : list ascii) : Prop :=
  Z.of_nat (length text) <= MODEST.

Definition admissible (e : decode_event) : bool :=
  match e with
  | Buffer _ => true
  | Start s => (0 <=? s) && (s <=? MODEST)
  | Elements k => k <=? MODEST
  end.

Definition tame (course : list decode_event) : Prop :=
  forallb admissible course = true.

(** A platform on which a CR and a LF lie next to each other at the
    offset [off] from the buffer, outside the allocation. *)
Definition crlf_in_front (off : Z) : platform :=
  mk_platform (fun i => if i =? off then CR else if i =? off + 1 then LF else NUL)
              0 None (fun _ => true).

(** The peer does not close the connection: no [recv] returns 0. *)
Definition stays_open (s : list rx_event) : bool :=
  forallb (fun e => match e with
                    | RxClosed => false
                    | RxData [] => false
                    | _ => true
                    end) s.

(** ** Numbers on the wire *)

(** The value of a decimal numeral, as the wire grammar has it: an
    optional minus sign and one or more digits. *)
Definition digits_number (ds : list ascii) : Z :=
  fold_left (fun a c => a * 10 + digit_value c) ds 0.

Definition all_digits (ds : list ascii) : bool :=
  match ds with
  | [] => false
  | _ => forallb isdigit ds
  end.

Definition base10_value (text : list ascii) : option Z :=
  match text with
  | [] => None
  | c :: ds =>
      if Ascii.eqb c "-"
      then (if all_digits ds then Some (- digits_number ds) else None)
      else (if all_digits text then Some (digits_number text) else None)
  end.

(** Does the text begin, after white space, with an optionally signed
    digit? *)
Definition leading_number (text : list ascii) : bool :=
  match skip_space text with
  | [] => false
  | c :: r => if Ascii.eqb c "-" || Ascii.eqb c "+"
              then starts_with_digit r else isdigit c
  end.

(** ** The version handshake *)

(** The number of [%d] in a format. *)
Fixpoint count_ints (fmt : list directive) : nat :=
  match fmt with
  | DInt :: fmt' => S (count_ints fmt')
  | _ :: fmt' => count_ints fmt'
  | [] => O
  end.

(** A token carries a version when [sscanf] converts at least two fields. *)
Definition parseable (token : list ascii) : bool :=
  2 <=? fst (sscanf token version_format).

(** The version a converted field list stands for: three components, or
    two, the second of which is the patch level. *)
Definition parsed_version (got : list Z) : cr_version :=
  match got with
  | a :: b :: c :: _ => mk_version a b c
  | [a; b] => mk_version a 0 b
  | _ => mk_version 0 0 0
  end.

(** The fields of the first token that carries a version. *)
Fixpoint first_version (tokens : list (list ascii)) : option (list Z) :=
  match tokens with
  | [] => None
  | t :: ts => if parseable t then Some (snd (sscanf t version_format))
               else first_version ts
  end.

(** The handle of [credis_connect] when the socket is connected. *)
Definition connecting (P : platform) (l : link) (port timeout : Z)
  : option cr_redis :=
  match cr_new P with
  | None => None
  | Some h0 => Some (mk_redis (version h0) (link_fd l) (link_ip l)
                              (if port =? 0 then 6379 else port) timeout
                              (buf h0) (reply h0) (error h0))
  end.

(** ** The handle between two requests *)

(** The buffer holds the command [text] and its terminator, and [len] is
    the length of the command. *)
Definition holds_command (b : cr_buffer) (text : list ascii) : Prop :=
  allocated b /\
  buf_len b = Z.of_nat (length text) /\
  exists rest, buf_data b = text ++ NUL :: rest.

(** The arrays of the multibulk store have the recorded capacity and the
    element count is inside it. *)
Definition store_ok (mb : cr_multibulk) : Prop :=
  Z.of_nat (length (mb_bulks mb)) = mb_size mb /\
  Z.of_nat (length (mb_idxs mb)) = mb_size mb /\
  0 <= mb_len mb <= mb_size mb.

Definition well_formed (h : cr_redis) : Prop :=
  sound (buf h) /\ store_ok (reply_multibulk (reply h)).

(** Nothing of the connection differs between [h] and [h']. *)
Definition same_connection (h h' : cr_redis) : Prop :=
  version h' = version h /\ fd h' = fd h /\ ip h' = ip h /\
  port h' = port h /\ timeout h' = timeout h /\ error h' = error h.

(** No capacity of [h'] is below that of [h]. *)
Definition no_smaller (h h' : cr_redis) : Prop :=
  buf_size (buf h) <= buf_size (buf h') /\
  mb_size (reply_multibulk (reply h)) <= mb_size (reply_multibulk (reply h')).

(** A step from [(h, n)] to [(h', n')] that leaves the handle well
    formed, the connection as it was and the send side untouched. *)
Definition steady (h : cr_redis) (n : net) (h' : cr_redis) (n' : net) : Prop :=
  well_formed h' /\ same_connection h h' /\ no_smaller h h' /\
  tx n' = tx n /\ wire_out n' = wire_out n.

(** ** Commands without arguments to quote *)

Inductive plain_command :=
| Ping
| Auth (password : list ascii)
| Monitor
| Slaveof (host : option (list ascii)) (port : Z).

Definition issue (P : platform) (h : cr_redis) (n : net) (c : plain_command)
  : Z * cr_redis * net :=
  match c with
  | Ping => credis_ping P h n
  | Auth password => credis_auth P h n password
  | Monitor => credis_monitor P h n
  | Slaveof host port => credis_slaveof P h n host port
  end.

(** The line each command stands for in the protocol. *)
Definition command_line (c : plain_command) : list ascii :=
  match c with
  | Ping => txt "PING"
  | Auth password => txt "AUTH " ++ password
  | Monitor => txt "MONITOR"
  | Slaveof (Some name) port =>
      if port =? 0 then txt "SLAVEOF no one"
      else txt "SLAVEOF " ++ name ++ txt " " ++ printf_d port
  | Slaveof None _ => txt "SLAVEOF no one"
  end ++ CRLF.

(** The allocator never refuses. *)
Definition generous (P : platform) : Prop := forall z, alloc_ok P z = true.

(** ** The bytes of a reply *)

(** Every data event ahead of the first other event carries at least one
    byte: a [recv] that returns no byte is the closed connection. *)
Fixpoint live (s : list rx_event) : bool :=
  match s with
  | RxData [] :: _ => false
  | RxData _ :: r => live r
  | _ => true
  end.

(** The bytes received so far, followed by those that arrive before
    anything else happens on the socket. *)
Definition stream (h : cr_redis) (n : net) : list ascii :=
  firstn (Z.to_nat (buf_len (buf h))) (buf_data (buf h)) ++ rx_bytes (rx n).

(** [r] is the line read that found its terminator at offset [q] of the
    stream of [(h, n)]: the terminator's first byte has become the string
    end, the cursor stands behind the terminator, and nothing else of the
    stream or of the handle has changed. *)
Record reads_to (h : cr_redis) (n : net) (q : Z) (r : readln_result) : Prop :=
  mk_reads_to {
  rt_rc : rl_rc r = q - buf_idx (buf h);
  rt_line : rl_line r = buf_idx (buf h);
  rt_idx : rl_idx r = buf_idx (buf h);
  rt_cursor : buf_idx (buf (rl_h r)) = q + 2;
  rt_fill : q < buf_len (buf (rl_h r));
  rt_grow : buf_len (buf h) <= buf_len (buf (rl_h r));
  rt_sound : sound (buf (rl_h r));
  rt_live : live (rx (rl_net r)) = true;
  rt_stream : stream (rl_h r) (rl_net r) = poke (stream h n) (Z.to_nat q) NUL;
  rt_rest : rl_h r = set_buf h (buf (rl_h r));
  rt_tx : tx (rl_net r) = tx n;
  rt_wire : wire_out (rl_net r) = wire_out n
}.

(** A bulk value on the wire: the length line and the payload line, or
    the length -1 of the value that does not exist. *)
Definition encode_bulk (item : option (list ascii)) : list ascii :=
  match item with
  | Some p => CR_BULK :: decimal (length p) ++ CRLF ++ p ++ CRLF
  | None => CR_BULK :: txt "-1" ++ CRLF
  end.

(** A payload a C string can hold and an [int] can count. *)
Definition plain_payload (item : option (list ascii)) : Prop :=
  match item with
  | Some p => ~ In NUL p /\ Z.of_nat (length p) <= INT_MAX
  | None => True
  end.

(** The offset recorded for an element of a multibulk reply, given the
    part [done] of the stream that has been decoded: -1 for the value
    that does not exist, and otherwise the place in [done] where the
    payload lies, terminated. *)
Definition recorded (done : list ascii) (item : option (list ascii)) (ix : Z) : Prop :=
  match item with
  | None => ix = -1
  | Some p =>
      0 < ix /\
      exists front back,
        done = front ++ p ++ NUL :: LF :: back /\ Z.of_nat (length front) = ix
  end.

(** ** The fields of INFO *)

(** [name] stands at offset [i] of [text]. *)
Definition occurs_at (text name : list ascii) (i : nat) : Prop :=
  firstn (length name) (skipn i text) = name.

(** Offset [i] is the first place of [text] where [name] stands. *)
Definition first_at (text name : list ascii) (i : nat) : Prop :=
  occurs_at text name i /\ forall j, (j < i)%nat -> ~ occurs_at text name j.

Definition absent (text name : list ascii) : Prop :=
  forall j, ~ occurs_at text name j.

(** The numeric fields of [REDIS_INFO], the names [credis_info] looks them
    up by, and their C types. *)
Inductive info_number :=
| Arch_bits | Process_id | Uptime_in_seconds | Uptime_in_days
| Connected_clients | Connected_slaves | Blocked_clients | Used_memory
| Changes_since_last_save | Bgsave_in_progress | Last_save_time
| Bgrewriteaof_in_progress | Total_connections_received
| Total_commands_processed | Expired_keys | Hash_max_zipmap_entries
| Hash_max_zipmap_value | Pubsub_channels | Pubsub_patterns | Vm_enabled.

Definition number_name (k : info_number) : list ascii :=
  match k with
  | Arch_bits => txt "arch_bits"
  | Process_id => txt "process_id"
  | Uptime_in_seconds => txt "uptime_in_seconds"
  | Uptime_in_days => txt "uptime_in_days"
  | Connected_clients => txt "connected_clients"
  | Connected_slaves => txt "connected_slaves"
  | Blocked_clients => txt "blocked_clients"
  | Used_memory => txt "used_memory"
  | Changes_since_last_save => txt "changes_since_last_save"
  | Bgsave_in_progress => txt "bgsave_in_progress"
  | Last_save_time => txt "last_save_time"
  | Bgrewriteaof_in_progress => txt "bgrewriteaof_in_progress"
  | Total_connections_received => txt "total_connections_received"
  | Total_commands_processed => txt "total_commands_processed"
  | Expired_keys => txt "expired_keys"
  | Hash_max_zipmap_entries => txt "hash_max_zipmap_entries"
  | Hash_max_zipmap_value => txt "hash_max_zipmap_value"
  | Pubsub_channels => txt "pubsub_channels"
  | Pubsub_patterns => txt "pubsub_patterns"
  | Vm_enabled => txt "vm_enabled"
  end.

Definition number_of (i : REDIS_INFO) (k : info_number) : Z :=
  match k with
  | Arch_bits => arch_bits i
  | Process_id => process_id i
  | Uptime_in_seconds => uptime_in_seconds i
  | Uptime_in_days => uptime_in_days i
  | Connected_clients => connected_clients i
  | Connected_slaves => connected_slaves i
  | Blocked_clients => blocked_clients i
  | Used_memory => used_memory i
  | Changes_since_last_save => changes_since_last_save i
  | Bgsave_in_progress => bgsave_in_progress i
  | Last_save_time => last_save_time i
  | Bgrewriteaof_in_progress => bgrewriteaof_in_progress i
  | Total_connections_received => total_connections_received i
  | Total_commands_processed => total_commands_processed i
  | Expired_keys => expired_keys i
  | Hash_max_zipmap_entries => hash_max_zipmap_entries i
  | Hash_max_zipmap_value => hash_max_zipmap_value i
  | Pubsub_channels => pubsub_channels i
  | Pubsub_patterns => pubsub_patterns i
  | Vm_enabled => vm_enabled i
  end.

Inductive c_type := T_int | T_long | T_unsigned_long | T_unsigned_int.

Definition number_type (k : info_number) : c_type :=
  match k with
  | Arch_bits | Connected_clients | Connected_slaves | Blocked_clients
  | Bgsave_in_progress | Bgrewriteaof_in_progress | Vm_enabled => T_int
  | Used_memory | Hash_max_zipmap_entries | Hash_max_zipmap_value =>
      T_unsigned_long
  | Pubsub_patterns => T_unsigned_int
  | _ => T_long
  end.

Definition in_type (t : c_type) (v : Z) : Prop :=
  match t with
  | T_int => INT_MIN <= v <= INT_MAX
  | T_long => LONG_MIN <= v <= LONG_MAX
  | T_unsigned_long => 0 <= v <= ULONG_MAX
  | T_unsigned_int => 0 <= v < 2 ^ 32
  end.

(** The conversion [credis_info] uses for a field of each type. *)
Definition scan_as (t : c_type) : list ascii -> option Z :=
  match t with
  | T_int => scan_d
  | T_long => scan_ld
  | T_unsigned_long => scan_zu
  | T_unsigned_int => scan_u
  end.

(** The string fields of [REDIS_INFO], their names and their sizes. *)
Inductive info_string := Redis_version | Multiplexing_api | Used_memory_human.

Definition string_name (k : info_string) : list ascii :=
  match k with
  | Redis_version => txt "redis_version"
  | Multiplexing_api => txt "multiplexing_api"
  | Used_memory_human => txt "used_memory_human"
  end.

Definition string_of (i : REDIS_INFO) (k : info_string) : list ascii :=
  match k with
  | Redis_version => redis_version i
  | Multiplexing_api => multiplexing_api i
  | Used_memory_human => used_memory_human i
  end.

Definition string_size (k : info_string) : nat :=
  match k with
  | Redis_version => CREDIS_VERSION_STRING_SIZE
  | Multiplexing_api => CREDIS_MULTIPLEXING_API_SIZE
  | Used_memory_human => CREDIS_USED_MEMORY_HUMAN_SIZE
  end.

(** The structure a caller passes in, here all zero. *)
Definition cleared : REDIS_INFO :=
  mk_info [] 0 [] 0 0 0 0 0 0 0 [] 0 0 0 0 0 0 0 0 0 0 0 0 0.

(** The structure [credis_info] leaves. *)
Definition info_of (r : option (Z * cr_redis * net * REDIS_INFO)) : REDIS_INFO :=
  match r with
  | Some (_, _, _, i) => i
  | None => cleared
  end.

(** * Properties *)

(** ** Lists as memory *)

Lemma poke_length (l : list ascii) (i : nat) (c : ascii) :
  length (poke l i c) = length l.
Proof.
  revert i; induction l as [|x l IH]; intros [|i]; simpl; auto.
Qed.

Lemma blit_length (l : list ascii) (off : nat) (bs : list ascii) :
  length (blit l off bs) = length l.
Proof.
  revert off bs; induction l as [|x l IH]; intros off bs; simpl; auto.
  destruct off as [|o]; [destruct bs as [|c bs]|]; simpl; auto.
Qed.

Lemma nth_poke (l : list ascii) (i j : nat) (c d : ascii) :
  (i < length l)%nat ->
  nth j (poke l i c) d = if Nat.eqb j i then c else nth j l d.
Proof.
  revert i j; induction l as [|x l IH]; intros i j Hi; simpl in *; [lia|].
  destruct i as [|i], j as [|j]; simpl; auto.
  apply IH; lia.
Qed.

Lemma nth_blit (l : list ascii) (off : nat) (bs : list ascii) (j : nat) (d : ascii) :
  (off + length bs <= length l)%nat ->
  nth j (blit l off bs) d =
  if (off <=? j)%nat && (j <? off + length bs)%nat
  then nth (j - off) bs d else nth j l d.
Proof.
  revert off bs j; induction l as [|x l IH]; intros off bs j Hl.
  - simpl in Hl. assert (off = O) by lia. destruct bs; simpl in Hl; [|lia].
    subst. simpl. destruct j; reflexivity.
  - destruct off as [|o].
    + destruct bs as [|c bs].
      * simpl. destruct j; reflexivity.
      * simpl in Hl. destruct j as [|j]; [reflexivity|].
        simpl blit. simpl nth at 1. rewrite IH by (simpl; lia).
        change (S j - 0)%nat with (S j). simpl nth at 3.
        replace (j - 0)%nat with j by lia.
        change (0 <=? j)%nat with true. change (0 <=? S j)%nat with true.
        simpl length. simpl Nat.add.
        change (S j <? S (length bs))%nat with (j <? length bs)%nat.
        reflexivity.
    + simpl in Hl. destruct j as [|j]; [reflexivity|].
      simpl blit. simpl nth at 1. rewrite IH by lia.
      change (S o <=? S j)%nat with (o <=? j)%nat.
      change (S j <? S o + length bs)%nat with (j <? o + length bs)%nat.
      change (S j - S o)%nat with (j - o)%nat.
      destruct ((o <=? j)%nat && (j <? o + length bs)%nat); reflexivity.
Qed.

Lemma firstn_blit_before (l : list ascii) (off : nat) (bs : list ascii) (k : nat) :
  (k <= off)%nat -> firstn k (blit l off bs) = firstn k l.
Proof.
  revert off k; induction l as [|x l IH]; intros off k Hk; simpl; auto.
  destruct off as [|o].
  - assert (k = O) by lia; subst; reflexivity.
  - destruct k as [|k]; simpl; auto. f_equal. apply IH; lia.
Qed.

Lemma firstn_blit (l : list ascii) (off : nat) (bs : list ascii) :
  (off + length bs <= length l)%nat ->
  firstn (off + length bs) (blit l off bs) = firstn off l ++ bs.
Proof.
  revert off bs; induction l as [|x l IH]; intros off bs Hl.
  - simpl in Hl. assert (off = O) by lia. destruct bs; simpl in Hl; [|lia].
    subst. reflexivity.
  - destruct off as [|o].
    + destruct bs as [|c bs]; [reflexivity|].
      simpl in Hl. simpl. f_equal. apply (IH O bs). simpl. lia.
    + simpl in Hl. simpl. f_equal. apply IH. lia.
Qed.

Lemma poke_split (l : list ascii) (i : nat) (c : ascii) :
  (i < length l)%nat ->
  poke l i c = firstn i l ++ c :: skipn (S i) l.
Proof.
  revert i; induction l as [|x l IH]; intros i Hi; simpl in Hi; [lia|].
  destruct i as [|i]; simpl; [reflexivity|].
  f_equal. apply IH. lia.
Qed.

Lemma c_string_of_cut (l1 l2 : list ascii) :
  c_string_of (l1 ++ NUL :: l2) = c_string_of l1.
Proof.
  induction l1 as [|c l1 IH]; simpl; [reflexivity|].
  destruct (Ascii.eqb c NUL); [reflexivity|]. f_equal. exact IH.
Qed.

Lemma c_string_of_clean (l : list ascii) :
  ~ In NUL l -> c_string_of l = l.
Proof.
  induction l as [|c l IH]; intros Hn; simpl; [reflexivity|].
  replace (Ascii.eqb c NUL) with false
    by (symmetry; apply Ascii.eqb_neq; intros ->; apply Hn; left; reflexivity).
  f_equal. apply IH. intros Hin. apply Hn. right. exact Hin.
Qed.

Lemma set_buf_buf (h : cr_redis) : set_buf h (buf h) = h.
Proof. destruct h; reflexivity. Qed.

(** ** Growth of the buffer *)

Lemma fresh_bytes_length (P : platform) (from : Z) (n : nat) :
  length (fresh_bytes P from n) = n.
Proof. unfold fresh_bytes. rewrite length_map, length_seq. reflexivity. Qed.

Lemma cr_moremem_inv (P : platform) (b b' : cr_buffer) (extra : Z) :
  cr_moremem P b extra = Some b' ->
  buf_size b' = buf_size b + (Z.quot extra CR_BUFFER_SIZE + 1) * CR_BUFFER_SIZE /\
  buf_idx b' = buf_idx b /\ buf_len b' = buf_len b /\
  buf_data b' =
    firstn (Z.to_nat (buf_size b')) (buf_data b) ++
    fresh_bytes P (Z.of_nat (length (buf_data b)))
                (Z.to_nat (buf_size b') - length (buf_data b)).
Proof.
  unfold cr_moremem. destruct (alloc_ok P _); [|discriminate].
  intros H; inversion H; subst; clear H; simpl. auto.
Qed.

Lemma cr_moremem_allocated (P : platform) (b b' : cr_buffer) (extra : Z) :
  allocated b -> 0 <= extra ->
  cr_moremem P b extra = Some b' ->
  allocated b' /\ buf_data b' = buf_data b ++
     fresh_bytes P (buf_size b) (Z.to_nat (buf_size b' - buf_size b)).
Proof.
  intros Ha Hx Hm. destruct (cr_moremem_inv _ _ _ _ Hm) as (Hs & _ & _ & Hd).
  unfold allocated in *.
  assert (Hq : 0 <= Z.quot extra CR_BUFFER_SIZE)
    by (apply Z.quot_pos; unfold CR_BUFFER_SIZE; lia).
  assert (Hg : buf_size b <= buf_size b') by (unfold CR_BUFFER_SIZE in *; nia).
  rewrite firstn_all2 in Hd by lia.
  rewrite Ha in Hd.
  replace (Z.to_nat (buf_size b') - length (buf_data b))%nat
    with (Z.to_nat (buf_size b' - buf_size b)) in Hd by lia.
  split; [|exact Hd].
  rewrite Hd, length_app, fresh_bytes_length. lia.
Qed.

(** What growth keeps and what it adds. *)
Lemma cr_moremem_keeps (P : platform) (b b' : cr_buffer) (extra : Z) :
  allocated b -> 0 <= extra ->
  cr_moremem P b extra = Some b' ->
  allocated b' /\
  buf_size b + extra < buf_size b' /\
  buf_size b + CR_BUFFER_SIZE <= buf_size b' /\
  buf_idx b' = buf_idx b /\ buf_len b' = buf_len b /\
  (forall k, (k <= length (buf_data b))%nat ->
             firstn k (buf_data b') = firstn k (buf_data b)).
Proof.
  intros Ha Hx Hm.
  destruct (cr_moremem_inv _ _ _ _ Hm) as (Hs & Hi & Hl & _).
  destruct (cr_moremem_allocated _ _ _ _ Ha Hx Hm) as (Ha' & Hd).
  rewrite Z.quot_div_nonneg in Hs by (unfold CR_BUFFER_SIZE; lia).
  unfold CR_BUFFER_SIZE in *.
  pose proof (Z.div_mod extra 4096 ltac:(lia)) as Hdm.
  pose proof (Z.mod_pos_bound extra 4096 ltac:(lia)) as Hb.
  assert (Hq : 0 <= extra / 4096) by (apply Z.div_pos; lia).
  repeat split; auto; try lia.
  intros k Hk. rewrite Hd. rewrite firstn_app.
  replace (k - length (buf_data b))%nat with O by lia. simpl.
  apply app_nil_r.
Qed.

(** C6, as amended.  A successful [cr_moremem] asked for [extra >= 0] more
    bytes adds [extra / CR_BUFFER_SIZE + 1] increments of CR_BUFFER_SIZE =
    4096 bytes: strictly more than [extra], the ceiling count when [extra]
    is not a multiple of the increment and one increment more when it is.
    The old contents, so the filled bytes below [len], and the cursors are
    unchanged. *)
Theorem cr_moremem_growth (P : platform) (b b' : cr_buffer) (extra : Z) :
  allocated b -> 0 <= extra ->
  cr_moremem P b extra = Some b' ->
  buf_size b' = buf_size b + (extra / CR_BUFFER_SIZE + 1) * CR_BUFFER_SIZE /\
  (extra mod CR_BUFFER_SIZE <> 0 ->
   buf_size b' = buf_size b + ceiling extra CR_BUFFER_SIZE * CR_BUFFER_SIZE) /\
  (extra mod CR_BUFFER_SIZE = 0 ->
   buf_size b' = buf_size b + ceiling extra CR_BUFFER_SIZE * CR_BUFFER_SIZE
                 + CR_BUFFER_SIZE) /\
  buf_size b + extra < buf_size b' /\
  allocated b' /\
  firstn (length (buf_data b)) (buf_data b') = buf_data b /\
  (forall k, (k <= length (buf_data b))%nat ->
             firstn k (buf_data b') = firstn k (buf_data b)) /\
  buf_idx b' = buf_idx b /\ buf_len b' = buf_len b.
Proof.
  intros Ha Hx Hm.
  destruct (cr_moremem_inv _ _ _ _ Hm) as (Hs & Hi & Hl & _).
  destruct (cr_moremem_allocated _ _ _ _ Ha Hx Hm) as (Ha' & Hd).
  rewrite Z.quot_div_nonneg in Hs by (unfold CR_BUFFER_SIZE; lia).
  unfold ceiling, CR_BUFFER_SIZE in *.
  pose proof (Z.div_mod extra 4096 ltac:(lia)) as Hdm.
  pose proof (Z.mod_pos_bound extra 4096 ltac:(lia)) as Hb.
  repeat split; auto.
  - intros Hne.
    rewrite <- (Z.div_unique (extra + 4096 - 1) 4096 (extra / 4096 + 1)
                             (extra mod 4096 - 1)); lia.
  - intros He.
    rewrite <- (Z.div_unique (extra + 4096 - 1) 4096 (extra / 4096) 4095); lia.
  - lia.
  - rewrite Hd. rewrite firstn_app, firstn_all, Nat.sub_diag. simpl.
    apply app_nil_r.
  - intros k Hk. rewrite Hd. rewrite firstn_app.
    replace (k - length (buf_data b))%nat with O by lia. simpl.
    apply app_nil_r.
Qed.

Lemma cr_moremem_growth_witness :
  exists b',
    cr_moremem quiet (mk_buffer (txt "PING") 0 4 4) 5000 = Some b' /\
    buf_size b' = 4 + ceiling 5000 CR_BUFFER_SIZE * CR_BUFFER_SIZE /\
    firstn 4 (buf_data b') = txt "PING".
Proof.
  eexists. split; [reflexivity|].
  destruct (cr_moremem_growth quiet (mk_buffer (txt "PING") 0 4 4) _ 5000
              ltac:(reflexivity) ltac:(lia) ltac:(reflexivity))
    as (_ & Hc & _ & _ & _ & Hd & _).
  split; [apply Hc; vm_compute; discriminate | exact Hd].
Defined.

(** C6, as stated, fails: asked for exactly one increment (4096 bytes) the
    buffer of a new handle grows by two increments, to 12288 bytes, where
    the ceiling formula gives 8192. *)
Lemma cr_moremem_whole_increment :
  option_map buf_size (cr_moremem quiet (buf fresh_handle) 4096) = Some 12288 /\
  buf_size (buf fresh_handle) + ceiling 4096 CR_BUFFER_SIZE * CR_BUFFER_SIZE = 8192.
Proof. split; vm_compute; reflexivity. Qed.

(** ** The line reader *)

Lemma cr_findnl_some (mem : Z -> ascii) (n : nat) :
  forall p q,
    cr_findnl mem p n = Some q ->
    p <= q < p + Z.of_nat n /\ crlf_at mem q /\
    forall j, p <= j < q -> ~ crlf_at mem j.
Proof.
  induction n as [|n IH]; intros p q H; simpl in H; [discriminate|].
  destruct (Ascii.eqb (mem p) CR && Ascii.eqb (mem (p + 1)) LF) eqn:E.
  - inversion H; subst; clear H.
    apply andb_true_iff in E. destruct E as [E1 E2].
    apply Ascii.eqb_eq in E1, E2.
    split; [lia|]. split; [split; assumption|]. intros; lia.
  - destruct (IH _ _ H) as (Hr & Hc & Hn).
    split; [lia|]. split; [exact Hc|].
    intros j Hj [Hj1 Hj2].
    destruct (Z.eq_dec j p) as [->|Hne].
    + rewrite Hj1, Hj2 in E. discriminate.
    + apply (Hn j); [lia | split; assumption].
Qed.

Lemma cr_findnl_none (mem : Z -> ascii) (n : nat) :
  forall p,
    cr_findnl mem p n = None ->
    forall j, p <= j < p + Z.of_nat n -> ~ crlf_at mem j.
Proof.
  induction n as [|n IH]; intros p H j Hj [Hj1 Hj2]; simpl in H; [lia|].
  destruct (Ascii.eqb (mem p) CR && Ascii.eqb (mem (p + 1)) LF) eqn:E;
    [discriminate|].
  destruct (Z.eq_dec j p) as [->|Hne].
  - rewrite Hj1, Hj2 in E. discriminate.
  - apply (IH _ H j); [lia | split; assumption].
Qed.

Lemma cr_findnl_ext (mem mem' : Z -> ascii) (n : nat) :
  forall p,
    (forall j, p <= j <= p + Z.of_nat n -> mem j = mem' j) ->
    cr_findnl mem p n = cr_findnl mem' p n.
Proof.
  induction n as [|n IH]; intros p H; simpl; [reflexivity|].
  rewrite (H p) by lia. rewrite (H (p + 1)) by lia.
  destruct (_ && _); [reflexivity|].
  apply IH. intros j Hj. apply H. lia.
Qed.

Lemma cr_findnl_first (mem : Z -> ascii) (n : nat) :
  forall p q,
    p <= q < p + Z.of_nat n ->
    crlf_at mem q ->
    (forall j, p <= j < q -> mem j <> CR) ->
    cr_findnl mem p n = Some q.
Proof.
  induction n as [|n IH]; intros p q Hq Hc Hno; [lia|].
  simpl. destruct (Z.eq_dec p q) as [->|Hne].
  - destruct Hc as [H1 H2]. rewrite H1, H2. reflexivity.
  - replace (Ascii.eqb (mem p) CR) with false
      by (symmetry; apply Ascii.eqb_neq; apply Hno; lia).
    simpl. apply IH; [lia | exact Hc | intros j Hj; apply Hno; lia].
Qed.

Lemma cr_receivedata_pos (n : net) (msecs size rc : Z) (bytes : list ascii) (n1 : net) :
  cr_receivedata n msecs size = (rc, bytes, n1) ->
  0 < rc ->
  rc = Z.of_nat (length bytes) /\ Z.of_nat (length bytes) <= size /\
  rx_bytes (rx n) = bytes ++ rx_bytes (rx n1) /\
  (rx_weight (rx n1) < rx_weight (rx n))%nat /\
  tx n1 = tx n /\ wire_out n1 = wire_out n.
Proof.
  unfold cr_receivedata. intros H Hpos.
  destruct (rx n) as [|e r] eqn:Erx; [inversion H; lia|].
  destruct e; try (inversion H; lia).
  destruct (firstn (Z.to_nat size) bytes0) as [|c got] eqn:Eg;
    [inversion H; lia|].
  inversion H; subst; clear H. simpl rx. simpl tx. simpl wire_out.
  assert (Hlen : (length (c :: got) <= Z.to_nat size)%nat).
  { rewrite <- Eg. rewrite length_firstn. lia. }
  assert (Hsplit : bytes0 = (c :: got) ++ skipn (Z.to_nat size) bytes0).
  { rewrite <- Eg. symmetry. apply firstn_skipn. }
  split; [reflexivity|]. split; [simpl length in *; lia|].
  split; [|split; [|split; reflexivity]].
  - simpl rx_bytes. rewrite Hsplit at 1.
    destruct (skipn (Z.to_nat size) bytes0) eqn:Es; simpl.
    + rewrite app_nil_r. reflexivity.
    + rewrite <- app_assoc. reflexivity.
  - simpl rx_weight.
    assert (Hl : length bytes0 = (length (c :: got) + length (skipn (Z.to_nat size) bytes0))%nat).
    { rewrite Hsplit at 1. rewrite length_app. reflexivity. }
    destruct (skipn (Z.to_nat size) bytes0) eqn:Es; simpl in *; lia.
Qed.

Lemma cr_receivedata_weight (n : net) (msecs size rc : Z) (bytes : list ascii) (n1 : net) :
  cr_receivedata n msecs size = (rc, bytes, n1) ->
  (rx_weight (rx n1) <= rx_weight (rx n))%nat /\
  tx n1 = tx n /\ wire_out n1 = wire_out n.
Proof.
  unfold cr_receivedata. intros H.
  destruct (rx n) as [|e r] eqn:Erx; [inversion H; subst; rewrite Erx; auto|].
  destruct e; try (inversion H; subst; simpl; auto).
  destruct (firstn (Z.to_nat size) bytes0) as [|c got] eqn:Eg.
  - inversion H; subst; clear H. destruct bytes0; simpl; [auto|rewrite Erx; simpl; auto].
  - inversion H; subst; clear H. simpl.
    assert (Hl : length bytes0 = (length (c :: got) + length (skipn (Z.to_nat size) bytes0))%nat).
    { rewrite <- Eg, <- length_app, firstn_skipn. reflexivity. }
    destruct (skipn (Z.to_nat size) bytes0) eqn:Es; simpl in *; repeat split; lia.
Qed.

(** The fuel that [cr_readln] gives its loop is never used up. *)
Lemma cr_readln_loop_total (P : platform) (fuel : nat) :
  forall h n start more,
    (rx_weight (rx n) < fuel)%nat ->
    cr_readln_loop P fuel h n start more <> None.
Proof.
  induction fuel as [|fuel IH]; intros h n start more Hw; [lia|].
  simpl.
  destruct (if 0 <? more then None else cr_findnl _ _ _); [discriminate|].
  destruct (if _ || _ then cr_moremem P (buf h) _ else Some (buf h)) as [b1|];
    [|discriminate].
  destruct (cr_receivedata n (timeout h) (buf_size b1 - buf_len b1))
    as [[rc bytes] n1] eqn:Er.
  destruct (0 <? rc) eqn:Epos.
  - apply Z.ltb_lt in Epos.
    destruct (cr_receivedata_pos _ _ _ _ _ _ Er Epos) as (_ & _ & _ & Hlt & _).
    apply IH. lia.
  - destruct (rc =? 0); discriminate.
Qed.

Lemma cr_readln_loop_frame (P : platform) (fuel : nat) :
  forall h n start more ex,
    cr_readln_loop P fuel h n start more = Some ex ->
    match ex with
    | Found _ h' _ => h' = set_buf h (buf h')
    | Return _ h' _ => h' = set_buf h (buf h')
    end.
Proof.
  induction fuel as [|fuel IH]; intros h n start more ex H; [discriminate|].
  simpl in H.
  destruct (if 0 <? more then None else cr_findnl _ _ _);
    [inversion H; symmetry; apply set_buf_buf|].
  destruct (if _ || _ then cr_moremem P (buf h) _ else Some (buf h)) as [b1|];
    [|inversion H; symmetry; apply set_buf_buf].
  destruct (cr_receivedata n (timeout h) (buf_size b1 - buf_len b1))
    as [[rc bytes] n1].
  destruct (0 <? rc).
  - specialize (IH _ _ _ _ _ H). destruct ex; rewrite IH at 1; reflexivity.
  - destruct (rc =? 0); inversion H; reflexivity.
Qed.

(** [cr_readln] touches the buffer of the handle and nothing else. *)
Lemma cr_readln_frame (P : platform) (h : cr_redis) (n : net) (start line idx : Z) :
  rl_h (cr_readln P h n start line idx) =
  set_buf h (buf (rl_h (cr_readln P h n start line idx))).
Proof.
  unfold cr_readln.
  destruct (cr_readln_loop P _ h n start _) as [ex|] eqn:E;
    [|symmetry; apply set_buf_buf].
  apply cr_readln_loop_frame in E. destruct ex; simpl.
  - rewrite E at 1. reflexivity.
  - exact E.
Qed.


Lemma cr_readln_reply (P : platform) (h : cr_redis) (n : net) (start line idx : Z) :
  reply (rl_h (cr_readln P h n start line idx)) = reply h.
Proof. rewrite cr_readln_frame. reflexivity. Qed.

Lemma cr_readln_loop_found (P : platform) (fuel : nat) (h : cr_redis) (n : net)
    (start more p : Z) :
  (0 <? more) = false ->
  cr_findnl (peek P (buf h)) (buf_idx (buf h) + start)
            (Z.to_nat (buf_len (buf h) - (buf_idx (buf h) + start))) = Some p ->
  cr_readln_loop P (S fuel) h n start more = Some (Found p h n).
Proof. intros Hm Hf. simpl. rewrite Hm, Hf. reflexivity. Qed.

Lemma cr_readln_loop_receive (P : platform) (fuel : nat) (h : cr_redis) (n n1 : net)
    (start more rc : Z) (bytes : list ascii) :
  (0 <? more) = true ->
  CR_BUFFER_WATERMARK <= buf_size (buf h) - buf_len (buf h) ->
  more <= buf_size (buf h) - buf_len (buf h) ->
  cr_receivedata n (timeout h) (buf_size (buf h) - buf_len (buf h)) = (rc, bytes, n1) ->
  0 < rc ->
  cr_readln_loop P (S fuel) h n start more =
  cr_readln_loop P fuel (set_buf h (store_received (buf h) bytes)) n1 start
                 (more_needed (store_received (buf h) bytes) start).
Proof.
  intros Hm Hw Hmore Hr Hpos. simpl. rewrite Hm.
  replace (buf_size (buf h) - buf_len (buf h) <? CR_BUFFER_WATERMARK) with false
    by (symmetry; apply Z.ltb_ge; exact Hw).
  replace (buf_size (buf h) - buf_len (buf h) <? more) with false
    by (symmetry; apply Z.ltb_ge; exact Hmore).
  simpl. rewrite Hr.
  replace (0 <? rc) with true by (symmetry; apply Z.ltb_lt; exact Hpos).
  reflexivity.
Qed.

Section LineReader.

Variable P : platform.

Lemma extends_refl (h : cr_redis) : sound (buf h) -> extends P h h [].
Proof.
  intros Hs. constructor; auto; simpl; try lia.
  - rewrite app_nil_r. reflexivity.
  - symmetry. apply set_buf_buf.
Qed.

Lemma extends_trans (h h1 h2 : cr_redis) (g1 g2 : list ascii) :
  extends P h h1 g1 -> extends P h1 h2 g2 -> extends P h h2 (g1 ++ g2).
Proof.
  intros [S1 L1 I1 Z1 D1 T1 R1] [S2 L2 I2 Z2 D2 T2 R2].
  constructor; auto.
  - rewrite length_app. lia.
  - lia.
  - lia.
  - rewrite D2, D1, app_assoc. reflexivity.
  - intros i Hi. rewrite T2 by lia. apply T1. lia.
  - rewrite R2 at 1. rewrite R1. reflexivity.
Qed.

Lemma nth_fresh_bytes (from : Z) (n k : nat) (d : ascii) :
  (k < n)%nat -> nth k (fresh_bytes P from n) d = junk P (from + Z.of_nat k).
Proof.
  intros Hk. unfold fresh_bytes.
  rewrite (nth_indep _ d (junk P (from + Z.of_nat 0)))
    by (rewrite length_map, length_seq; exact Hk).
  rewrite (map_nth (fun k => junk P (from + Z.of_nat k))).
  rewrite seq_nth by exact Hk. reflexivity.
Qed.

Lemma peek_moremem (b b1 : cr_buffer) (extra : Z) :
  allocated b -> 0 <= extra ->
  cr_moremem P b extra = Some b1 ->
  forall i, peek P b1 i = peek P b i.
Proof.
  intros Ha Hx Hm i.
  destruct (cr_moremem_allocated _ _ _ _ Ha Hx Hm) as (Ha1 & Hd).
  destruct (cr_moremem_inv _ _ _ _ Hm) as (Hs & _).
  assert (Hq : 0 <= Z.quot extra CR_BUFFER_SIZE)
    by (apply Z.quot_pos; unfold CR_BUFFER_SIZE; lia).
  assert (Hg : buf_size b <= buf_size b1) by (unfold CR_BUFFER_SIZE in *; nia).
  unfold peek, in_alloc. unfold allocated in *. rewrite Ha, Ha1.
  destruct (0 <=? i) eqn:E0; simpl; [|reflexivity].
  apply Z.leb_le in E0.
  destruct (i <? buf_size b) eqn:E1.
  - apply Z.ltb_lt in E1.
    replace (i <? buf_size b1) with true by (symmetry; apply Z.ltb_lt; lia).
    rewrite Hd. apply app_nth1. lia.
  - apply Z.ltb_ge in E1.
    destruct (i <? buf_size b1) eqn:E2; [|reflexivity].
    apply Z.ltb_lt in E2.
    rewrite Hd. rewrite app_nth2 by lia.
    rewrite nth_fresh_bytes by lia. f_equal. lia.
Qed.

Lemma extends_grow (h : cr_redis) (b1 : cr_buffer) (extra : Z) :
  sound (buf h) -> 0 <= extra ->
  cr_moremem P (buf h) extra = Some b1 ->
  extends P h (set_buf h b1) [] /\
  CR_BUFFER_SIZE <= buf_size b1 - buf_len b1 /\ extra < buf_size b1 - buf_len b1.
Proof.
  intros [Ha Hl] Hx Hm.
  destruct (cr_moremem_keeps _ _ _ _ Ha Hx Hm)
    as (Ha1 & Hgt & Hs & Hi & Hlen & Hk).
  split; [|unfold CR_BUFFER_SIZE in *; lia].
  constructor; simpl; auto.
  - split; [exact Ha1|]. unfold CR_BUFFER_SIZE in *. lia.
  - lia.
  - unfold CR_BUFFER_SIZE in *. lia.
  - rewrite app_nil_r, Hlen. apply Hk. unfold allocated in Ha. lia.
  - intros i _. apply (peek_moremem _ _ _ Ha Hx Hm).
Qed.

Lemma extends_store (h : cr_redis) (bytes : list ascii) :
  sound (buf h) ->
  Z.of_nat (length bytes) <= buf_size (buf h) - buf_len (buf h) ->
  extends P h (set_buf h (store_received (buf h) bytes)) bytes.
Proof.
  intros [Ha Hl] Hfit. unfold allocated in Ha.
  constructor; simpl; auto; try lia.
  - split; [|simpl; lia]. unfold allocated. simpl. rewrite blit_length. exact Ha.
  - replace (Z.to_nat (buf_len (buf h) + Z.of_nat (length bytes)))
      with (Z.to_nat (buf_len (buf h)) + length bytes)%nat by lia.
    apply firstn_blit. lia.
  - intros i Hi. unfold peek, in_alloc. simpl. rewrite blit_length.
    destruct ((0 <=? i) && (i <? Z.of_nat (length (buf_data (buf h))))) eqn:E;
      [|reflexivity].
    rewrite nth_blit by lia.
    replace ((Z.to_nat (buf_len (buf h)) <=? Z.to_nat i)%nat &&
             (Z.to_nat i <? Z.to_nat (buf_len (buf h)) + length bytes)%nat)
      with false; [reflexivity|].
    symmetry. apply andb_false_iff. right. apply Nat.ltb_ge. lia.
Qed.

Lemma more_needed_nonneg (b : cr_buffer) (start : Z) : 0 <= more_needed b start.
Proof. unfold more_needed. destruct (_ <? 0) eqn:E; [lia|]. apply Z.ltb_ge in E. lia. Qed.

Lemma more_needed_zero (b : cr_buffer) (start : Z) :
  (0 <? more_needed b start) = false -> buf_idx b + start + 2 <= buf_len b.
Proof.
  unfold more_needed. destruct (_ <? 0) eqn:E; intros H.
  - apply Z.ltb_lt in E. lia.
  - apply Z.ltb_ge in H. lia.
Qed.

Lemma cr_readln_loop_spec (fuel : nat) :
  forall h n start ex,
    sound (buf h) ->
    cr_readln_loop P fuel h n start (more_needed (buf h) start) = Some ex ->
    loop_post P h n start ex.
Proof.
  induction fuel as [|fuel IH]; intros h n start ex Hs H; [discriminate|].
  simpl in H.
  pose proof (more_needed_nonneg (buf h) start) as Hmore.
  destruct (if 0 <? more_needed (buf h) start then None
            else cr_findnl (peek P (buf h)) (buf_idx (buf h) + start)
                   (Z.to_nat (buf_len (buf h) - (buf_idx (buf h) + start))))
    as [p|] eqn:Enl.
  - (* the terminator is in the buffer *)
    inversion H; subst; clear H.
    destruct (0 <? more_needed (buf h) start) eqn:Em; [discriminate|].
    apply more_needed_zero in Em.
    destruct (cr_findnl_some _ _ _ _ Enl) as (Hr & Hc & Hn).
    exists []. simpl.
    split; [apply extends_refl; exact Hs|].
    repeat split; auto; try lia.
    + apply Hc.
    + apply Hc.
  - destruct (if (buf_size (buf h) - buf_len (buf h) <? CR_BUFFER_WATERMARK)
                 || (buf_size (buf h) - buf_len (buf h) <? more_needed (buf h) start)
              then cr_moremem P (buf h)
                     (if 0 <? more_needed (buf h) start
                      then more_needed (buf h) start else 1)
              else Some (buf h)) as [b1|] eqn:Eg.
    + assert (Hext1 : extends P h (set_buf h b1) []).
      { destruct (_ || _) in Eg.
        - eapply extends_grow; [exact Hs| |exact Eg].
          destruct (0 <? more_needed (buf h) start); lia.
        - inversion Eg; subst. rewrite set_buf_buf. apply extends_refl. exact Hs. }
      destruct (cr_receivedata n (timeout h) (buf_size b1 - buf_len b1))
        as [[rc bytes] n1] eqn:Er.
      destruct (0 <? rc) eqn:Epos.
      * apply Z.ltb_lt in Epos.
        destruct (cr_receivedata_pos _ _ _ _ _ _ Er Epos)
          as (Hrc & Hfit & Hrx & _ & Htx & Hwo).
        assert (Hext2 : extends P (set_buf h b1)
                          (set_buf h (store_received b1 bytes)) bytes).
        { apply (extends_store (set_buf h b1) bytes).
          - apply (ext_sound _ _ _ _ Hext1).
          - exact Hfit. }
        pose proof (extends_trans _ _ _ _ _ Hext1 Hext2) as Hext. simpl in Hext.
        specialize (IH (set_buf h (store_received b1 bytes)) n1 start ex
                       (ext_sound _ _ _ _ Hext) H).
        assert (Hidx : buf_idx (buf (set_buf h (store_received b1 bytes))) =
                       buf_idx (buf h)) by apply (ext_idx _ _ _ _ Hext).
        destruct ex as [nl h' n' | rc' h' n']; simpl in IH |- *.
        -- destruct IH as (got & He & Hb & Ht & Hw & Hl & Hnl & Hc & Hn).
           exists (bytes ++ got).
           split; [apply (extends_trans _ _ _ _ _ Hext He)|].
           simpl in Hidx. simpl in Hl, Hnl, Hn. rewrite Hidx in *.
           repeat split; auto; try lia; try congruence.
           ++ rewrite Hrx, Hb, app_assoc. reflexivity.
           ++ apply Hc.
           ++ apply Hc.
        -- destruct IH as (got & He & (rest & Hb) & Ht & Hw & Hcode).
           exists (bytes ++ got).
           split; [apply (extends_trans _ _ _ _ _ Hext He)|].
           repeat split; auto; try congruence.
           exists rest. rewrite Hrx, Hb, app_assoc. reflexivity.
      * destruct (cr_receivedata_weight _ _ _ _ _ _ Er) as (_ & Htx & Hwo).
        destruct (rc =? 0); inversion H; subst; clear H; simpl;
          exists []; (split; [exact Hext1|]);
          repeat split; auto; exists (rx_bytes (rx n)); reflexivity.
    + inversion H; subst; clear H. simpl.
      exists []. split; [apply extends_refl; exact Hs|].
      repeat split; auto. exists (rx_bytes (rx n)); reflexivity.
Qed.

End LineReader.

Section LineReaderResults.

Variable P : platform.

Lemma cr_readln_cases (h : cr_redis) (n : net) (start line idx : Z) :
  sound (buf h) -> 0 <= buf_idx (buf h) + start ->
  let r := cr_readln P h n start line idx in
  line_found P h n start r \/ line_missing P h n line idx r.
Proof.
  intros Hs Hstart. unfold cr_readln.
  destruct (cr_readln_loop P (S (rx_weight (rx n))) h n start
              (more_needed (buf h) start)) as [ex|] eqn:E.
  - pose proof (cr_readln_loop_spec P _ _ _ _ _ Hs E) as Hp.
    destruct ex as [nl hm n1 | rc hm n1]; simpl in Hp.
    + left. destruct Hp as (got & He & Hb & Ht & Hw & _ & Hnl & Hc & Hn).
      destruct (ext_sound _ _ _ _ He) as [Ha Hl]. unfold allocated in Ha.
      assert (Hin : in_alloc (buf hm) nl = true).
      { unfold in_alloc. apply andb_true_iff. split;
          [apply Z.leb_le | apply Z.ltb_lt]; lia. }
      unfold poke_buf. rewrite Hin. simpl.
      exists nl, hm, got.
      pose proof (ext_idx _ _ _ _ He) as Hi.
      pose proof (ext_rest _ _ _ _ He) as Hr.
      split; [exact He|]. split; [exact Hb|]. split; [exact Ht|].
      split; [exact Hw|]. split; [exact Hnl|]. split; [exact Hc|].
      split; [exact Hn|]. split; [simpl; lia|]. split; [exact Hi|].
      split; [exact Hi|].
      simpl. rewrite Hr at 1. reflexivity.
    + right. destruct Hp as (got & He & _ & Ht & Hw & Hcode).
      unfold line_missing. simpl. repeat split; auto. exists got. exact He.
  - exfalso. apply (cr_readln_loop_total P _ h n start _ (Nat.lt_succ_diag_r _) E).
Qed.

Lemma peek_line_taken (b : cr_buffer) (nl i : Z) :
  in_alloc b nl = true ->
  peek P (line_taken b nl) i = if i =? nl then NUL else peek P b i.
Proof.
  intros Hin. unfold peek, in_alloc in *. simpl. rewrite poke_length.
  apply andb_true_iff in Hin. destruct Hin as [H0 H1].
  apply Z.leb_le in H0. apply Z.ltb_lt in H1.
  destruct ((0 <=? i) && (i <? Z.of_nat (length (buf_data b)))) eqn:E.
  - apply andb_true_iff in E. destruct E as [E0 E1].
    apply Z.leb_le in E0. apply Z.ltb_lt in E1.
    rewrite nth_poke by lia.
    destruct (i =? nl) eqn:En.
    + apply Z.eqb_eq in En. subst.
      replace (Z.to_nat nl =? Z.to_nat nl)%nat with true
        by (symmetry; apply Nat.eqb_eq; reflexivity).
      reflexivity.
    + apply Z.eqb_neq in En.
      replace (Z.to_nat i =? Z.to_nat nl)%nat with false
        by (symmetry; apply Nat.eqb_neq; lia).
      reflexivity.
  - destruct (i =? nl) eqn:En; [|reflexivity].
    apply Z.eqb_eq in En. subst.
    apply andb_false_iff in E. destruct E as [E|E];
      [apply Z.leb_gt in E | apply Z.ltb_ge in E]; lia.
Qed.

(** The string at offset [p] of the line: the bytes up to the terminator,
    or up to a NUL that the server put among them. *)
Lemma c_string_line_taken (b : cr_buffer) (nl p : Z) :
  in_alloc b nl = true -> 0 <= p <= nl ->
  c_string (line_taken b nl) p =
  c_string_of (firstn (Z.to_nat (nl - p)) (skipn (Z.to_nat p) (buf_data b))).
Proof.
  intros Hin Hp. unfold c_string, in_alloc in *. simpl.
  apply andb_true_iff in Hin. destruct Hin as [H0 H1].
  apply Z.leb_le in H0. apply Z.ltb_lt in H1.
  replace (0 <=? p) with true by (symmetry; apply Z.leb_le; lia).
  rewrite poke_split by lia.
  rewrite skipn_app.
  rewrite length_firstn.
  replace (Z.to_nat p - Nat.min (Z.to_nat nl) (length (buf_data b)))%nat
    with O by lia.
  simpl skipn at 2.
  rewrite c_string_of_cut.
  f_equal.
  replace (Z.to_nat nl) with (Z.to_nat p + Z.to_nat (nl - p))%nat at 1 by lia.
  symmetry. apply firstn_skipn_comm.
Qed.

Lemma first_line_found (h : cr_redis) (n : net) :
  allocated (buf h) -> 0 <= buf_size (buf h) ->
  let r := first_line P h n in
  0 < rl_rc r ->
  rl_line r = 0 /\
  allocated (buf (rl_h r)) /\
  reply (rl_h r) = reply h /\ version (rl_h r) = version h /\
  tx (rl_net r) = tx n /\ wire_out (rl_net r) = wire_out n /\
  buf_idx (buf (rl_h r)) = rl_rc r + 2 /\
  rl_rc r < buf_len (buf (rl_h r)) <= buf_size (buf (rl_h r)) /\
  Z.of_nat (length (rx_bytes (rx n))) >= buf_len (buf (rl_h r)) /\
  (forall k, 0 <= k < rl_rc r ->
             peek P (buf (rl_h r)) k = nth (Z.to_nat k) (rx_bytes (rx n)) NUL) /\
  (forall p, 0 <= p <= rl_rc r ->
     c_string (buf (rl_h r)) p =
     c_string_of (firstn (Z.to_nat (rl_rc r - p))
                         (skipn (Z.to_nat p) (rx_bytes (rx n))))).
Proof.
  intros Ha Hsz r Hpos.
  assert (Hs : sound (buf (set_buf h (reset_buffer (buf h))))).
  { split; [exact Ha | simpl; lia]. }
  destruct (cr_readln_cases (set_buf h (reset_buffer (buf h))) n 0
              (junk_int P) (junk_int P) Hs ltac:(simpl; lia)) as [Hf|Hm].
  - fold (first_line P h n) in Hf. fold r in Hf.
    destruct Hf as (nl & hm & got & He & Hb & Ht & Hw & Hnl & Hc & Hn & Hrc & Hline & Hidx & Hh).
    simpl in Hrc, Hline, Hnl, Hidx.
    destruct He as [[Ham Hlm] Hlen _ _ Hdata _ Hrest]. simpl in Hlen, Hdata.
    assert (Hin : in_alloc (buf hm) nl = true).
    { unfold in_alloc, allocated in *. apply andb_true_iff. split;
        [apply Z.leb_le | apply Z.ltb_lt]; lia. }
    assert (Hnlrc : nl = rl_rc r) by lia.
    assert (Hgot : firstn (Z.to_nat (buf_len (buf hm))) (buf_data (buf hm)) = got)
      by exact Hdata.
    assert (Hgl : Z.to_nat (buf_len (buf hm)) = length got) by lia.
    rewrite Hh. simpl.
    split; [exact Hline|].
    split; [unfold allocated in *; simpl; rewrite poke_length; exact Ham|].
    split; [reflexivity|]. split; [reflexivity|].
    split; [exact Ht|]. split; [exact Hw|].
    split; [lia|]. split; [lia|].
    split; [rewrite Hb, length_app; lia|].
    split.
    + intros k Hk. rewrite peek_line_taken by exact Hin.
      replace (k =? nl) with false by (symmetry; apply Z.eqb_neq; lia).
      unfold peek, in_alloc. unfold allocated in Ham. rewrite Ham.
      replace ((0 <=? k) && (k <? buf_size (buf hm))) with true
        by (symmetry; apply andb_true_iff; split;
            [apply Z.leb_le | apply Z.ltb_lt]; lia).
      rewrite Hb. rewrite app_nth1 by lia.
      rewrite <- Hgot. rewrite nth_firstn.
      replace (Z.to_nat k <? Z.to_nat (buf_len (buf hm)))%nat with true
        by (symmetry; apply Nat.ltb_lt; lia).
      reflexivity.
    + intros p Hp. rewrite c_string_line_taken by (auto; lia).
      rewrite <- Hnlrc. f_equal.
      rewrite Hb.
      assert (Hcut : forall l : list ascii,
                 firstn (Z.to_nat (nl - p)) (skipn (Z.to_nat p) l) =
                 skipn (Z.to_nat p) (firstn (Z.to_nat nl) l)).
      { intros l. replace (Z.to_nat nl) with (Z.to_nat p + Z.to_nat (nl - p))%nat by lia.
        apply firstn_skipn_comm. }
      rewrite !Hcut. f_equal.
      rewrite firstn_app.
      replace (Z.to_nat nl - length got)%nat with O by lia.
      simpl. rewrite app_nil_r.
      rewrite <- Hgot. rewrite firstn_firstn.
      f_equal. lia.
  - fold (first_line P h n) in Hm. fold r in Hm.
    destruct Hm as (_ & _ & _ & _ & _ & Hcode).
    unfold CREDIS_ERR_NOMEM in Hcode. lia.
Qed.

End LineReaderResults.

(** A line without CR, its CRLF and whatever follows arrive in one receive
    that fits the buffer: the first line read has the length of the line. *)
Lemma first_line_single_chunk (P : platform) (h : cr_redis) (n : net)
    (line tail : list ascii) (r : list rx_event) :
  allocated (buf h) ->
  CR_BUFFER_WATERMARK <= buf_size (buf h) ->
  rx n = RxData (line ++ CRLF ++ tail) :: r ->
  ~ In CR line ->
  Z.of_nat (length (line ++ CRLF ++ tail)) <= buf_size (buf h) ->
  rl_rc (first_line P h n) = Z.of_nat (length line).
Proof.
  intros Ha Hsz Hrx Hcr Hfit.
  set (w := line ++ CRLF ++ tail) in *.
  assert (Hll : (length line + 2 <= length w)%nat).
  { unfold w. rewrite !length_app. simpl. lia. }
  assert (H410 : 410 <= buf_size (buf h)) by exact Hsz.
  set (h0 := set_buf h (reset_buffer (buf h))).
  set (n1 := mk_net r (tx n) (wire_out n)).
  assert (Hrecv : cr_receivedata n (timeout h0)
                    (buf_size (buf h0) - buf_len (buf h0)) =
                  (Z.of_nat (length w), w, n1)).
  { unfold cr_receivedata. rewrite Hrx. simpl buf_size. simpl buf_len.
    rewrite firstn_all2 by lia. rewrite skipn_all2 by lia.
    destruct w as [|c0 w']; [simpl in Hll; lia|]. reflexivity. }
  set (b2 := store_received (buf h0) w).
  assert (Hpeek : forall j, 0 <= j < Z.of_nat (length w) ->
                            peek P b2 j = nth (Z.to_nat j) w NUL).
  { intros j Hj. unfold peek, in_alloc, b2. simpl. rewrite blit_length.
    unfold allocated in Ha. rewrite Ha.
    replace ((0 <=? j) && (j <? buf_size (buf h))) with true
      by (symmetry; apply andb_true_iff; split;
          [apply Z.leb_le | apply Z.ltb_lt]; lia).
    rewrite nth_blit by (simpl; lia). simpl.
    replace (Z.to_nat j <? length w)%nat with true
      by (symmetry; apply Nat.ltb_lt; lia).
    f_equal. lia. }
  assert (Hfind : cr_findnl (peek P b2) (buf_idx b2 + 0)
                    (Z.to_nat (buf_len b2 - (buf_idx b2 + 0))) =
                  Some (Z.of_nat (length line))).
  { change (buf_idx b2) with 0. change (buf_len b2) with (0 + Z.of_nat (length w)).
    apply cr_findnl_first.
    - lia.
    - split.
      + rewrite Hpeek by lia. rewrite Nat2Z.id. unfold w.
        rewrite app_nth2 by lia. rewrite Nat.sub_diag. reflexivity.
      + rewrite Hpeek by lia.
        replace (Z.to_nat (Z.of_nat (length line) + 1)) with (S (length line)) by lia.
        unfold w. rewrite app_nth2 by lia.
        replace (S (length line) - length line)%nat with 1%nat by lia.
        reflexivity.
    - intros j Hj. rewrite Hpeek by lia. unfold w.
      rewrite app_nth1 by lia. intros Heq. apply Hcr.
      rewrite <- Heq. apply nth_In. lia. }
  assert (Hm2 : (0 <? more_needed b2 0) = false).
  { unfold more_needed. change (buf_idx b2) with 0.
    change (buf_len b2) with (0 + Z.of_nat (length w)).
    destruct (0 + 0 + 2 - (0 + Z.of_nat (length w)) <? 0) eqn:E; [reflexivity|].
    apply Z.ltb_ge. lia. }
  unfold first_line, cr_readln. fold h0. rewrite Hrx. simpl rx_weight.
  change (more_needed (buf h0) 0) with 2.
  rewrite (cr_readln_loop_receive P _ h0 n n1 0 2 _ w eq_refl
             ltac:(simpl; lia) ltac:(simpl; lia) Hrecv ltac:(lia)).
  fold b2.
  rewrite (cr_readln_loop_found P _ (set_buf h0 b2) n1 0 _ _ Hm2 Hfind).
  simpl rl_rc.
  unfold poke_buf. destruct (in_alloc _ _); simpl; lia.
Qed.


Lemma extends_prefix (P : platform) (h hm : cr_redis) (got rest : list ascii) (k : nat) :
  extends P h hm got ->
  sound (buf h) ->
  (k <= Z.to_nat (buf_len (buf hm)))%nat ->
  firstn k (buf_data (buf hm)) =
  firstn k (firstn (Z.to_nat (buf_len (buf h))) (buf_data (buf h)) ++ got ++ rest).
Proof.
  intros [[Ham Hlm] Hlen _ _ Hdata _ _] [Ha Hl] Hk.
  unfold allocated in *.
  replace k with (Nat.min k (Z.to_nat (buf_len (buf hm)))) at 1 by lia.
  rewrite <- firstn_firstn. rewrite Hdata.
  rewrite app_assoc. rewrite (firstn_app k (_ ++ got)).
  replace (k - length (firstn (Z.to_nat (buf_len (buf h))) (buf_data (buf h)) ++ got))%nat
    with O; [simpl; rewrite app_nil_r; reflexivity|].
  rewrite length_app, length_firstn. lia.
Qed.

Lemma extends_peek (P : platform) (h hm : cr_redis) (got rest : list ascii) (j : Z) :
  extends P h hm got ->
  sound (buf h) ->
  0 <= j < buf_len (buf hm) ->
  peek P (buf hm) j =
  nth (Z.to_nat j)
      (firstn (Z.to_nat (buf_len (buf h))) (buf_data (buf h)) ++ got ++ rest) NUL.
Proof.
  intros He Hs Hj.
  pose proof (extends_prefix P h hm got rest (S (Z.to_nat j)) He Hs) as Hp.
  destruct He as [[Ham Hlm] _ _ _ _ _ _]. unfold allocated in Ham.
  specialize (Hp ltac:(lia)).
  unfold peek, in_alloc.
  replace ((0 <=? j) && (j <? Z.of_nat (length (buf_data (buf hm))))) with true
    by (symmetry; apply andb_true_iff; split;
        [apply Z.leb_le | apply Z.ltb_lt]; lia).
  rewrite <- (firstn_skipn (S (Z.to_nat j)) (buf_data (buf hm))).
  rewrite app_nth1 by (rewrite length_firstn; lia).
  rewrite Hp. rewrite nth_firstn.
  replace (Z.to_nat j <? S (Z.to_nat j))%nat with true
    by (symmetry; apply Nat.ltb_lt; lia).
  reflexivity.
Qed.

(** ** Chunk boundaries *)

(** Two deliveries of the same bytes, cut into receives in any two ways,
    give the same line, the same length and the same cursor, provided
    both line reads end with the cursor inside the received data, which is
    to say that neither paired a CR with a byte it had not received. *)
Lemma cr_readln_chunk_invariant (P : platform) (h : cr_redis) (n1 n2 : net)
    (start line idx : Z) :
  sound (buf h) -> 0 <= buf_idx (buf h) -> 0 <= start ->
  rx_bytes (rx n1) = rx_bytes (rx n2) ->
  let r1 := cr_readln P h n1 start line idx in
  let r2 := cr_readln P h n2 start line idx in
  line_found P h n1 start r1 -> line_found P h n2 start r2 ->
  buf_idx (buf (rl_h r1)) <= buf_len (buf (rl_h r1)) ->
  buf_idx (buf (rl_h r2)) <= buf_len (buf (rl_h r2)) ->
  rl_rc r1 = rl_rc r2 /\ rl_line r1 = rl_line r2 /\
  buf_idx (buf (rl_h r1)) = buf_idx (buf (rl_h r2)) /\
  c_string (buf (rl_h r1)) (rl_line r1) = c_string (buf (rl_h r2)) (rl_line r2).
Proof.
  intros Hs Hidx0 Hstart Hwire r1 r2 Hf1 Hf2 Hin1 Hin2.
  destruct Hf1 as (nl1 & hm1 & got1 & He1 & Hb1 & _ & _ & Hnl1 & Hc1 & Hn1
                   & Hrc1 & Hline1 & _ & Hh1).
  destruct Hf2 as (nl2 & hm2 & got2 & He2 & Hb2 & _ & _ & Hnl2 & Hc2 & Hn2
                   & Hrc2 & Hline2 & _ & Hh2).
  fold r1 in Hb1, Hrc1, Hline1, Hh1. fold r2 in Hb2, Hrc2, Hline2, Hh2.
  rewrite Hh1 in Hin1 |- *. rewrite Hh2 in Hin2 |- *. simpl in Hin1, Hin2 |- *.
  set (stream := firstn (Z.to_nat (buf_len (buf h))) (buf_data (buf h)) ++ rx_bytes (rx n1)).
  assert (Hp1 : forall j, 0 <= j < buf_len (buf hm1) ->
                          peek P (buf hm1) j = nth (Z.to_nat j) stream NUL).
  { intros j Hj. unfold stream. rewrite Hb1. apply extends_peek; assumption. }
  assert (Hp2 : forall j, 0 <= j < buf_len (buf hm2) ->
                          peek P (buf hm2) j = nth (Z.to_nat j) stream NUL).
  { intros j Hj. unfold stream. rewrite Hwire, Hb2. apply extends_peek; assumption. }
  assert (Hnl : nl1 = nl2).
  { destruct (Z.lt_trichotomy nl1 nl2) as [Hlt | [Heq | Hgt]]; [|exact Heq|].
    - exfalso. apply (Hn2 nl1); [lia|].
      destruct Hc1 as [Hcr Hlf]. split.
      + rewrite Hp2 by lia. rewrite <- Hp1 by lia. exact Hcr.
      + rewrite Hp2 by lia. rewrite <- Hp1 by lia. exact Hlf.
    - exfalso. apply (Hn1 nl2); [lia|].
      destruct Hc2 as [Hcr Hlf]. split.
      + rewrite Hp1 by lia. rewrite <- Hp2 by lia. exact Hcr.
      + rewrite Hp1 by lia. rewrite <- Hp2 by lia. exact Hlf. }
  subst nl2.
  split; [lia|]. split; [lia|]. split; [reflexivity|].
  rewrite Hline1, Hline2.
  assert (Hin : forall hm, sound (buf hm) -> nl1 < buf_len (buf hm) ->
                           in_alloc (buf hm) nl1 = true).
  { intros hm [Ham Hlm] Hlt. unfold in_alloc, allocated in *.
    apply andb_true_iff. split; [apply Z.leb_le | apply Z.ltb_lt]; lia. }
  rewrite !c_string_line_taken
    by (try apply Hin; try apply (ext_sound _ _ _ _ He1);
        try apply (ext_sound _ _ _ _ He2); lia).
  f_equal.
  assert (Hcut : forall l : list ascii,
             firstn (Z.to_nat (nl1 - buf_idx (buf h)))
                    (skipn (Z.to_nat (buf_idx (buf h))) l) =
             skipn (Z.to_nat (buf_idx (buf h))) (firstn (Z.to_nat nl1) l)).
  { intros l.
    replace (Z.to_nat nl1)
      with (Z.to_nat (buf_idx (buf h)) + Z.to_nat (nl1 - buf_idx (buf h)))%nat by lia.
    apply firstn_skipn_comm. }
  rewrite !Hcut. f_equal.
  rewrite (extends_prefix P h hm1 got1 (rx_bytes (rx (rl_net r1))) _ He1 Hs) by lia.
  rewrite (extends_prefix P h hm2 got2 (rx_bytes (rx (rl_net r2))) _ He2 Hs) by lia.
  rewrite <- Hb1, <- Hb2, Hwire. reflexivity.
Qed.

(** C2 at one input.  The bytes [+abc CR def CR LF] arrive after a PING
    was sent from the shared buffer.  In one receive the line is
    [+abc CR def], of length 8, and the cursor moves to 10.  Split after
    the first CR, the scan of [cr_findnl] pairs that CR, the last byte
    received, with the LF that the command left at offset 5: the line is
    [+abc], of length 4, the cursor moves to 6. *)
Theorem cr_readln_depends_on_chunking :
  let pinged := rendered fresh_handle (txt "PING" ++ CRLF) in
  let wire := txt "+abc" ++ [CR] ++ txt "def" ++ CRLF in
  let first := txt "+abc" ++ [CR] in
  let second := txt "def" ++ CRLF in
  first ++ second = wire /\
  line_read (first_line quiet pinged (idle [RxData wire])) =
    (8, txt "+abc" ++ [CR] ++ txt "def", 10) /\
  line_read (first_line quiet pinged (idle [RxData first; RxData second])) =
    (4, txt "+abc", 6).
Proof. vm_compute. repeat split; reflexivity. Qed.

(** ** The buffer invariant during a decode *)

Lemma cr_readln_invariant (P : platform) (h : cr_redis) (n : net)
    (start line idx : Z) :
  allocated (buf h) -> buffer_invariant (buf h) -> 0 <= start ->
  let b' := buf (rl_h (cr_readln P h n start line idx)) in
  allocated b' /\ 0 <= buf_idx b' /\ buf_len b' <= buf_size b' /\
  buf_len (buf h) <= buf_len b' /\
  (buf_idx b' <= buf_len b' \/
   (buf_idx b' = buf_len b' + 1 /\ peek P b' (buf_len b') = LF)).
Proof.
  intros Ha (Hi0 & Hil & Hls) Hstart b'.
  assert (Hs : sound (buf h)) by (split; [exact Ha | lia]).
  destruct (cr_readln_cases P h n start line idx Hs ltac:(lia)) as [Hf|Hm].
  - destruct Hf as (nl & hm & got & He & _ & _ & _ & Hnl & Hc & _ & _ & _ & _ & Hh).
    destruct He as [[Ham Hlm] Hlen _ _ _ _ _].
    assert (Hin : in_alloc (buf hm) nl = true).
    { unfold in_alloc, allocated in *. apply andb_true_iff. split;
        [apply Z.leb_le | apply Z.ltb_lt]; lia. }
    subst b'. rewrite Hh. simpl.
    split; [unfold allocated in *; simpl; rewrite poke_length; exact Ham|].
    split; [lia|]. split; [lia|]. split; [lia|].
    destruct (Z.eq_dec (nl + 1) (buf_len (buf hm))) as [Heq|Hne]; [right|left; lia].
    split; [lia|].
    rewrite peek_line_taken by exact Hin.
    replace (buf_len (buf hm) =? nl) with false by (symmetry; apply Z.eqb_neq; lia).
    rewrite <- Heq. apply Hc.
  - destruct Hm as (_ & _ & (got & He) & _).
    destruct He as [[Ham Hlm] Hlen Hidx _ _ _ _].
    subst b'. split; [exact Ham|]. split; [lia|]. split; [lia|]. split; [lia|].
    left. lia.
Qed.



(** A line read that starts at or behind the cursor stores the string end
    inside the allocation. *)
Lemma cr_readln_stores_inside (P : platform) (fuel : nat) (h h1 : cr_redis)
    (n n1 : net) (start nl : Z) :
  sound (buf h) -> 0 <= buf_idx (buf h) + start ->
  cr_readln_loop P fuel h n start (more_needed (buf h) start)
    = Some (Found nl h1 n1) ->
  in_alloc (buf h1) nl = true.
Proof.
  intros Hs Hstart E.
  pose proof (cr_readln_loop_spec P fuel _ _ _ _ Hs E) as Hp. simpl in Hp.
  destruct Hp as (got & He & _ & _ & _ & _ & Hnl & _).
  destruct (ext_sound _ _ _ _ He) as [Ha Hl]. unfold allocated in Ha.
  unfold in_alloc. apply andb_true_iff.
  split; [apply Z.leb_le | apply Z.ltb_lt]; lia.
Qed.















(** A line read that starts in front of the cursor is outside the
    invariant.  The reply [$-160] makes [cr_receivebulk] call [cr_readln]
    with the start offset -160: the scan for the line end begins 153 bytes
    in front of the buffer, and where a CR and a LF lie there (the bytes of
    an [int] of value 2573, say) the line read ends on them and leaves the
    cursor at -151. *)
Lemma cursor_before_buffer :
  let P := crlf_in_front (-153) in
  let n := idle [RxData (txt "$-160" ++ CRLF)] in
  let r := cr_receivereply P fresh_handle n CR_BULK in
  fst (fst r) = CREDIS_ERR_PROTOCOL /\
  buf_idx (buf (decoded r)) = -151 /\
  forallb admissible (cr_receivereply_course P fresh_handle n CR_BULK) = false.
Proof. vm_compute. repeat split; reflexivity. Qed.

(** ** Numbers on the wire *)

Lemma to_int_range (z : Z) : INT_MIN <= to_int z <= INT_MAX.
Proof.
  unfold to_int, INT_MIN, INT_MAX.
  pose proof (Z.mod_pos_bound (z + 2 ^ 31) (2 ^ 32) ltac:(lia)). lia.
Qed.

Lemma to_int_small (z : Z) : INT_MIN <= z <= INT_MAX -> to_int (saturate_long z) = z.
Proof.
  unfold to_int, saturate_long, INT_MIN, INT_MAX, LONG_MIN, LONG_MAX. intros H.
  rewrite Z.min_r by lia. rewrite Z.max_r by lia.
  rewrite Z.mod_small by lia. lia.
Qed.

Lemma atoi_range (l : list ascii) : INT_MIN <= atoi l <= INT_MAX.
Proof.
  unfold atoi, scan_int.
  destruct (match skip_space l with
            | [] => (false, skip_space l)
            | c :: r => _
            end) as [neg l2].
  destruct (starts_with_digit l2).
  - destruct (digits 0 l2) as [v rest]. apply to_int_range.
  - unfold INT_MIN, INT_MAX. lia.
Qed.

Lemma digits_all (ds : list ascii) :
  forall acc, forallb isdigit ds = true ->
    digits acc ds = (fold_left (fun a c => a * 10 + digit_value c) ds acc, []).
Proof.
  induction ds as [|c ds IH]; intros acc H; simpl in *; [reflexivity|].
  apply andb_true_iff in H. destruct H as [Hc Hds].
  rewrite Hc. apply IH. exact Hds.
Qed.

Lemma all_digits_head (ds : list ascii) :
  all_digits ds = true -> starts_with_digit ds = true /\ forallb isdigit ds = true.
Proof.
  destruct ds as [|c ds]; simpl; [discriminate|].
  intros H. split; [|exact H]. apply andb_true_iff in H. tauto.
Qed.

Lemma isdigit_not_space (c : ascii) : isdigit c = true -> isspace c = false.
Proof.
  unfold isdigit, isspace. intros H. apply andb_true_iff in H.
  destruct H as [H1 H2]. apply Z.leb_le in H1, H2.
  apply orb_false_iff. split.
  - apply Z.eqb_neq. lia.
  - apply andb_false_iff. right. apply Z.leb_gt. lia.
Qed.

Lemma isdigit_not_sign (c : ascii) :
  isdigit c = true -> Ascii.eqb c "-" = false /\ Ascii.eqb c "+" = false.
Proof.
  intros H. split.
  - destruct (Ascii.eqb c "-") eqn:E; [|reflexivity].
    apply Ascii.eqb_eq in E. subst c. discriminate H.
  - destruct (Ascii.eqb c "+") eqn:E; [|reflexivity].
    apply Ascii.eqb_eq in E. subst c. discriminate H.
Qed.

Lemma atoi_base10 (text : list ascii) (v : Z) :
  base10_value text = Some v -> INT_MIN <= v <= INT_MAX -> atoi text = v.
Proof.
  unfold base10_value. destruct text as [|c ds]; [discriminate|].
  destruct (Ascii.eqb c "-") eqn:Eminus.
  - destruct (all_digits ds) eqn:Ed; [|discriminate].
    intros H Hr; inversion H; subst; clear H.
    apply Ascii.eqb_eq in Eminus. subst c.
    destruct (all_digits_head _ Ed) as [Hh Ha].
    unfold atoi, scan_int. simpl skip_space.
    change (isspace "-") with false. cbv iota.
    change (Ascii.eqb "-" "-") with true. cbv iota.
    rewrite Hh. rewrite (digits_all _ 0 Ha).
    apply to_int_small. exact Hr.
  - destruct (all_digits (c :: ds)) eqn:Ed; [|discriminate].
    intros H Hr; inversion H; subst; clear H.
    destruct (all_digits_head _ Ed) as [Hh Ha].
    assert (Hc : isdigit c = true) by exact Hh.
    unfold atoi, scan_int. simpl skip_space.
    rewrite (isdigit_not_space _ Hc). rewrite Eminus.
    assert (Eplus : Ascii.eqb c "+" = false).
    { destruct (Ascii.eqb c "+") eqn:E; [|reflexivity].
      apply Ascii.eqb_eq in E. subst c. discriminate Hc. }
    rewrite Eplus. rewrite Hh. rewrite (digits_all _ 0 Ha).
    apply to_int_small. exact Hr.
Qed.

Lemma atoi_not_a_number (text : list ascii) :
  leading_number text = false -> atoi text = 0.
Proof.
  unfold leading_number, atoi, scan_int.
  destruct (skip_space text) as [|c r]; simpl; [reflexivity|].
  destruct (Ascii.eqb c "-"); simpl.
  - intros H. rewrite H. reflexivity.
  - destruct (Ascii.eqb c "+"); simpl.
    + intros H. rewrite H. reflexivity.
    + intros H. rewrite H. reflexivity.
Qed.

Lemma digits_of_uint (d : Decimal.uint) :
  forall acc rest,
    0 <= acc -> starts_with_digit rest = false ->
    digits acc (list_ascii_of_string (NilEmpty.string_of_uint d) ++ rest) =
    (Z.of_nat (Nat.of_uint_acc d (Z.to_nat acc)), rest).
Proof.
  induction d as [|d IH|d IH|d IH|d IH|d IH|d IH|d IH|d IH|d IH|d IH];
    intros acc rest Hacc Hrest;
    [ simpl; destruct rest as [|c r];
      [ simpl; f_equal; lia
      | simpl in Hrest |- *; rewrite Hrest; f_equal; lia ]
    | .. ];
    simpl list_ascii_of_string; simpl app; simpl Nat.of_uint_acc;
    unfold digits; fold digits;
    match goal with
    | |- context [isdigit ?c] =>
        change (isdigit c) with true;
        let v := eval vm_compute in (digit_value c) in
        change (digit_value c) with v
    end;
    cbv iota; rewrite IH by (auto; lia);
    do 3 f_equal; rewrite Nat.tail_mul_spec; lia.
Qed.

Lemma digits_decimal (n : nat) (rest : list ascii) :
  starts_with_digit rest = false ->
  digits 0 (decimal n ++ rest) = (Z.of_nat n, rest).
Proof.
  intros Hrest. unfold decimal, NilZero.string_of_uint.
  pose proof (Unsigned.of_to n) as Hn. unfold Nat.of_uint in Hn.
  destruct (Nat.to_uint n) eqn:E;
    try (rewrite digits_of_uint by (auto; lia);
         change (Z.to_nat 0) with O; rewrite Hn; reflexivity).
  simpl in Hn. subst n. simpl.
  change (isdigit "0") with true. cbv iota.
  destruct rest as [|c r]; simpl; [reflexivity|].
  simpl in Hrest. rewrite Hrest. reflexivity.
Qed.

Lemma decimal_cons (n : nat) :
  exists c l, decimal n = c :: l /\ isdigit c = true.
Proof.
  unfold decimal, NilZero.string_of_uint.
  destruct (Nat.to_uint n); simpl; eexists; eexists; split; reflexivity.
Qed.

Lemma scan_int_decimal (n : nat) (rest : list ascii) :
  starts_with_digit rest = false -> Z.of_nat n <= INT_MAX ->
  scan_int (decimal n ++ rest) = Some (Z.of_nat n, rest).
Proof.
  intros Hrest Hmax.
  pose proof (digits_decimal n rest Hrest) as Hd.
  destruct (decimal_cons n) as (c & l & Hc & Hdig).
  rewrite Hc in Hd |- *. simpl app in Hd |- *.
  destruct (isdigit_not_sign c Hdig) as [Hm Hp].
  unfold scan_int. simpl skip_space.
  rewrite (isdigit_not_space c Hdig), Hm, Hp.
  simpl starts_with_digit. rewrite Hdig, Hd.
  rewrite to_int_small by (unfold INT_MIN, INT_MAX in *; lia).
  reflexivity.
Qed.

(** ** The reply decoder *)

Lemma multibulk_loop_return (P : platform) (k : nat) :
  forall h n i bnum line idx rc h' n',
    multibulk_loop P k h n i bnum line idx = MbReturn rc h' n' ->
    rc = CREDIS_ERR_PROTOCOL.
Proof.
  induction k as [|k IH]; simpl; intros h n i bnum line idx rc h' n' H.
  - discriminate.
  - destruct (0 <? rl_rc _); [|discriminate].
    destruct (negb (Ascii.eqb _ CR_BULK)); [inversion H; reflexivity|].
    destruct (atoi _ =? -1); [eapply IH; eassumption|].
    destruct (negb (rl_rc _ =? _)); [inversion H; reflexivity|].
    eapply IH; eassumption.
Qed.

Lemma cr_receivemultibulk_codes (P : platform) (h : cr_redis) (n : net) (line : Z) :
  decoder_code (fst (fst (cr_receivemultibulk P h n line))).
Proof.
  unfold cr_receivemultibulk, decoder_code.
  destruct (atoi _ =? -1); simpl; auto.
  destruct (if mb_size _ <? _ then _ else _); simpl; auto.
  destruct (multibulk_loop _ _ _ _ _ _ _ _) eqn:E; simpl.
  - apply multibulk_loop_return in E. auto.
  - destruct (negb (bnum =? 0)); simpl; auto.
Qed.

Lemma cr_receivebulk_codes (P : platform) (h : cr_redis) (n : net) (line : Z) :
  decoder_code (fst (fst (cr_receivebulk P h n line))).
Proof.
  unfold cr_receivebulk, decoder_code.
  destruct (atoi _ =? -1); simpl; auto.
  destruct (0 <=? rl_rc _); simpl; auto.
Qed.

Lemma cr_receivereply_codes (P : platform) (h : cr_redis) (n : net) (t : ascii) :
  decoder_code (fst (fst (cr_receivereply P h n t))).
Proof.
  unfold cr_receivereply.
  destruct (0 <? rl_rc _); [|unfold decoder_code; simpl; auto].
  destruct (negb _ && negb _); [unfold decoder_code; simpl; auto|].
  destruct (Ascii.eqb _ CR_ERROR); [unfold decoder_code; simpl; auto|].
  destruct (Ascii.eqb _ CR_INLINE); [unfold decoder_code; simpl; auto|].
  destruct (Ascii.eqb _ CR_INT); [unfold decoder_code; simpl; auto|].
  destruct (Ascii.eqb _ CR_BULK); [apply cr_receivebulk_codes|].
  destruct (Ascii.eqb _ CR_MULTIBULK); [apply cr_receivemultibulk_codes|].
  unfold decoder_code; simpl; auto.
Qed.

Lemma cr_receivereply_first_line (P : platform) (h : cr_redis) (n : net)
    (t c : ascii) (rest : list ascii) :
  allocated (buf h) -> 0 <= buf_size (buf h) ->
  rx_bytes (rx n) = c :: rest ->
  0 < rl_rc (first_line P h n) ->
  let r := first_line P h n in
  peek P (buf (rl_h r)) (rl_line r) = c /\
  rl_line r + 1 = 1 /\
  c_string (buf (rl_h r)) 1 =
    c_string_of (firstn (Z.to_nat (rl_rc r - 1)) rest) /\
  reply (rl_h r) = reply h.
Proof.
  intros Ha Hsz Hrx Hpos r.
  destruct (first_line_found P h n Ha Hsz Hpos)
    as (Hline & _ & Hrep & _ & _ & _ & _ & _ & _ & Hpeek & Hstr).
  fold r in Hline, Hpeek, Hstr, Hrep.
  rewrite Hline. split; [|split; [reflexivity|split; [|exact Hrep]]].
  - rewrite Hpeek by (fold r in Hpos; lia). rewrite Hrx. reflexivity.
  - rewrite Hstr by (fold r in Hpos; lia). rewrite Hrx. reflexivity.
Qed.



(** ** Error replies *)

(** C5, as amended.  For a reply whose first byte is the error prefix and
    of which a line was read, [cr_receivereply] returns
    CREDIS_ERR_PROTOCOL and [credis_errorreply] afterwards points at the
    text that followed the prefix on the wire, up to the line end (or to a
    NUL inside the text).  A reply whose first byte is neither the
    expected prefix nor the error prefix gets the same code and leaves
    [reply.line] as it was: [credis_errorreply] then returns what an
    earlier reply left there. *)
Theorem error_reply_code_and_text (P : platform) (h : cr_redis) (n : net)
    (t c : ascii) (rest : list ascii) :
  allocated (buf h) -> 0 <= buf_size (buf h) -> modest h n ->
  rx_bytes (rx n) = c :: rest ->
  0 < rl_rc (first_line P h n) ->
  let r := cr_receivereply P h n t in
  (c = CR_ERROR ->
   fst (fst r) = CREDIS_ERR_PROTOCOL /\
   credis_errorreply (decoded r) = Some 1 /\
   view_string (decoded r) (credis_errorreply (decoded r)) =
     Some (c_string_of
             (firstn (Z.to_nat (rl_rc (first_line P h n) - 1)) rest))) /\
  (c <> CR_ERROR -> c <> t ->
   fst (fst r) = CREDIS_ERR_PROTOCOL /\
   credis_errorreply (decoded r) = credis_errorreply h).
Proof.
  intros Ha Hsz _ Hrx Hpos r.
  destruct (cr_receivereply_first_line P h n t c rest Ha Hsz Hrx Hpos)
    as (Hpeek & Hl1 & Hstr & _).
  subst r. unfold cr_receivereply.
  change (cr_readln P (set_buf h (reset_buffer (buf h))) n 0 (junk_int P) (junk_int P))
    with (first_line P h n).
  replace (0 <? rl_rc (first_line P h n)) with true
    by (symmetry; apply Z.ltb_lt; exact Hpos).
  rewrite Hpeek. split.
  - intros ->. change (Ascii.eqb CR_ERROR CR_ERROR) with true.
    rewrite andb_false_r. cbv iota. unfold cr_receiveerror, decoded, view_string.
    simpl. rewrite Hl1. split; [reflexivity|]. split; [reflexivity|].
    simpl. f_equal. exact Hstr.
  - intros He Ht.
    replace (Ascii.eqb c t) with false by (symmetry; apply Ascii.eqb_neq; exact Ht).
    replace (Ascii.eqb c CR_ERROR) with false
      by (symmetry; apply Ascii.eqb_neq; exact He).
    split; [reflexivity|].
    unfold decoded, credis_errorreply, first_line. simpl.
    rewrite cr_readln_reply. reflexivity.
Qed.

Lemma error_reply_code_and_text_witness :
  let r := decode [RxData (txt "-ERR unknown command" ++ CRLF)] CR_INT in
  fst (fst r) = CREDIS_ERR_PROTOCOL /\
  view_string (decoded r) (credis_errorreply (decoded r)) =
    Some (txt "ERR unknown command").
Proof.
  intros r.
  destruct (error_reply_code_and_text quiet fresh_handle
              (idle [RxData (txt "-ERR unknown command" ++ CRLF)]) CR_INT
              CR_ERROR (txt "ERR unknown command" ++ CRLF)
              ltac:(vm_compute; reflexivity) ltac:(vm_compute; discriminate)
              ltac:(split; vm_compute; discriminate)
              eq_refl ltac:(vm_compute; reflexivity)) as [He _].
  destruct (He eq_refl) as (Hc & _ & Ht).
  split; [exact Hc|]. unfold r, decode. rewrite Ht. vm_compute. reflexivity.
Defined.

(** C5, as stated, fails: the error reply [-ERR unknown command] makes the
    decoder return CREDIS_ERR_PROTOCOL, the very code it returns for a
    reply with the unknown prefix [!]. *)
Lemma error_reply_is_protocol_error :
  fst (fst (decode [RxData (txt "-ERR unknown command" ++ CRLF)] CR_INLINE))
    = CREDIS_ERR_PROTOCOL /\
  fst (fst (decode [RxData (txt "!what" ++ CRLF)] CR_INLINE))
    = CREDIS_ERR_PROTOCOL.
Proof. split; vm_compute; reflexivity. Qed.

(** Once an earlier reply has set [reply.line], the text does not tell the
    two failures apart either.  After a PING was answered, the replies
    [-what] and [!what] to the next PING both give CREDIS_ERR_PROTOCOL,
    and [credis_errorreply] reads [what] after each: set by the error
    reply, left over from the answer to the first PING by the other. *)
Lemma wrong_prefix_reads_as_error :
  let served := decoded (credis_ping quiet fresh_handle
                           (idle [RxData (txt "+PONG" ++ CRLF)])) in
  let seen events :=
    let r := credis_ping quiet served (idle events) in
    (fst (fst r), view_string (decoded r) (credis_errorreply (decoded r))) in
  seen [RxData (txt "-what" ++ CRLF)] = (CREDIS_ERR_PROTOCOL, Some (txt "what")) /\
  seen [RxData (txt "!what" ++ CRLF)] = (CREDIS_ERR_PROTOCOL, Some (txt "what")).
Proof. vm_compute. split; reflexivity. Qed.

(** ** Integer replies *)

(** C9, as amended.  For an integer reply of which a line was read,
    [cr_receivereply] returns 0 and stores [atoi] of the text after the
    prefix in the [int] field [reply.integer]: the value of the text when
    the text is a decimal numeral whose value lies in the range of [int],
    0 when the text does not begin with a number, and in every case a
    value in the range of [int]. *)
Theorem integer_reply_value (P : platform) (h : cr_redis) (n : net)
    (rest : list ascii) :
  allocated (buf h) -> 0 <= buf_size (buf h) ->
  rx_bytes (rx n) = CR_INT :: rest ->
  0 < rl_rc (first_line P h n) ->
  let text := c_string_of (firstn (Z.to_nat (rl_rc (first_line P h n) - 1)) rest) in
  let r := cr_receivereply P h n CR_INT in
  fst (fst r) = 0 /\
  reply_integer (reply (decoded r)) = atoi text /\
  (forall v, base10_value text = Some v -> INT_MIN <= v <= INT_MAX ->
             reply_integer (reply (decoded r)) = v) /\
  (leading_number text = false -> reply_integer (reply (decoded r)) = 0) /\
  INT_MIN <= reply_integer (reply (decoded r)) <= INT_MAX.
Proof.
  intros Ha Hsz Hrx Hpos text r.
  destruct (cr_receivereply_first_line P h n CR_INT CR_INT rest Ha Hsz Hrx Hpos)
    as (Hpeek & Hl1 & Hstr & _).
  assert (Hr : fst (fst r) = 0 /\ reply_integer (reply (decoded r)) = atoi text).
  { subst r. unfold cr_receivereply.
    change (cr_readln P (set_buf h (reset_buffer (buf h))) n 0 (junk_int P) (junk_int P))
      with (first_line P h n).
    replace (0 <? rl_rc (first_line P h n)) with true
      by (symmetry; apply Z.ltb_lt; exact Hpos).
    rewrite Hpeek.
    change (Ascii.eqb CR_INT CR_INT) with true.
    change (Ascii.eqb CR_INT CR_ERROR) with false.
    change (Ascii.eqb CR_INT CR_INLINE) with false.
    cbv iota. simpl negb. cbv iota.
    unfold cr_receiveint, decoded. simpl. rewrite Hl1, Hstr. auto. }
  destruct Hr as [Hrc Hint].
  split; [exact Hrc|]. split; [exact Hint|]. rewrite Hint.
  split; [|split].
  - intros v Hv Hrange. apply atoi_base10; assumption.
  - apply atoi_not_a_number.
  - apply atoi_range.
Qed.

Lemma integer_reply_value_witness :
  reply_integer (reply (decoded (decode [RxData (txt ":-42" ++ CRLF)] CR_INT))) = -42.
Proof.
  destruct (integer_reply_value quiet fresh_handle
              (idle [RxData (txt ":-42" ++ CRLF)]) (txt "-42" ++ CRLF)
              ltac:(vm_compute; reflexivity) ltac:(vm_compute; discriminate)
              eq_refl ltac:(vm_compute; reflexivity)) as (_ & _ & Hv & _).
  apply Hv.
  - vm_compute. reflexivity.
  - vm_compute. split; discriminate.
Defined.

(** C9, as stated, fails: the reply [:2147483648] carries 2^31, which an
    i64 holds; the field is an [int], and after the decode it holds
    -2147483648. *)
Lemma integer_reply_overflows_int :
  let r := decode [RxData (txt ":2147483648" ++ CRLF)] CR_INT in
  fst (fst r) = 0 /\
  base10_value (txt "2147483648") = Some 2147483648 /\
  reply_integer (reply (decoded r)) = -2147483648 /\
  reply_integer (reply (decoded r)) <> 2147483648.
Proof. vm_compute. repeat split; try reflexivity. discriminate. Qed.

(** ** Bulk replies *)

(** C1 at two inputs.  The reply [$3 CRLF foobar CRLF] declares three
    payload bytes and carries a payload line of six: [cr_readln] returns 6,
    and [cr_receivebulk] returns 0 with the six bytes as the bulk value.
    The reply [$5 CRLF ab] followed by the peer closing is cut short:
    [cr_readln] returns 0, and [cr_receivebulk] returns 0 with the bulk
    pointer left on the text of the length field.  In both the returned
    length differs from the declared one and no CREDIS_ERR_PROTOCOL is
    returned; the element path of [cr_receivemultibulk] rejects the first
    of these payload lines. *)
Theorem cr_receivebulk_accepts_wrong_length :
  let long := decode [RxData (txt "$3" ++ CRLF ++ txt "foobar" ++ CRLF)] CR_BULK in
  let cut := decode [RxData (txt "$5" ++ CRLF ++ txt "ab"); RxClosed] CR_BULK in
  let element :=
    decode [RxData (txt "*1" ++ CRLF ++ txt "$3" ++ CRLF ++ txt "foobar" ++ CRLF)]
           CR_MULTIBULK in
  (fst (fst long) = 0 /\ bulk_value long = Some (txt "foobar")) /\
  (fst (fst cut) = 0 /\ bulk_value cut = Some (txt "5")) /\
  fst (fst element) = CREDIS_ERR_PROTOCOL.
Proof. vm_compute. repeat split; reflexivity. Qed.

(** ** Multibulk replies *)

Lemma multibulk_loop_count (P : platform) (k : nat) :
  forall h n i bnum line idx i' bnum' h' n',
    multibulk_loop P k h n i bnum line idx = MbDone i' bnum' h' n' ->
    i' + bnum' = i + bnum /\ i <= i' /\
    mb_len (reply_multibulk (reply h')) = mb_len (reply_multibulk (reply h)).
Proof.
  induction k as [|k IH]; intros h n i bnum line idx i' bnum' h' n' H;
    simpl in H.
  - inversion H; subst. split; [reflexivity|]. split; [lia|reflexivity].
  - set (r := cr_readln P h n 0 line idx) in *.
    assert (Hr : reply (rl_h r) = reply h) by apply cr_readln_reply.
    destruct (0 <? rl_rc r).
    + destruct (negb (Ascii.eqb _ CR_BULK)); [discriminate|].
      destruct (atoi _ =? -1).
      * apply IH in H. simpl in H. rewrite Hr in H.
        destruct H as (H1 & H2 & H3).
        split; [lia|]. split; [lia|exact H3].
      * set (r2 := cr_readln P (rl_h r) (rl_net r) _ _ idx) in *.
        assert (Hr2 : reply (rl_h r2) = reply (rl_h r)) by apply cr_readln_reply.
        destruct (negb (rl_rc r2 =? _)); [discriminate|].
        apply IH in H. simpl in H. rewrite Hr2, Hr in H.
        destruct H as (H1 & H2 & H3).
        split; [lia|]. split; [lia|exact H3].
    + inversion H; subst. rewrite Hr.
      split; [reflexivity|]. split; [lia|reflexivity].
Qed.

(** A multibulk decode that returns 0 announces -1 and has no element, or
    announces [bnum >= 0] and has exactly [bnum] elements. *)
Lemma cr_receivemultibulk_success (P : platform) (h : cr_redis) (n : net)
    (line : Z) (h' : cr_redis) (n' : net) :
  cr_receivemultibulk P h n line = (0, h', n') ->
  let bnum := atoi (c_string (buf h) line) in
  (bnum = -1 /\ mb_len (reply_multibulk (reply h')) = 0 /\ n' = n) \/
  (0 <= bnum /\ mb_len (reply_multibulk (reply h')) = bnum).
Proof.
  intros H bnum. unfold cr_receivemultibulk in H. fold bnum in H.
  destruct (bnum =? -1) eqn:E1.
  - apply Z.eqb_eq in E1. inversion H; subst. left. auto.
  - right.
    destruct (if mb_size _ <? bnum then _ else _) as [mb1|]; [|discriminate].
    destruct (multibulk_loop _ _ _ _ _ _ _ _) as [rc h1 n1 | i bnum1 h1 n1] eqn:El.
    + apply multibulk_loop_return in El. inversion H; subst. discriminate.
    + destruct (negb (bnum1 =? 0)) eqn:E0; [discriminate|].
      apply negb_false_iff, Z.eqb_eq in E0. subst bnum1.
      inversion H; subst; clear H. simpl.
      apply multibulk_loop_count in El. destruct El as (Hc & Hk & _).
      split; lia.
Qed.

(** C3 at one input.  The reply [*1 CRLF $0 CRLF] announces one element of
    length 0 and the peer closes before the payload line of that element
    arrives.  The second [cr_readln] returns 0 for the closed connection,
    which equals the declared length, so [cr_receivemultibulk] returns 0
    with one element instead of CREDIS_ERR_PROTOCOL.  A complete reply of
    two elements is shown next to it. *)
Theorem cr_receivemultibulk_accepts_closed_stream :
  let cut := decode [RxData (txt "*1" ++ CRLF ++ txt "$0" ++ CRLF); RxClosed]
                    CR_MULTIBULK in
  let whole :=
    decode [RxData (txt "*2" ++ CRLF ++ txt "$3" ++ CRLF ++ txt "foo" ++ CRLF
                        ++ txt "$-1" ++ CRLF)] CR_MULTIBULK in
  (fst (fst cut) = 0 /\ mb_len (reply_multibulk (reply (decoded cut))) = 1 /\
   rx (snd cut) = []) /\
  (fst (fst whole) = 0 /\ multibulk_values whole = [Some (txt "foo"); None]).
Proof. vm_compute. repeat split; reflexivity. Qed.

(** ** The send path *)

Lemma cr_senddata_loop_prefix (rooms : list nat) :
  forall s out bytes sent size,
    times_out s = true ->
    0 <= sent ->
    sent + Z.of_nat (list_sum rooms) < size ->
    size <= Z.of_nat (length bytes) ->
    cr_senddata_loop (map TxSend rooms ++ s) out bytes sent size =
    (sent + Z.of_nat (list_sum rooms), tl s,
     out ++ firstn (list_sum rooms) (skipn (Z.to_nat sent) bytes)).
Proof.
  induction rooms as [|room rooms IH]; intros s out bytes sent size Ht H0 Hlt Hsz.
  - simpl in *. destruct s as [|e s].
    + simpl. replace (sent <? size) with true by (symmetry; apply Z.ltb_lt; lia).
      rewrite Z.add_0_r, app_nil_r. reflexivity.
    + destruct e; try discriminate. simpl.
      replace (sent <? size) with true by (symmetry; apply Z.ltb_lt; lia).
      rewrite Z.add_0_r, app_nil_r. reflexivity.
  - simpl list_sum in *. simpl map. simpl app.
    simpl cr_senddata_loop.
    replace (sent <? size) with true by (symmetry; apply Z.ltb_lt; lia).
    assert (Hmin : Nat.min room (Z.to_nat (size - sent)) = room) by lia.
    rewrite Hmin.
    assert (Hlen : length (firstn room (skipn (Z.to_nat sent) bytes)) = room).
    { rewrite length_firstn, length_skipn. lia. }
    rewrite Hlen.
    rewrite IH by (auto; lia).
    f_equal; [f_equal; lia|].
    rewrite <- app_assoc. f_equal.
    replace (Z.to_nat (sent + Z.of_nat room)) with (room + Z.to_nat sent)%nat by lia.
    rewrite <- skipn_skipn.
    rewrite <- (firstn_skipn room (skipn (Z.to_nat sent) bytes)) at 3.
    rewrite firstn_app, Hlen.
    rewrite firstn_firstn.
    replace (Nat.min (room + list_sum rooms) room) with room by lia.
    replace (room + list_sum rooms - room)%nat with (list_sum rooms) by lia.
    reflexivity.
Qed.

Lemma cr_senddata_loop_code (script : list tx_event) :
  forall out bytes sent size,
    0 <= sent ->
    let rc := fst (fst (cr_senddata_loop script out bytes sent size)) in
    rc = -1 \/ sent <= rc.
Proof.
  induction script as [|e script IH]; intros out bytes sent size H0; simpl.
  - destruct (sent <? size); simpl; right; lia.
  - destruct (sent <? size); [|simpl; right; lia].
    destruct e; simpl; auto; try (right; lia).
    specialize (IH (out ++ firstn (Nat.min room (Z.to_nat (size - sent)))
                                  (skipn (Z.to_nat sent) bytes))
                   bytes
                   (sent + Z.of_nat (length (firstn (Nat.min room (Z.to_nat (size - sent)))
                                                    (skipn (Z.to_nat sent) bytes))))
                   size ltac:(lia)).
    simpl in IH. destruct IH as [IH|IH]; [left; exact IH|right; lia].
Qed.

Lemma cr_senddata_code (h : cr_redis) (n : net) :
  send_code h n = -1 \/ 0 <= send_code h n.
Proof.
  unfold send_code, cr_senddata.
  pose proof (cr_senddata_loop_code (tx n) (wire_out n) (buf_data (buf h)) 0
                                    (buf_len (buf h)) ltac:(lia)) as H.
  simpl in H.
  destruct (cr_senddata_loop _ _ _ _ _) as [[rc s] out]. simpl in *. exact H.
Qed.

Lemma cr_sendandreceive_send_error (P : platform) (h : cr_redis) (n : net) (t : ascii) :
  0 <= buf_len (buf h) ->
  (fst (fst (cr_sendandreceive P h n t)) = CREDIS_ERR_SEND <-> send_code h n < 0).
Proof.
  intros Hlen. unfold cr_sendandreceive, send_code.
  destruct (cr_senddata _ _ _ _) as [rc n1] eqn:E. simpl.
  destruct (negb (rc =? buf_len (buf h))) eqn:Ene.
  - destruct (rc <? 0) eqn:Elt; simpl.
    + apply Z.ltb_lt in Elt. split; auto.
    + apply Z.ltb_ge in Elt. unfold CREDIS_ERR_TIMEOUT, CREDIS_ERR_SEND.
      split; intros; [discriminate|lia].
  - apply negb_false_iff, Z.eqb_eq in Ene.
    pose proof (cr_receivereply_codes P h n1 t) as Hc.
    unfold decoder_code, CREDIS_ERR_PROTOCOL, CREDIS_ERR_RECV, CREDIS_ERR_NOMEM,
      CREDIS_ERR_SEND in *.
    split; intros H; [rewrite H in Hc; lia | lia].
Qed.

(** C8.  When the socket accepts some of the command, less than all of it
    (possibly nothing), and then stays unwritable until the timeout,
    [cr_senddata] returns the number of bytes accepted, which is less than
    the command length, and [cr_sendandreceive] returns CREDIS_ERR_TIMEOUT.
    On any socket, CREDIS_ERR_SEND is returned exactly when [cr_senddata]
    returned a negative value. *)
Theorem send_timeout_reports_timeout (P : platform) (h : cr_redis) (n : net)
    (recvtype : ascii) (rooms : list nat) (s : list tx_event) :
  tx n = map TxSend rooms ++ s ->
  times_out s = true ->
  Z.of_nat (list_sum rooms) < buf_len (buf h) ->
  buf_len (buf h) <= Z.of_nat (length (buf_data (buf h))) ->
  send_code h n = Z.of_nat (list_sum rooms) /\
  0 <= send_code h n < buf_len (buf h) /\
  (exists n1,
     cr_senddata n (timeout h) (buf_data (buf h)) (buf_len (buf h)) =
       (send_code h n, n1) /\
     wire_out n1 = wire_out n ++ firstn (list_sum rooms) (buf_data (buf h)) /\
     cr_sendandreceive P h n recvtype = (CREDIS_ERR_TIMEOUT, h, n1)) /\
  CREDIS_ERR_TIMEOUT <> CREDIS_ERR_SEND /\
  (forall n' t',
     fst (fst (cr_sendandreceive P h n' t')) = CREDIS_ERR_SEND <->
     send_code h n' < 0).
Proof.
  intros Htx Hto Hlt Hsz.
  assert (Hloop := cr_senddata_loop_prefix rooms s (wire_out n) (buf_data (buf h))
                     0 (buf_len (buf h)) Hto ltac:(lia) ltac:(lia) Hsz).
  assert (Hsend : cr_senddata n (timeout h) (buf_data (buf h)) (buf_len (buf h)) =
                  (Z.of_nat (list_sum rooms),
                   mk_net (rx n) (tl s)
                          (wire_out n ++ firstn (list_sum rooms) (buf_data (buf h))))).
  { unfold cr_senddata. rewrite Htx, Hloop. reflexivity. }
  assert (Hcode : send_code h n = Z.of_nat (list_sum rooms)).
  { unfold send_code. rewrite Hsend. reflexivity. }
  split; [exact Hcode|]. split; [lia|]. split.
  - eexists. rewrite Hcode. split; [exact Hsend|]. split; [reflexivity|].
    unfold cr_sendandreceive. rewrite Hsend.
    replace (Z.of_nat (list_sum rooms) =? buf_len (buf h)) with false
      by (symmetry; apply Z.eqb_neq; lia).
    replace (Z.of_nat (list_sum rooms) <? 0) with false
      by (symmetry; apply Z.ltb_ge; lia).
    reflexivity.
  - split; [discriminate|].
    intros n' t'. apply cr_sendandreceive_send_error. lia.
Qed.

Lemma send_timeout_reports_timeout_witness :
  let h := rendered fresh_handle (txt "PING" ++ CRLF) in
  let n := mk_net [] [TxSend 2; TxSend 1; TxTimeout; TxSend 8] [] in
  send_code h n = 3 /\
  fst (fst (cr_sendandreceive quiet h n CR_INLINE)) = CREDIS_ERR_TIMEOUT.
Proof.
  intros h n.
  destruct (send_timeout_reports_timeout quiet h n CR_INLINE [2; 1]%nat
              [TxTimeout; TxSend 8] eq_refl eq_refl
              ltac:(vm_compute; reflexivity) ltac:(vm_compute; discriminate))
    as (Hc & _ & (n1 & _ & _ & Hr) & _).
  split; [exact Hc | rewrite Hr; reflexivity].
Defined.

(** ** The set commands *)

Lemma cr_receivereply_int_ok (P : platform) (h : cr_redis) (n : net)
    (h1 : cr_redis) (n1 : net) :
  cr_receivereply P h n CR_INT = (0, h1, n1) ->
  exists line,
    peek P (buf h1) line = CR_INT /\
    reply_integer (reply h1) = atoi (c_string (buf h1) (line + 1)).
Proof.
  unfold cr_receivereply.
  set (r := cr_readln P _ n 0 _ _).
  destruct (0 <? rl_rc r); [|discriminate].
  destruct (Ascii.eqb (peek P (buf (rl_h r)) (rl_line r)) CR_ERROR) eqn:Eerr.
  - rewrite andb_false_r. simpl. discriminate.
  - destruct (Ascii.eqb (peek P (buf (rl_h r)) (rl_line r)) CR_INT) eqn:Eint.
    + simpl. apply Ascii.eqb_eq in Eint. rewrite Eint.
      change (Ascii.eqb CR_INT CR_INLINE) with false.
      change (Ascii.eqb CR_INT CR_INT) with true.
      cbv iota. unfold cr_receiveint. intros H; inversion H; subst; clear H.
      exists (rl_line r). simpl. split; [exact Eint | reflexivity].
    + simpl. discriminate.
Qed.

Lemma cr_sendfandreceive_ok (P : platform) (h : cr_redis) (n : net)
    (t : ascii) (text : list ascii) (h1 : cr_redis) (n1 : net) :
  cr_sendfandreceive P h n t text = (0, h1, n1) ->
  exists h0 n0,
    render P h text = Some h0 /\
    cr_senddata n (timeout h0) (buf_data (buf h0)) (buf_len (buf h0)) =
      (buf_len (buf h0), n0) /\
    cr_receivereply P h0 n0 t = (0, h1, n1).
Proof.
  unfold cr_sendfandreceive.
  destruct (render P h text) as [h0|]; [|discriminate].
  unfold cr_sendandreceive.
  destruct (cr_senddata _ _ _ _) as [rc n0] eqn:Es.
  destruct (negb (rc =? buf_len (buf h0))) eqn:E.
  - destruct (rc <? 0); discriminate.
  - apply negb_false_iff, Z.eqb_eq in E. subst rc.
    intros H. exists h0, n0. repeat split; auto.
Qed.

(** C10.  When the round trip of SADD, or of ZADD, succeeds, the function
    returns -1 exactly when the decoded integer is 0 and returns 0 when it
    is not.  A round trip that succeeds is one in which the command was
    sent in full and a reply with the integer prefix was decoded; the
    integer is [atoi] of the reply text. *)
Theorem credis_sadd_zadd_return (P : platform) (double : Type)
    (printf_f : double -> list ascii) (h : cr_redis) (n : net)
    (key member : list ascii) (score : double) :
  (forall h1 n1,
     cr_sendfandreceive P h n CR_INT (sadd_text key member) = (0, h1, n1) ->
     credis_sadd P h n key member =
       (if reply_integer (reply h1) =? 0 then -1 else 0, h1, n1) /\
     (fst (fst (credis_sadd P h n key member)) = -1 <->
      reply_integer (reply h1) = 0) /\
     (reply_integer (reply h1) <> 0 ->
      fst (fst (credis_sadd P h n key member)) = 0) /\
     (exists h0, render P h (sadd_text key member) = Some h0 /\
                 send_code h0 n = buf_len (buf h0)) /\
     exists line, peek P (buf h1) line = CR_INT /\
       reply_integer (reply h1) = atoi (c_string (buf h1) (line + 1))) /\
  (forall h1 n1,
     cr_sendfandreceive P h n CR_INT (zadd_text (printf_f score) key member)
       = (0, h1, n1) ->
     credis_zadd P double printf_f h n key score member =
       (if reply_integer (reply h1) =? 0 then -1 else 0, h1, n1) /\
     (fst (fst (credis_zadd P double printf_f h n key score member)) = -1 <->
      reply_integer (reply h1) = 0) /\
     (reply_integer (reply h1) <> 0 ->
      fst (fst (credis_zadd P double printf_f h n key score member)) = 0) /\
     (exists h0, render P h (zadd_text (printf_f score) key member) = Some h0 /\
                 send_code h0 n = buf_len (buf h0)) /\
     exists line, peek P (buf h1) line = CR_INT /\
       reply_integer (reply h1) = atoi (c_string (buf h1) (line + 1))).
Proof.
  split; intros h1 n1 Hrt.
  - assert (Hs : credis_sadd P h n key member =
                 (if reply_integer (reply h1) =? 0 then -1 else 0, h1, n1)).
    { unfold credis_sadd, cr_setaddrem. unfold sadd_text in Hrt.
      rewrite Hrt. reflexivity. }
    split; [exact Hs|]. rewrite Hs. simpl.
    destruct (cr_sendfandreceive_ok _ _ _ _ _ _ _ Hrt) as (h0 & n0 & Hren & Hsend & Hr).
    split; [|split; [|split]].
    + destruct (reply_integer (reply h1) =? 0) eqn:E.
      * apply Z.eqb_eq in E. tauto.
      * apply Z.eqb_neq in E. split; [discriminate | tauto].
    + intros Hne. apply Z.eqb_neq in Hne. rewrite Hne. reflexivity.
    + exists h0. split; [exact Hren|]. unfold send_code. rewrite Hsend. reflexivity.
    + eapply cr_receivereply_int_ok; eassumption.
  - assert (Hs : credis_zadd P double printf_f h n key score member =
                 (if reply_integer (reply h1) =? 0 then -1 else 0, h1, n1)).
    { unfold credis_zadd. unfold zadd_text in Hrt.
      rewrite Hrt. reflexivity. }
    split; [exact Hs|]. rewrite Hs. simpl.
    destruct (cr_sendfandreceive_ok _ _ _ _ _ _ _ Hrt) as (h0 & n0 & Hren & Hsend & Hr).
    split; [|split; [|split]].
    + destruct (reply_integer (reply h1) =? 0) eqn:E.
      * apply Z.eqb_eq in E. tauto.
      * apply Z.eqb_neq in E. split; [discriminate | tauto].
    + intros Hne. apply Z.eqb_neq in Hne. rewrite Hne. reflexivity.
    + exists h0. split; [exact Hren|]. unfold send_code. rewrite Hsend. reflexivity.
    + eapply cr_receivereply_int_ok; eassumption.
Qed.

Lemma credis_sadd_zadd_return_witness :
  fst (fst (credis_sadd quiet fresh_handle
              (idle [RxData (txt ":0" ++ CRLF)]) (txt "k") (txt "m"))) = -1 /\
  fst (fst (credis_zadd quiet (list ascii) printed_score fresh_handle
              (idle [RxData (txt ":1" ++ CRLF)]) (txt "k") (txt "2.500000")
              (txt "m"))) = 0.
Proof.
  split.
  - destruct (credis_sadd_zadd_return quiet (list ascii) printed_score fresh_handle
                (idle [RxData (txt ":0" ++ CRLF)]) (txt "k") (txt "m")
                (txt "2.500000")) as [Hs _].
    set (r := cr_sendfandreceive quiet fresh_handle
                (idle [RxData (txt ":0" ++ CRLF)]) CR_INT
                (sadd_text (txt "k") (txt "m"))).
    assert (Hrt : r = (0, snd (fst r), snd r)) by (vm_compute; reflexivity).
    destruct (Hs _ _ Hrt) as (_ & Hiff & _).
    apply Hiff. vm_compute. reflexivity.
  - destruct (credis_sadd_zadd_return quiet (list ascii) printed_score fresh_handle
                (idle [RxData (txt ":1" ++ CRLF)]) (txt "k") (txt "m")
                (txt "2.500000")) as [_ Hz].
    set (r := cr_sendfandreceive quiet fresh_handle
                (idle [RxData (txt ":1" ++ CRLF)]) CR_INT
                (zadd_text (printed_score (txt "2.500000")) (txt "k") (txt "m"))).
    assert (Hrt : r = (0, snd (fst r), snd r)) by (vm_compute; reflexivity).
    destruct (Hz _ _ Hrt) as (_ & _ & Hnz & _).
    apply Hnz. vm_compute. discriminate.
Defined.

(** ** The version handshake *)



Lemma sscanf_run_items (fmt : list directive) :
  forall input got0 items got,
    sscanf_run fmt input got0 = (items, got) ->
    (items = Z.of_nat (length got) \/ (items = EOF /\ got = [])) /\
    (length got <= length got0 + count_ints fmt)%nat.
Proof.
  induction fmt as [|d fmt IH]; intros input got0 items got H; simpl in H.
  - inversion H; subst. split; [left; reflexivity | simpl; lia].
  - destruct d; simpl.
    + destruct input as [|x input].
      * inversion H; subst. split; [|lia].
        destruct got; [right; auto | left; reflexivity].
      * destruct (Ascii.eqb x c).
        -- apply IH in H. exact H.
        -- inversion H; subst. split; [left; reflexivity | lia].
    + apply IH in H. exact H.
    + destruct (skip_space input).
      * inversion H; subst. split; [|lia].
        destruct got; [right; auto | left; reflexivity].
      * destruct (scan_int input) as [[v input']|].
        -- apply IH in H. rewrite length_app in H. simpl in H.
           split; [tauto | lia].
        -- inversion H; subst. split; [left; reflexivity | lia].
Qed.

Lemma sscanf_run_char (c : ascii) (fmt : list directive) (input : list ascii)
    (got : list Z) :
  sscanf_run (DChar c :: fmt) (c :: input) got = sscanf_run fmt input got.
Proof. simpl. rewrite Ascii.eqb_refl. reflexivity. Qed.

Lemma sscanf_run_int (n : nat) (fmt : list directive) (rest : list ascii)
    (got : list Z) :
  starts_with_digit rest = false -> Z.of_nat n <= INT_MAX ->
  sscanf_run (DInt :: fmt) (decimal n ++ rest) got =
  sscanf_run fmt rest (got ++ [Z.of_nat n]).
Proof.
  intros Hrest Hmax. simpl sscanf_run.
  rewrite (scan_int_decimal n rest Hrest Hmax).
  destruct (decimal_cons n) as (c & l & Hc & Hdig).
  rewrite Hc. simpl. rewrite (isdigit_not_space c Hdig). reflexivity.
Qed.

(** The two shapes of the version line: [redis_version:a.b.c] converts
    three fields and stands for a.b.c; [redis_version:a.b] converts two and
    stands for a.0.b. *)
Lemma version_line_shapes (a b c : nat) :
  Z.of_nat a <= INT_MAX -> Z.of_nat b <= INT_MAX -> Z.of_nat c <= INT_MAX ->
  let three := txt "redis_version:" ++ decimal a ++ txt "." ++ decimal b
                   ++ txt "." ++ decimal c in
  let two := txt "redis_version:" ++ decimal a ++ txt "." ++ decimal b in
  sscanf three version_format = (3, [Z.of_nat a; Z.of_nat b; Z.of_nat c]) /\
  parsed_version (snd (sscanf three version_format)) =
    mk_version (Z.of_nat a) (Z.of_nat b) (Z.of_nat c) /\
  sscanf two version_format = (2, [Z.of_nat a; Z.of_nat b]) /\
  parsed_version (snd (sscanf two version_format)) =
    mk_version (Z.of_nat a) 0 (Z.of_nat b) /\
  parseable three = true /\ parseable two = true.
Proof.
  intros Ha Hb Hc three two.
  assert (H3 : sscanf three version_format =
               (3, [Z.of_nat a; Z.of_nat b; Z.of_nat c])).
  { unfold sscanf, three, version_format. simpl map. simpl app.
    rewrite !sscanf_run_char.
    rewrite sscanf_run_int by (auto; reflexivity).
    rewrite sscanf_run_char.
    rewrite sscanf_run_int by (auto; reflexivity).
    rewrite sscanf_run_char.
    rewrite <- (app_nil_r (decimal c)).
    rewrite sscanf_run_int by (auto; reflexivity).
    reflexivity. }
  assert (H2 : sscanf two version_format = (2, [Z.of_nat a; Z.of_nat b])).
  { unfold sscanf, two, version_format. simpl map. simpl app.
    rewrite !sscanf_run_char.
    rewrite sscanf_run_int by (auto; reflexivity).
    rewrite sscanf_run_char.
    rewrite <- (app_nil_r (decimal b)).
    rewrite sscanf_run_int by (auto; reflexivity).
    reflexivity. }
  unfold parseable. rewrite H3, H2. simpl. repeat split; reflexivity.
Qed.

Lemma scan_version_done (tokens : list (list ascii)) (items : Z) (v : cr_version) :
  2 <= items -> scan_version tokens items v = (items, v).
Proof.
  intros H. destruct tokens; simpl; [reflexivity|].
  replace (items <? 2) with false by (symmetry; apply Z.ltb_ge; lia).
  reflexivity.
Qed.

Lemma scan_version_first (tokens : list (list ascii)) :
  forall items0 v,
    items0 < 2 ->
    match first_version tokens with
    | Some got =>
        exists items v',
          scan_version tokens items0 v = (items, v') /\ 2 <= items /\
          (if items =? 2 then mk_version (major v') 0 (minor v') else v') =
          parsed_version got
    | None => fst (scan_version tokens items0 v) < 2
    end.
Proof.
  induction tokens as [|t ts IH]; intros items0 v H0; simpl; [exact H0|].
  replace (items0 <? 2) with true by (symmetry; apply Z.ltb_lt; lia).
  unfold scan_version_line, parseable.
  destruct (sscanf t version_format) as [items got] eqn:Es. simpl.
  destruct (2 <=? items) eqn:E2.
  - apply Z.leb_le in E2.
    rewrite scan_version_done by exact E2.
    exists items. eexists. split; [reflexivity|]. split; [exact E2|].
    unfold sscanf in Es. apply sscanf_run_items in Es.
    destruct Es as [[Hi | [Hi _]] Hlen]; [|unfold EOF in Hi; lia].
    change (count_ints version_format) with 3%nat in Hlen. simpl in Hlen.
    destruct got as [|a [|b [|c [|d got]]]]; simpl in *; try lia.
    + subst items. reflexivity.
    + subst items. reflexivity.
  - apply Z.leb_gt in E2. apply IH. exact E2.
Qed.




(** * Further properties of the engine *)

(** ** What reaches the wire *)

Lemma firstn_add_skipn (A : Type) (l : list A) (a b : nat) :
  firstn a l ++ firstn b (skipn a l) = firstn (a + b) l.
Proof.
  revert l; induction a as [|a IH]; intros l; simpl; [reflexivity|].
  destruct l as [|x l]; simpl.
  - rewrite firstn_nil. reflexivity.
  - f_equal. apply IH.
Qed.

Lemma cr_senddata_loop_wire (script : list tx_event) :
  forall out bytes sent size rc s' out' pre,
    0 <= sent <= size ->
    size <= Z.of_nat (length bytes) ->
    out = pre ++ firstn (Z.to_nat sent) bytes ->
    cr_senddata_loop script out bytes sent size = (rc, s', out') ->
    exists k, sent <= k <= size /\
              out' = pre ++ firstn (Z.to_nat k) bytes /\
              (rc = k \/ rc = -1).
Proof.
  assert (Hstop : forall (out : list ascii) sent size rc (s' : list tx_event) out' pre bytes r s,
             0 <= sent <= size ->
             out = pre ++ firstn (Z.to_nat sent) bytes ->
             (r = sent \/ r = -1) ->
             (r, s, out) = (rc, s', out') ->
             exists k, sent <= k <= size /\
                       out' = pre ++ firstn (Z.to_nat k) bytes /\
                       (rc = k \/ rc = -1)).
  { intros out sent size rc s' out' pre bytes r s Hs Hout Hr H.
    injection H as H1 _ H3. exists sent. subst. repeat split; try lia; auto. }
  induction script as [|e script IH];
    intros out bytes sent size rc s' out' pre Hs Hsz Hout H; simpl in H.
  - destruct (sent <? size); refine (Hstop _ _ _ _ _ _ _ _ _ _ Hs Hout _ H); auto.
  - destruct (sent <? size) eqn:Elt; [|refine (Hstop _ _ _ _ _ _ _ _ _ _ Hs Hout _ H); auto].
    apply Z.ltb_lt in Elt.
    destruct e; try (refine (Hstop _ _ _ _ _ _ _ _ _ _ Hs Hout _ H); solve [auto]).
    set (taken := firstn (Nat.min room (Z.to_nat (size - sent)))
                         (skipn (Z.to_nat sent) bytes)) in *.
    assert (Hlen : length taken = Nat.min room (Z.to_nat (size - sent))).
    { unfold taken. rewrite length_firstn, length_skipn. lia. }
    apply (IH _ _ _ _ _ _ _ pre) in H; try lia.
    + destruct H as (k & Hk & Ho & Hr). exists k. split; [lia|]. auto.
    + subst out. rewrite <- app_assoc. f_equal. rewrite Hlen. unfold taken.
      rewrite firstn_add_skipn. f_equal. lia.
Qed.

Lemma cr_senddata_prefix (n : net) (msecs : Z) (bytes : list ascii)
    (size : Z) :
  0 <= size <= Z.of_nat (length bytes) ->
  exists k,
    0 <= k <= size /\
    wire_out (snd (cr_senddata n msecs bytes size)) =
      wire_out n ++ firstn (Z.to_nat k) bytes /\
    (fst (cr_senddata n msecs bytes size) = k \/
     fst (cr_senddata n msecs bytes size) = -1) /\
    rx (snd (cr_senddata n msecs bytes size)) = rx n.
Proof.
  intros Hsz. unfold cr_senddata.
  destruct (cr_senddata_loop (tx n) (wire_out n) bytes 0 size)
    as [[rc s'] out'] eqn:E.
  apply (cr_senddata_loop_wire _ _ _ _ _ _ _ _ (wire_out n)) in E;
    try lia; [|simpl; rewrite app_nil_r; reflexivity].
  destruct E as (k & Hk & Ho & Hr). exists k. simpl. auto.
Qed.

(** X1.  Whatever the socket does, the bytes [cr_senddata] has put on the wire
    are the first [k] bytes of the command, in order, for some [k] up to
    its length, and a return value that is not -1 is that [k]. *)
Theorem cr_senddata_sends_a_prefix (n : net) (msecs : Z) (bytes : list ascii)
    (size : Z) :
  0 <= size <= Z.of_nat (length bytes) ->
  exists k,
    0 <= k <= size /\
    wire_out (snd (cr_senddata n msecs bytes size)) =
      wire_out n ++ firstn (Z.to_nat k) bytes /\
    (fst (cr_senddata n msecs bytes size) = k \/
     fst (cr_senddata n msecs bytes size) = -1) /\
    rx (snd (cr_senddata n msecs bytes size)) = rx n.
Proof. apply cr_senddata_prefix. Qed.

Lemma cr_senddata_sends_a_prefix_witness :
  exists k,
    0 <= k <= 6 /\
    wire_out (snd (cr_senddata (mk_net [] [TxSend 4; TxSendError] [])
                               2000 (txt "PING" ++ CRLF) 6)) =
      firstn (Z.to_nat k) (txt "PING" ++ CRLF).
Proof.
  destruct (cr_senddata_sends_a_prefix (mk_net [] [TxSend 4; TxSendError] [])
              2000 (txt "PING" ++ CRLF) 6
              ltac:(vm_compute; split; discriminate))
    as (k & Hk & Hw & _).
  exists k. split; [exact Hk | exact Hw].
Defined.

Lemma cr_senddata_loop_complete (rooms : list nat) :
  forall s out bytes sent size,
    0 <= sent <= size ->
    size <= Z.of_nat (length bytes) ->
    size - sent <= Z.of_nat (list_sum rooms) ->
    fst (fst (cr_senddata_loop (map TxSend rooms ++ s) out bytes sent size)) = size.
Proof.
  induction rooms as [|room rooms IH]; intros s out bytes sent size Hs Hsz Hroom.
  - simpl in Hroom. assert (sent = size) by lia. subst sent.
    simpl. destruct s as [|e s]; simpl; rewrite Z.ltb_irrefl; reflexivity.
  - simpl map. simpl app. simpl cr_senddata_loop.
    destruct (sent <? size) eqn:Elt; [|apply Z.ltb_ge in Elt; simpl; lia].
    apply Z.ltb_lt in Elt.
    set (taken := firstn (Nat.min room (Z.to_nat (size - sent)))
                         (skipn (Z.to_nat sent) bytes)).
    assert (Hlen : length taken = Nat.min room (Z.to_nat (size - sent))).
    { unfold taken. rewrite length_firstn, length_skipn. lia. }
    apply IH; try lia. simpl in Hroom. lia.
Qed.

Lemma cr_senddata_whole (n : net) (msecs : Z) (bytes : list ascii)
    (size : Z) (rooms : list nat) (s : list tx_event) :
  0 <= size <= Z.of_nat (length bytes) ->
  tx n = map TxSend rooms ++ s ->
  size <= Z.of_nat (list_sum rooms) ->
  fst (cr_senddata n msecs bytes size) = size /\
  wire_out (snd (cr_senddata n msecs bytes size)) =
    wire_out n ++ firstn (Z.to_nat size) bytes.
Proof.
  intros Hsz Htx Hroom.
  assert (Hrc : fst (cr_senddata n msecs bytes size) = size).
  { unfold cr_senddata. rewrite Htx.
    pose proof (cr_senddata_loop_complete rooms s (wire_out n) bytes 0 size
                  ltac:(lia) ltac:(lia) ltac:(lia)) as H.
    destruct (cr_senddata_loop _ _ _ _ _) as [[rc s'] out']. exact H. }
  split; [exact Hrc|].
  destruct (cr_senddata_prefix n msecs bytes size Hsz)
    as (k & Hk & Hw & Hr & _).
  rewrite Hw. rewrite Hrc in Hr. destruct Hr as [Hr|Hr]; [subst k; reflexivity|lia].
Qed.

(** X2.  Partial writes are retried: when the socket, in however many pieces,
    takes at least as many bytes as the command has, [cr_senddata] returns
    the command length and the wire has received the whole command. *)
Theorem cr_senddata_completes (n : net) (msecs : Z) (bytes : list ascii)
    (size : Z) (rooms : list nat) (s : list tx_event) :
  0 <= size <= Z.of_nat (length bytes) ->
  tx n = map TxSend rooms ++ s ->
  size <= Z.of_nat (list_sum rooms) ->
  fst (cr_senddata n msecs bytes size) = size /\
  wire_out (snd (cr_senddata n msecs bytes size)) =
    wire_out n ++ firstn (Z.to_nat size) bytes.
Proof. intros H1 H2 H3. exact (cr_senddata_whole n msecs bytes size rooms s H1 H2 H3). Qed.

Lemma cr_senddata_completes_witness :
  fst (cr_senddata (mk_net [] [TxSend 2; TxSend 3; TxSend 8] [])
                   2000 (txt "PING" ++ CRLF) 6) = 6 /\
  wire_out (snd (cr_senddata (mk_net [] [TxSend 2; TxSend 3; TxSend 8] [])
                             2000 (txt "PING" ++ CRLF) 6)) =
    txt "PING" ++ CRLF.
Proof.
  exact (cr_senddata_completes (mk_net [] [TxSend 2; TxSend 3; TxSend 8] [])
           2000 (txt "PING" ++ CRLF) 6 [2; 3; 8]%nat []
           ltac:(vm_compute; split; discriminate) eq_refl
           ltac:(vm_compute; discriminate)).
Defined.

(** ** The command in the buffer *)

Lemma blit_zero (l bs : list ascii) :
  (length bs <= length l)%nat ->
  blit l 0 bs = bs ++ skipn (length bs) l.
Proof.
  revert bs; induction l as [|x l IH]; intros bs Hl.
  - destruct bs; simpl in *; [reflexivity|lia].
  - destruct bs as [|c bs]; [reflexivity|].
    simpl in *. f_equal. apply IH. lia.
Qed.

Lemma vsnprintf_allocated (b : cr_buffer) (text : list ascii) :
  allocated b ->
  allocated (snd (vsnprintf b text)) /\
  buf_size (snd (vsnprintf b text)) = buf_size b /\
  buf_len (snd (vsnprintf b text)) = buf_len b /\
  buf_idx (snd (vsnprintf b text)) = buf_idx b /\
  fst (vsnprintf b text) = Z.of_nat (length text).
Proof.
  intros Ha. unfold vsnprintf, allocated in *. simpl.
  destruct (0 <? buf_size b); simpl; auto.
  rewrite blit_length. auto.
Qed.

Lemma vsnprintf_fits (b : cr_buffer) (text : list ascii) :
  allocated b -> Z.of_nat (length text) < buf_size b ->
  exists rest, buf_data (snd (vsnprintf b text)) = text ++ NUL :: rest.
Proof.
  intros Ha Hf. unfold vsnprintf, allocated in *. simpl.
  replace (0 <? buf_size b) with true by (symmetry; apply Z.ltb_lt; lia).
  simpl. rewrite firstn_all2 by lia.
  rewrite blit_zero by (rewrite length_app; simpl; lia).
  rewrite <- app_assoc. simpl. eauto.
Qed.

Lemma render_spec (P : platform) (h h1 : cr_redis) (text : list ascii) :
  allocated (buf h) ->
  render P h text = Some h1 ->
  holds_command (buf h1) text /\
  Z.of_nat (length text) < buf_size (buf h1) /\
  buf_size (buf h) <= buf_size (buf h1) /\
  buf_idx (buf h1) = buf_idx (buf h) /\
  h1 = set_buf h (buf h1).
Proof.
  intros Ha. unfold render.
  destruct (vsnprintf (buf h) text) as [rc b1] eqn:E1.
  destruct (vsnprintf_allocated (buf h) text Ha) as (Ha1 & Hs1 & Hl1 & Hi1 & Hrc).
  rewrite E1 in Ha1, Hs1, Hl1, Hi1, Hrc. simpl in Ha1, Hs1, Hl1, Hi1, Hrc.
  destruct (buf_size b1 <=? rc) eqn:Efit.
  - apply Z.leb_le in Efit.
    destruct (cr_moremem P b1 (rc - buf_size b1 + 1)) as [b2|] eqn:Em; [|discriminate].
    destruct (cr_moremem_keeps P b1 b2 (rc - buf_size b1 + 1) Ha1 ltac:(lia) Em)
      as (Ha2 & Hg & _ & Hi2 & _).
    destruct (vsnprintf b2 text) as [rc2 b3] eqn:E3.
    destruct (vsnprintf_allocated b2 text Ha2) as (Ha3 & Hs3 & _ & Hi3 & Hrc3).
    destruct (vsnprintf_fits b2 text Ha2 ltac:(lia)) as (rest & Hd).
    rewrite E3 in Ha3, Hs3, Hi3, Hrc3, Hd. simpl in Ha3, Hs3, Hi3, Hrc3, Hd.
    intros H; inversion H; subst h1; clear H. simpl.
    unfold holds_command, allocated in *. simpl.
    repeat split; eauto; try lia; try congruence.
  - apply Z.leb_gt in Efit.
    destruct (vsnprintf_fits (buf h) text Ha ltac:(lia)) as (rest & Hd).
    rewrite E1 in Hd. simpl in Hd.
    intros H; inversion H; subst h1; clear H. simpl.
    unfold holds_command, allocated in *. simpl.
    repeat split; eauto; try lia; try congruence.
Qed.

(** ** The handle across a request *)

Lemma upd_length (A : Type) (l : list A) (i : nat) (x : A) :
  length (upd l i x) = length l.
Proof.
  revert i; induction l as [|y l IH]; intros [|i]; simpl; auto.
Qed.

Lemma grow_to_length (A : Type) (l : list A) (total : nat) (x : A) :
  length (grow_to l total x) = total.
Proof.
  unfold grow_to. rewrite length_app, length_firstn, repeat_length. lia.
Qed.

Lemma steady_refl (h : cr_redis) (n : net) : well_formed h -> steady h n h n.
Proof.
  intros H. unfold steady, same_connection, no_smaller.
  repeat split; auto; try lia; apply H.
Qed.

Lemma steady_trans (h h1 h2 : cr_redis) (n n1 n2 : net) :
  steady h n h1 n1 -> steady h1 n1 h2 n2 -> steady h n h2 n2.
Proof.
  unfold steady, same_connection, no_smaller.
  intros (_ & (A1 & A2 & A3 & A4 & A5 & A6) & (A7 & A8) & A9 & A10)
         (W & (B1 & B2 & B3 & B4 & B5 & B6) & (B7 & B8) & B9 & B10).
  repeat split; try congruence; try lia; apply W.
Qed.

Lemma cr_readln_sound (P : platform) (h : cr_redis) (n : net)
    (start line idx : Z) :
  sound (buf h) ->
  sound (buf (rl_h (cr_readln P h n start line idx))) /\
  buf_size (buf h) <= buf_size (buf (rl_h (cr_readln P h n start line idx))) /\
  tx (rl_net (cr_readln P h n start line idx)) = tx n /\
  wire_out (rl_net (cr_readln P h n start line idx)) = wire_out n.
Proof.
  intros Hs. unfold cr_readln.
  destruct (cr_readln_loop P _ h n start _) as [ex|] eqn:E;
    [|simpl; repeat split; auto; try lia; apply Hs].
  apply cr_readln_loop_spec in E; [|exact Hs].
  destruct ex as [nl h1 n1|rc h1 n1]; simpl in E;
    destruct E as (got & Hext & E).
  - destruct E as (_ & Ht & Hw & _).
    destruct Hext as [[Ha Hl] _ _ Hsz _ _ _]. simpl.
    unfold poke_buf. destruct (in_alloc (buf h1) nl); simpl;
      unfold sound, allocated in *; simpl; rewrite ?poke_length; auto.
  - destruct E as (_ & Ht & Hw & _).
    destruct Hext as [Hs1 _ _ Hsz _ _ _]. simpl. auto.
Qed.

Lemma cr_readln_steady (P : platform) (h : cr_redis) (n : net)
    (start line idx : Z) :
  well_formed h ->
  steady h n (rl_h (cr_readln P h n start line idx))
             (rl_net (cr_readln P h n start line idx)).
Proof.
  intros (Hs & Hm).
  destruct (cr_readln_sound P h n start line idx Hs) as (Hs' & Hsz & Ht & Hw).
  pose proof (cr_readln_frame P h n start line idx) as Hf.
  set (r := cr_readln P h n start line idx) in *.
  unfold steady, well_formed, same_connection, no_smaller.
  destruct Hs' as (Ha' & Hl'). destruct Hm as (M1 & M2 & M3).
  rewrite Hf. simpl. repeat split; auto; lia.
Qed.

Lemma set_idxs_steady (h : cr_redis) (n : net) (i v : Z) :
  well_formed h -> steady h n (set_idxs h i v) n.
Proof.
  intros ((Ha & Hf) & Hb & Hi & Hl).
  unfold steady, well_formed, sound, store_ok, same_connection, no_smaller, set_idxs.
  simpl. destruct (0 <=? i); rewrite ?upd_length; repeat split; auto; lia.
Qed.

Lemma multibulk_loop_steady (P : platform) (k : nat) :
  forall h n i bnum line idx,
    well_formed h ->
    match multibulk_loop P k h n i bnum line idx with
    | MbReturn _ h' n' => steady h n h' n'
    | MbDone _ _ h' n' => steady h n h' n'
    end.
Proof.
  induction k as [|k IH]; intros h n i bnum line idx Hw; simpl;
    [apply steady_refl; exact Hw|].
  pose proof (cr_readln_steady P h n 0 line idx Hw) as H1.
  set (r := cr_readln P h n 0 line idx) in *.
  destruct (0 <? rl_rc r); [|exact H1].
  destruct (negb (Ascii.eqb _ CR_BULK)); [exact H1|].
  assert (W1 : well_formed (rl_h r)) by apply H1.
  destruct (atoi _ =? -1).
  - pose proof (set_idxs_steady (rl_h r) (rl_net r) i (-1) W1) as H2.
    specialize (IH (set_idxs (rl_h r) i (-1)) (rl_net r)
                   (i + 1) (bnum - 1) (rl_line r + 1) idx ltac:(apply H2)).
    destruct (multibulk_loop _ _ _ _ _ _ _ _);
      exact (steady_trans _ _ _ _ _ _ (steady_trans _ _ _ _ _ _ H1 H2) IH).
  - pose proof (cr_readln_steady P (rl_h r) (rl_net r)
                  (atoi (c_string (buf (rl_h r)) (rl_line r + 1)))
                  (rl_line r + 1) idx W1) as H2.
    set (r2 := cr_readln P (rl_h r) _ _ _ _) in *.
    pose proof (steady_trans _ _ _ _ _ _ H1 H2) as H12.
    destruct (negb (rl_rc r2 =? _)); [exact H12|].
    assert (W2 : well_formed (rl_h r2)) by apply H2.
    pose proof (set_idxs_steady (rl_h r2) (rl_net r2) i (rl_idx r2) W2) as H3.
    specialize (IH (set_idxs (rl_h r2) i (rl_idx r2)) (rl_net r2)
                   (i + 1) (bnum - 1) (rl_line r2) (rl_idx r2) ltac:(apply H3)).
    destruct (multibulk_loop _ _ _ _ _ _ _ _);
      exact (steady_trans _ _ _ _ _ _ (steady_trans _ _ _ _ _ _ H12 H3) IH).
Qed.

Lemma cr_morebulk_keeps (P : platform) (mb mb' : cr_multibulk) (extra : Z) :
  store_ok mb -> 0 <= extra ->
  cr_morebulk P mb extra = Some mb' ->
  store_ok mb' /\
  mb_size mb + extra < mb_size mb' /\
  mb_size mb + CR_MULTIBULK_SIZE <= mb_size mb' /\
  mb_len mb' = mb_len mb /\
  (forall k, (k <= length (mb_idxs mb))%nat ->
             firstn k (mb_idxs mb') = firstn k (mb_idxs mb)) /\
  (forall k, (k <= length (mb_bulks mb))%nat ->
             firstn k (mb_bulks mb') = firstn k (mb_bulks mb)).
Proof.
  intros (Hb & Hi & Hl) Hx. unfold cr_morebulk.
  destruct (alloc_ok P _ && alloc_ok P _); [|discriminate].
  intros H; inversion H; subst mb'; clear H.
  rewrite Z.quot_div_nonneg by (unfold CR_MULTIBULK_SIZE; lia).
  unfold CR_MULTIBULK_SIZE in *.
  pose proof (Z.div_mod extra 256 ltac:(lia)) as Hdm.
  pose proof (Z.mod_pos_bound extra 256 ltac:(lia)) as Hm.
  assert (Hq : 0 <= extra / 256) by (apply Z.div_pos; lia).
  unfold store_ok. simpl. rewrite !grow_to_length.
  repeat split; try lia.
  - intros k Hk. unfold grow_to. rewrite firstn_app, firstn_firstn.
    rewrite length_firstn.
    replace (Nat.min k (Z.to_nat (mb_size mb + (extra / 256 + 1) * 256)))
      with k by lia.
    replace (k - _)%nat with O by lia. simpl. apply app_nil_r.
  - intros k Hk. unfold grow_to. rewrite firstn_app, firstn_firstn.
    rewrite length_firstn.
    replace (Nat.min k (Z.to_nat (mb_size mb + (extra / 256 + 1) * 256)))
      with k by lia.
    replace (k - _)%nat with O by lia. simpl. apply app_nil_r.
Qed.

Lemma set_reply_steady (h : cr_redis) (n : net) (v : Z) (l p : option Z)
    (mb : cr_multibulk) :
  well_formed h -> store_ok mb ->
  mb_size (reply_multibulk (reply h)) <= mb_size mb ->
  steady h n (set_reply h (mk_reply v l p mb)) n.
Proof.
  intros ((Ha & Hf) & Hb & Hi & Hl) Hm Hsz.
  unfold steady, well_formed, sound, same_connection, no_smaller. simpl.
  repeat split; auto; try lia; apply Hm.
Qed.

Lemma resolve_bulks_ok (mb : cr_multibulk) (i : Z) :
  store_ok mb -> 0 <= i <= mb_size mb ->
  store_ok (resolve_bulks (set_mb_len mb i)) /\
  mb_size (resolve_bulks (set_mb_len mb i)) = mb_size mb.
Proof.
  intros (Hb & Hi & Hl) Hr. unfold store_ok, resolve_bulks, set_mb_len. simpl.
  rewrite length_app, length_map, length_firstn, length_skipn.
  repeat split; auto; lia.
Qed.

Lemma cr_receivemultibulk_steady (P : platform) (h : cr_redis) (n : net) (line : Z) :
  well_formed h ->
  steady h n (decoded (cr_receivemultibulk P h n line))
             (snd (cr_receivemultibulk P h n line)).
Proof.
  intros Hw. pose proof Hw as (Hs & Hm). pose proof Hm as (Hb & Hi & Hl).
  unfold cr_receivemultibulk, decoded.
  set (bnum := atoi (c_string (buf h) line)).
  destruct (bnum =? -1).
  - simpl. apply set_reply_steady; auto; [|simpl; lia].
    unfold store_ok, set_mb_len. simpl. repeat split; auto; lia.
  - destruct (if mb_size _ <? bnum then _ else _) as [mb1|] eqn:Eg;
      [|simpl; apply steady_refl; exact Hw].
    assert (Hg : store_ok mb1 /\ bnum <= mb_size mb1 /\
                 mb_size (reply_multibulk (reply h)) <= mb_size mb1).
    { destruct (mb_size (reply_multibulk (reply h)) <? bnum) eqn:El.
      - apply Z.ltb_lt in El.
        destruct (cr_morebulk_keeps P _ _ (bnum - mb_size (reply_multibulk (reply h)))
                    Hm ltac:(lia) Eg) as (Hm1 & Hlt & _).
        repeat split; try apply Hm1; lia.
      - apply Z.ltb_ge in El. inversion Eg; subst mb1.
        repeat split; auto; lia. }
    destruct Hg as (Hm1 & Hb1 & Hsz1).
    pose proof (set_reply_steady h n (reply_integer (reply h))
                  (reply_line (reply h)) (reply_bulk (reply h)) mb1 Hw Hm1 Hsz1) as H0.
    fold (set_reply_multibulk h mb1) in H0.
    pose proof (multibulk_loop_steady P (Z.to_nat bnum)
                  (set_reply_multibulk h mb1) n 0 bnum line (junk_int P)
                  ltac:(apply H0)) as H1.
    pose proof (multibulk_loop_count P (Z.to_nat bnum)
                  (set_reply_multibulk h mb1) n 0 bnum line (junk_int P)) as Hc.
    destruct (multibulk_loop P _ _ _ _ _ _ _) as [rc h1 n1|i bnum1 h1 n1]; simpl.
    + exact (steady_trans _ _ _ _ _ _ H0 H1).
    + destruct (negb (bnum1 =? 0)) eqn:Ez; simpl;
        [exact (steady_trans _ _ _ _ _ _ H0 H1)|].
      apply negb_false_iff, Z.eqb_eq in Ez. subst bnum1.
      destruct (Hc _ _ _ _ eq_refl) as (Hsum & Hpos & _).
      pose proof H1 as (W1 & _ & (_ & Hsz) & _). simpl in Hsz.
      destruct (resolve_bulks_ok (reply_multibulk (reply h1)) i
                  ltac:(apply W1) ltac:(lia)) as (Hr & Hrs).
      refine (steady_trans _ _ _ _ _ _ (steady_trans _ _ _ _ _ _ H0 H1) _).
      apply set_reply_steady; auto. lia.
Qed.

Lemma cr_receivebulk_steady (P : platform) (h : cr_redis) (n : net) (line : Z) :
  well_formed h ->
  steady h n (decoded (cr_receivebulk P h n line))
             (snd (cr_receivebulk P h n line)).
Proof.
  intros Hw. unfold cr_receivebulk, decoded.
  destruct (atoi _ =? -1); simpl.
  - apply set_reply_steady; auto; [apply Hw|lia].
  - pose proof (cr_readln_steady P h n (atoi (c_string (buf h) line)) line
                  (junk_int P) Hw) as H1.
    set (r := cr_readln P h n _ line _) in *.
    destruct (0 <=? rl_rc r); simpl; [|exact H1].
    refine (steady_trans _ _ _ _ _ _ H1 _).
    apply set_reply_steady; [apply H1|apply H1|lia].
Qed.

Lemma cr_receivereply_steady (P : platform) (h : cr_redis) (n : net) (t : ascii) :
  allocated (buf h) -> store_ok (reply_multibulk (reply h)) ->
  steady h n (decoded (cr_receivereply P h n t)) (snd (cr_receivereply P h n t)).
Proof.
  intros Ha Hm. pose proof Hm as (M1 & M2 & M3).
  unfold cr_receivereply, decoded.
  set (h0 := set_buf h (reset_buffer (buf h))).
  assert (W0 : well_formed h0).
  { unfold well_formed, sound, allocated in *. simpl. repeat split; auto; lia. }
  assert (H0 : steady h n h0 n).
  { split; [exact W0|].
    unfold same_connection, no_smaller. simpl. repeat split; lia. }
  pose proof (cr_readln_steady P h0 n 0 (junk_int P) (junk_int P) W0) as H1.
  set (r := cr_readln P h0 n 0 _ _) in *.
  pose proof (steady_trans _ _ _ _ _ _ H0 H1) as H01.
  assert (W1 : well_formed (rl_h r)) by apply H1.
  assert (Hset : forall v l p,
             steady h n (set_reply (rl_h r)
                           (mk_reply v l p (reply_multibulk (reply (rl_h r)))))
                    (rl_net r)).
  { intros v l p. refine (steady_trans _ _ _ _ _ _ H01 _).
    apply set_reply_steady; [exact W1|apply W1|lia]. }
  destruct (0 <? rl_rc r); [|exact H01].
  destruct (negb _ && negb _); [exact H01|].
  destruct (Ascii.eqb _ CR_ERROR); [apply Hset|].
  destruct (Ascii.eqb _ CR_INLINE); [apply Hset|].
  destruct (Ascii.eqb _ CR_INT); [apply Hset|].
  destruct (Ascii.eqb _ CR_BULK).
  - exact (steady_trans _ _ _ _ _ _ H01
             (cr_receivebulk_steady P (rl_h r) (rl_net r) (rl_line r + 1) W1)).
  - destruct (Ascii.eqb _ CR_MULTIBULK); [|exact H01].
    exact (steady_trans _ _ _ _ _ _ H01
             (cr_receivemultibulk_steady P (rl_h r) (rl_net r) (rl_line r + 1) W1)).
Qed.

Lemma render_total (P : platform) (h : cr_redis) (text : list ascii) :
  generous P -> render P h text <> None.
Proof.
  intros Hg. unfold render.
  destruct (vsnprintf (buf h) text) as [rc b1].
  destruct (buf_size b1 <=? rc); [|discriminate].
  unfold cr_moremem. rewrite Hg.
  destruct (vsnprintf _ text). discriminate.
Qed.



(** A request whose command the socket takes in full puts exactly the
    command on the wire, and its result is one of the decoder's. *)
Lemma cr_sendfandreceive_wire (P : platform) (h : cr_redis) (n : net) (t : ascii)
    (text : list ascii) (rooms : list nat) (s : list tx_event) :
  well_formed h -> generous P ->
  tx n = map TxSend rooms ++ s ->
  (length text <= list_sum rooms)%nat ->
  wire_out (snd (cr_sendfandreceive P h n t text)) = wire_out n ++ text /\
  decoder_code (fst (fst (cr_sendfandreceive P h n t text))).
Proof.
  intros Hw Hg Htx Hroom. unfold cr_sendfandreceive.
  destruct (render P h text) as [h1|] eqn:Er;
    [|exfalso; exact (render_total P h text Hg Er)].
  destruct (render_spec P h h1 text ltac:(apply Hw) Er)
    as ((Ha1 & Hl1 & rest & Hd1) & Hfit & _ & _ & Hh1).
  unfold cr_sendandreceive.
  destruct (cr_senddata_whole n (timeout h1) (buf_data (buf h1)) (buf_len (buf h1))
              rooms s) as (Hrc & Hout); auto.
  { rewrite Hl1, Hd1, length_app. simpl. lia. }
  { rewrite Hl1. lia. }
  destruct (cr_senddata n _ _ _) as [rc n1]. simpl in Hrc, Hout. subst rc.
  rewrite Z.eqb_refl. simpl.
  assert (Hm1 : store_ok (reply_multibulk (reply h1)))
    by (rewrite Hh1; simpl; apply Hw).
  destruct (cr_receivereply_steady P h1 n1 t Ha1 Hm1) as (_ & _ & _ & _ & Hwire).
  split; [|apply cr_receivereply_codes].
  rewrite Hwire, Hout, Hl1, Hd1, Nat2Z.id.
  rewrite firstn_app, firstn_all, Nat.sub_diag. simpl. rewrite app_nil_r. reflexivity.
Qed.

Lemma cr_sendfandreceive_steady (P : platform) (h : cr_redis) (n : net) (t : ascii)
    (text : list ascii) :
  well_formed h ->
  well_formed (decoded (cr_sendfandreceive P h n t text)) /\
  same_connection h (decoded (cr_sendfandreceive P h n t text)) /\
  no_smaller h (decoded (cr_sendfandreceive P h n t text)).
Proof.
  intros Hw. pose proof Hw as ((Ha & Hl) & Hm). pose proof Hm as (M1 & M2 & M3).
  unfold cr_sendfandreceive, decoded.
  destruct (render P h text) as [h1|] eqn:Er.
  - destruct (render_spec P h h1 text Ha Er)
      as ((Ha1 & Hl1 & _) & Hfit & Hsz & _ & Hh1).
    assert (W1 : well_formed h1).
    { split; [split; [exact Ha1|lia]|]. rewrite Hh1. exact Hm. }
    assert (H1 : same_connection h h1 /\ no_smaller h h1).
    { unfold same_connection, no_smaller. rewrite Hh1. simpl.
      repeat split; lia. }
    unfold cr_sendandreceive.
    destruct (cr_senddata n _ _ _) as [rc n1].
    destruct (negb (rc =? buf_len (buf h1)));
      [destruct (rc <? 0); simpl; split; [exact W1|exact H1|exact W1|exact H1]|].
    destruct (cr_receivereply_steady P h1 n1 t Ha1 ltac:(apply W1))
      as (W2 & C2 & S2 & _).
    destruct H1 as (C1 & S1).
    unfold decoded in *. split; [exact W2|]. split.
    + destruct C1 as (A1 & A2 & A3 & A4 & A5 & A6).
      destruct C2 as (B1 & B2 & B3 & B4 & B5 & B6).
      unfold same_connection. repeat split; congruence.
    + destruct S1 as (A1 & A2). destruct S2 as (B1 & B2).
      unfold no_smaller. split; lia.
  - destruct (vsnprintf_allocated (buf h) text Ha) as (Ha1 & Hs1 & Hl1 & _).
    set (b1 := snd (vsnprintf (buf h) text)) in *. clearbody b1.
    unfold well_formed, sound, allocated, same_connection, no_smaller in *. simpl.
    repeat split; auto; lia.
Qed.

(** X3.  A request leaves the handle fit for the next one, whatever the server
    sent in a tame and modest exchange and however the exchange ended: the
    buffer record still describes its allocation with the fill inside it,
    the multibulk arrays have their recorded capacity with the element
    count inside it, no capacity has shrunk, and descriptor, address,
    port, timeout and version are as they were.  For a multibulk request this is stated for an allocator that
    does not refuse: when one of the two reallocations of [cr_morebulk]
    fails after the other has moved its array, the source keeps the old
    pointer, which the arrays of the model do not show. *)
Theorem request_keeps_handle (P : platform) (h : cr_redis) (n : net) (t : ascii)
    (text : list ascii) :
  well_formed h ->
  (t = CR_MULTIBULK -> generous P) ->
  modest h n -> modest_text text ->
  tame (cr_sendfandreceive_course P h n t text) ->
  well_formed (decoded (cr_sendfandreceive P h n t text)) /\
  same_connection h (decoded (cr_sendfandreceive P h n t text)) /\
  no_smaller h (decoded (cr_sendfandreceive P h n t text)).
Proof. intros Hw _ _ _ _. apply cr_sendfandreceive_steady. exact Hw. Qed.

Lemma cr_new_well_formed (P : platform) (h : cr_redis) :
  cr_new P = Some h ->
  well_formed h /\ buf_size (buf h) = CR_BUFFER_SIZE /\
  mb_size (reply_multibulk (reply h)) = CR_MULTIBULK_SIZE /\
  version h = mk_version 0 0 0.
Proof.
  unfold cr_new. destruct (_ && _); [|discriminate].
  intros H.
  apply (f_equal (fun o => match o with Some x => x | None => h end)) in H.
  cbv beta iota in H. subst h.
  unfold well_formed, sound, allocated, store_ok.
  cbn [buf reply reply_multibulk buf_data buf_size buf_len
       mb_bulks mb_idxs mb_size mb_len version].
  rewrite fresh_bytes_length, !repeat_length.
  unfold CR_BUFFER_SIZE, CR_MULTIBULK_SIZE. repeat split; lia.
Qed.

Lemma request_keeps_handle_witness :
  well_formed (decoded (cr_sendfandreceive quiet fresh_handle
                          (idle [RxData (txt "$5" ++ CRLF ++ txt "he"); RxClosed])
                          CR_BULK (txt "GET k" ++ CRLF))).
Proof.
  refine (proj1 (request_keeps_handle quiet fresh_handle _ CR_BULK _ _ _ _ _ _)).
  - vm_compute. repeat split; try reflexivity; discriminate.
  - discriminate.
  - split; vm_compute; discriminate.
  - vm_compute. discriminate.
  - vm_compute. reflexivity.
Defined.

(** X4.  Every handle that [credis_connect] returns from a tame and modest
    handshake with a server that keeps the connection open is well
    formed, has at least the initial capacities, and carries the
    descriptor and address of the socket, the timeout it was given and the
    port it was given, with 6379 standing in for port 0. *)
Theorem credis_connect_handle (P : platform) (lk : option link) (n n' : net)
    (host : option (list ascii)) (port0 timeout0 : Z) (h : cr_redis) :
  stays_open (rx n) = true ->
  Z.of_nat (rx_total (rx n)) <= MODEST ->
  (forall l hc, lk = Some l -> connecting P l port0 timeout0 = Some hc ->
     tame (cr_sendfandreceive_course P hc n CR_BULK (txt "INFO" ++ CRLF))) ->
  credis_connect P lk n host port0 timeout0 = (Connected h, n') ->
  well_formed h /\
  CR_BUFFER_SIZE <= buf_size (buf h) /\
  CR_MULTIBULK_SIZE <= mb_size (reply_multibulk (reply h)) /\
  timeout h = timeout0 /\
  port h = (if port0 =? 0 then 6379 else port0) /\
  exists l, lk = Some l /\ fd h = link_fd l /\ ip h = link_ip l.
Proof.
  intros _ _ _. unfold credis_connect.
  destruct (cr_new P) as [h0|] eqn:En; [|discriminate].
  destruct lk as [l|]; [|discriminate].
  destruct (cr_new_well_formed P h0 En) as ((Hs0 & Hm0) & Hb0 & Hmb0 & _).
  set (hc := mk_redis (version h0) (link_fd l) (link_ip l)
                      (if port0 =? 0 then 6379 else port0) timeout0
                      (buf h0) (reply h0) (error h0)).
  assert (Wc : well_formed hc) by (split; [exact Hs0|exact Hm0]).
  destruct (cr_sendfandreceive_steady P hc n CR_BULK (txt "INFO" ++ CRLF) Wc)
    as (W1 & (_ & C2 & C3 & C4 & C5 & _) & (S1 & S2)).
  unfold decoded in *.
  destruct (cr_sendfandreceive P hc n CR_BULK (txt "INFO" ++ CRLF))
    as [[rc h1] n1].
  simpl in W1, C2, C3, C4, C5, S1, S2.
  assert (Hall : forall v,
            well_formed (set_version h1 v) /\
            CR_BUFFER_SIZE <= buf_size (buf (set_version h1 v)) /\
            CR_MULTIBULK_SIZE <= mb_size (reply_multibulk (reply (set_version h1 v))) /\
            timeout (set_version h1 v) = timeout0 /\
            port (set_version h1 v) = (if port0 =? 0 then 6379 else port0) /\
            exists l0, Some l = Some l0 /\ fd (set_version h1 v) = link_fd l0 /\
                       ip (set_version h1 v) = link_ip l0).
  { intros v. simpl. repeat split; try apply W1; try lia; try assumption.
    exists l. auto. }
  assert (Hid : set_version h1 (version h1) = h1) by (destruct h1; reflexivity).
  destruct (rc =? 0).
  - destruct (reply_bulk (reply h1)) as [p|]; [|discriminate].
    destruct (scan_version _ 0 (version h1)) as [items v].
    destruct (items <? 2); [discriminate|].
    destruct (items =? 2); intros H; inversion H; subst; apply Hall.
  - intros H; inversion H; subst. rewrite <- Hid. apply Hall.
Qed.

Lemma credis_connect_handle_witness :
  exists h, fst (credis_connect quiet (Some (mk_link 3 (txt "127.0.0.1")))
                   (idle [RxData (txt "-ERR" ++ CRLF)]) (Some (txt "localhost"))
                   0 2000) = Connected h /\
            well_formed h /\ port h = 6379.
Proof.
  destruct (credis_connect quiet (Some (mk_link 3 (txt "127.0.0.1")))
              (idle [RxData (txt "-ERR" ++ CRLF)]) (Some (txt "localhost"))
              0 2000) as [r n'] eqn:E.
  destruct r as [h| |];
    [|vm_compute in E; discriminate E|vm_compute in E; discriminate E].
  exists h. split; [reflexivity|].
  assert (Htame : forall l hc,
            Some (mk_link 3 (txt "127.0.0.1")) = Some l ->
            connecting quiet l 0 2000 = Some hc ->
            tame (cr_sendfandreceive_course quiet hc
                    (idle [RxData (txt "-ERR" ++ CRLF)]) CR_BULK
                    (txt "INFO" ++ CRLF))).
  { intros l hc El Eh. inversion El; subst l.
    apply (f_equal (fun o => match o with Some x => x | None => fresh_handle end))
      in Eh.
    cbv beta iota in Eh. subst hc. vm_compute. reflexivity. }
  destruct (credis_connect_handle quiet (Some (mk_link 3 (txt "127.0.0.1")))
              (idle [RxData (txt "-ERR" ++ CRLF)]) n' (Some (txt "localhost"))
              0 2000 h
              ltac:(vm_compute; reflexivity) ltac:(vm_compute; discriminate)
              Htame E) as (W & _ & _ & _ & Hp & _).
  split; [exact W|exact Hp].
Defined.

(** ** Commands on the wire *)

(** X5.  A command of any modest length, longer than the buffer included,
    reaches the wire complete and unchanged in a tame and modest exchange
    when the allocator does not refuse and the socket takes that many
    bytes, in however many pieces; the result of the request is then the
    decoder's. *)
Theorem request_reaches_the_wire (P : platform) (h : cr_redis) (n : net)
    (t : ascii) (text : list ascii) (rooms : list nat) (s : list tx_event) :
  well_formed h -> generous P ->
  modest h n -> modest_text text ->
  tame (cr_sendfandreceive_course P h n t text) ->
  tx n = map TxSend rooms ++ s ->
  (length text <= list_sum rooms)%nat ->
  wire_out (snd (cr_sendfandreceive P h n t text)) = wire_out n ++ text /\
  decoder_code (fst (fst (cr_sendfandreceive P h n t text))).
Proof. intros Hw Hg _ _ _. apply cr_sendfandreceive_wire; assumption. Qed.

Lemma request_reaches_the_wire_witness :
  wire_out (snd (cr_sendfandreceive quiet fresh_handle
                   (mk_net [] [TxSend 4000; TxSend 4000] [])
                   CR_INLINE (repeat "x"%char 5000 ++ CRLF))) =
  repeat "x"%char 5000 ++ CRLF.
Proof.
  refine (proj1 (request_reaches_the_wire quiet fresh_handle
                   (mk_net [] [TxSend 4000; TxSend 4000] [])
                   CR_INLINE (repeat "x"%char 5000 ++ CRLF)
                   [4000; 4000]%nat [] _ (fun z => eq_refl) _ _ _ eq_refl _)).
  - vm_compute. repeat split; try reflexivity; discriminate.
  - split; vm_compute; discriminate.
  - vm_compute. discriminate.
  - vm_compute. reflexivity.
  - apply Nat.leb_le. vm_compute. reflexivity.
Defined.

(** X6.  PING, AUTH, MONITOR and SLAVEOF put their protocol line on the wire
    in a modest exchange: [credis_slaveof] asks for "no one" when the host
    is null or the port is 0, and for the host and the port in decimal
    otherwise. *)
Theorem plain_commands_on_the_wire (P : platform) (h : cr_redis) (n : net)
    (c : plain_command) (rooms : list nat) (s : list tx_event) :
  well_formed h -> generous P ->
  modest h n -> modest_text (command_line c) ->
  tx n = map TxSend rooms ++ s ->
  (length (command_line c) <= list_sum rooms)%nat ->
  wire_out (snd (issue P h n c)) = wire_out n ++ command_line c /\
  decoder_code (fst (fst (issue P h n c))).
Proof.
  intros Hw Hg _ _ Htx Hroom.
  destruct c as [|password| |[name|] port0]; unfold issue, command_line in *.
  - apply cr_sendfandreceive_wire with (rooms := rooms) (s := s); auto.
  - rewrite <- app_assoc in *.
    apply cr_sendfandreceive_wire with (rooms := rooms) (s := s); auto.
  - apply cr_sendfandreceive_wire with (rooms := rooms) (s := s); auto.
  - unfold credis_slaveof. destruct (port0 =? 0).
    + apply cr_sendfandreceive_wire with (rooms := rooms) (s := s); auto.
    + unfold SP. rewrite <- !app_assoc in *.
      apply cr_sendfandreceive_wire with (rooms := rooms) (s := s); auto.
  - apply cr_sendfandreceive_wire with (rooms := rooms) (s := s); auto.
Qed.

Lemma plain_commands_on_the_wire_witness :
  wire_out (snd (issue quiet fresh_handle (idle [])
                   (Slaveof (Some (txt "10.0.0.7")) 6380))) =
  txt "SLAVEOF 10.0.0.7 6380" ++ CRLF.
Proof.
  refine (proj1 (plain_commands_on_the_wire quiet fresh_handle (idle [])
                   (Slaveof (Some (txt "10.0.0.7")) 6380)
                   (repeat 4096%nat 16) [] _ (fun z => eq_refl) _ _ _ _)).
  - vm_compute. repeat split; try reflexivity; discriminate.
  - split; vm_compute; discriminate.
  - vm_compute. discriminate.
  - vm_compute. reflexivity.
  - apply Nat.leb_le. vm_compute. reflexivity.
Defined.

(** ** Line reads over the stream of a reply *)

Lemma cr_receivedata_live (n n1 : net) (msecs size rc : Z) (bytes : list ascii) :
  live (rx n) = true -> rx_bytes (rx n) <> [] -> 0 < size ->
  cr_receivedata n msecs size = (rc, bytes, n1) ->
  0 < rc /\ live (rx n1) = true.
Proof.
  unfold cr_receivedata. intros Hl Hb Hsz.
  destruct (rx n) as [|e r]; [contradiction Hb; reflexivity|].
  destruct e as [c| | | |]; try (contradiction Hb; reflexivity).
  destruct c as [|x c]; [discriminate Hl|].
  destruct (Z.to_nat size) as [|k] eqn:Ek; [lia|].
  simpl firstn. simpl skipn. intros H; inversion H; subst; clear H.
  split; [simpl length; lia|].
  simpl in Hl. destruct (skipn k c) as [|y rest]; simpl; exact Hl.
Qed.

Lemma peek_stream (P : platform) (h : cr_redis) (n : net) (j : Z) :
  sound (buf h) -> 0 <= j < buf_len (buf h) ->
  peek P (buf h) j = nth (Z.to_nat j) (stream h n) NUL.
Proof.
  intros (Ha & Hl) Hj. unfold allocated in Ha. unfold peek, in_alloc, stream.
  replace ((0 <=? j) && (j <? Z.of_nat (length (buf_data (buf h))))) with true
    by (symmetry; apply andb_true_iff; split; [apply Z.leb_le|apply Z.ltb_lt]; lia).
  rewrite app_nth1 by (rewrite length_firstn; lia).
  rewrite <- (firstn_skipn (Z.to_nat (buf_len (buf h))) (buf_data (buf h))) at 1.
  apply app_nth1. rewrite length_firstn. lia.
Qed.

Lemma stream_extends (P : platform) (h h' : cr_redis) (n n' : net) (got : list ascii) :
  extends P h h' got ->
  rx_bytes (rx n) = got ++ rx_bytes (rx n') ->
  stream h' n' = stream h n.
Proof.
  intros He Hb. unfold stream.
  rewrite (ext_data _ _ _ _ He), Hb, app_assoc. reflexivity.
Qed.

Lemma cr_moremem_generous (P : platform) (b : cr_buffer) (extra : Z) :
  generous P -> cr_moremem P b extra <> None.
Proof. intros Hg. unfold cr_moremem. rewrite Hg. discriminate. Qed.

Lemma cr_readln_loop_delivers (P : platform) (fuel : nat) :
  forall h n start q ex,
    generous P -> sound (buf h) -> live (rx n) = true ->
    0 <= buf_idx (buf h) + start <= q ->
    q + 1 < Z.of_nat (length (stream h n)) ->
    nth (Z.to_nat q) (stream h n) NUL = CR ->
    nth (Z.to_nat (q + 1)) (stream h n) NUL = LF ->
    cr_readln_loop P fuel h n start (more_needed (buf h) start) = Some ex ->
    exists nl h' n', ex = Found nl h' n' /\ live (rx n') = true.
Proof.
  induction fuel as [|fuel IH]; intros h n start q ex Hg Hs Hlive Hq Hlen Hcr Hlf H;
    [discriminate|].
  simpl in H.
  destruct (if 0 <? more_needed (buf h) start then None
            else cr_findnl (peek P (buf h)) (buf_idx (buf h) + start)
                   (Z.to_nat (buf_len (buf h) - (buf_idx (buf h) + start))))
    as [p|] eqn:Enl;
    [inversion H; subst; eauto|].
  destruct (if (buf_size (buf h) - buf_len (buf h) <? CR_BUFFER_WATERMARK)
               || (buf_size (buf h) - buf_len (buf h) <? more_needed (buf h) start)
            then cr_moremem P (buf h)
                   (if 0 <? more_needed (buf h) start
                    then more_needed (buf h) start else 1)
            else Some (buf h)) as [b1|] eqn:Eg;
    [|destruct (_ || _) in Eg; [exact (False_ind _ (cr_moremem_generous P _ _ Hg Eg))
                               |discriminate Eg]].
  pose proof (more_needed_nonneg (buf h) start) as Hmore.
  assert (Hext1 : extends P h (set_buf h b1) [] /\ 0 < buf_size b1 - buf_len b1).
  { destruct (_ || _) eqn:Eor in Eg.
    - assert (Hx : 0 <= (if 0 <? more_needed (buf h) start
                         then more_needed (buf h) start else 1))
        by (destruct (0 <? more_needed (buf h) start); lia).
      destruct (extends_grow P h b1 _ Hs Hx Eg) as (He & Hsz & _).
      split; [exact He|]. unfold CR_BUFFER_SIZE in Hsz. lia.
    - inversion Eg; subst b1. rewrite set_buf_buf.
      split; [apply extends_refl; exact Hs|].
      apply orb_false_iff in Eor. destruct Eor as (Ew & _).
      apply Z.ltb_ge in Ew. unfold CR_BUFFER_WATERMARK, CR_BUFFER_SIZE in Ew.
      simpl in Ew. lia. }
  destruct Hext1 as (Hext1 & Havail).
  destruct (cr_receivedata n (timeout h) (buf_size b1 - buf_len b1))
    as [[rc bytes] n1] eqn:Er.
  destruct (rx_bytes (rx n)) as [|x xs] eqn:Ebytes.
  - (* nothing more arrives: the terminator is in the buffer already *)
    exfalso. unfold stream in Hlen, Hcr, Hlf. rewrite Ebytes, app_nil_r in *.
    rewrite length_firstn in Hlen.
    assert (Hin : q + 1 < buf_len (buf h)) by lia.
    assert (Hm0 : (0 <? more_needed (buf h) start) = false).
    { unfold more_needed. destruct (_ <? 0) eqn:E; [reflexivity|].
      apply Z.ltb_ge in E. apply Z.ltb_ge. lia. }
    rewrite Hm0 in Enl.
    apply (cr_findnl_none _ _ _ Enl q); [lia|].
    split.
    + rewrite (peek_stream P h n q Hs ltac:(lia)). unfold stream.
      rewrite Ebytes, app_nil_r. exact Hcr.
    + rewrite (peek_stream P h n (q + 1) Hs ltac:(lia)). unfold stream.
      rewrite Ebytes, app_nil_r. exact Hlf.
  - destruct (cr_receivedata_live n n1 _ _ rc bytes Hlive
                ltac:(rewrite Ebytes; discriminate) Havail Er) as (Hpos & Hlive1).
    replace (0 <? rc) with true in H by (symmetry; apply Z.ltb_lt; exact Hpos).
    destruct (cr_receivedata_pos _ _ _ _ _ _ Er Hpos)
      as (Hrc & Hfit & Hrx & _ & Htx & Hwo).
    assert (Hext2 : extends P (set_buf h b1)
                      (set_buf h (store_received b1 bytes)) bytes).
    { apply (extends_store P (set_buf h b1) bytes).
      - apply (ext_sound _ _ _ _ Hext1).
      - exact Hfit. }
    pose proof (extends_trans _ _ _ _ _ _ Hext1 Hext2) as Hext. simpl in Hext.
    assert (Hst : stream (set_buf h (store_received b1 bytes)) n1 = stream h n).
    { apply (stream_extends P _ _ _ _ bytes Hext). exact Hrx. }
    apply (IH (set_buf h (store_received b1 bytes)) n1 start q ex); auto.
    + apply (ext_sound _ _ _ _ Hext).
    + rewrite (ext_idx _ _ _ _ Hext). exact Hq.
    + rewrite Hst. exact Hlen.
    + rewrite Hst. exact Hcr.
    + rewrite Hst. exact Hlf.
Qed.

Lemma firstn_poke (l : list ascii) (k i : nat) (c : ascii) :
  firstn k (poke l i c) = poke (firstn k l) i c.
Proof.
  revert k i; induction l as [|x l IH]; intros k i.
  - destruct i; simpl; rewrite firstn_nil; reflexivity.
  - destruct k as [|k]; [destruct i; reflexivity|].
    destruct i as [|i]; simpl; [reflexivity|]. f_equal. apply IH.
Qed.

Lemma poke_app1 (l1 l2 : list ascii) (i : nat) (c : ascii) :
  (i < length l1)%nat -> poke (l1 ++ l2) i c = poke l1 i c ++ l2.
Proof.
  revert i; induction l1 as [|x l1 IH]; intros i Hi; simpl in Hi; [lia|].
  destruct i as [|i]; simpl; [reflexivity|]. f_equal. apply IH. lia.
Qed.

Lemma cr_readln_stream (P : platform) (h : cr_redis) (n : net)
    (start line idx q : Z) :
  generous P -> sound (buf h) -> live (rx n) = true ->
  0 <= buf_idx (buf h) + start <= q ->
  q + 1 < Z.of_nat (length (stream h n)) ->
  nth (Z.to_nat q) (stream h n) NUL = CR ->
  nth (Z.to_nat (q + 1)) (stream h n) NUL = LF ->
  (forall j, buf_idx (buf h) + start <= j < q ->
             nth (Z.to_nat j) (stream h n) NUL <> CR) ->
  reads_to h n q (cr_readln P h n start line idx).
Proof.
  intros Hg Hs Hlive Hq Hlen Hcr Hlf Hno. unfold cr_readln.
  destruct (cr_readln_loop P (S (rx_weight (rx n))) h n start
              (more_needed (buf h) start)) as [ex|] eqn:E;
    [|exfalso; exact (cr_readln_loop_total P (S (rx_weight (rx n))) h n start _
                       (Nat.lt_succ_diag_r _) E)].
  destruct (cr_readln_loop_delivers P _ h n start q ex Hg Hs Hlive Hq Hlen Hcr Hlf E)
    as (nl & h' & n' & -> & Hlive').
  apply cr_readln_loop_spec in E; [|exact Hs]. simpl in E.
  destruct E as (got & Hext & Hb & Ht & Hw & Hl2 & Hnl & Hc & Hmin).
  pose proof (stream_extends P h h' n n' got Hext Hb) as Hst.
  pose proof (ext_sound _ _ _ _ Hext) as Hs'.
  assert (Hpk : forall j, 0 <= j < buf_len (buf h') ->
                          peek P (buf h') j = nth (Z.to_nat j) (stream h n) NUL).
  { intros j Hj. rewrite <- Hst. apply peek_stream; assumption. }
  assert (Hnlq : nl = q).
  { destruct (Z.lt_trichotomy nl q) as [Hlt|[Heq|Hgt]]; [|exact Heq|].
    - exfalso. apply (Hno nl); [lia|]. rewrite <- Hpk by lia. apply Hc.
    - exfalso. apply (Hmin q); [lia|].
      split; rewrite Hpk by lia; assumption. }
  subst nl.
  destruct Hs' as (Ha' & Hl').
  assert (Hin : in_alloc (buf h') q = true).
  { unfold in_alloc, allocated in *.
    apply andb_true_iff; split; [apply Z.leb_le|apply Z.ltb_lt]; lia. }
  unfold poke_buf. rewrite Hin.
  pose proof (ext_idx _ _ _ _ Hext) as Hi.
  constructor; simpl.
  - rewrite Hi. reflexivity.
  - exact Hi.
  - exact Hi.
  - reflexivity.
  - lia.
  - rewrite (ext_len _ _ _ _ Hext). lia.
  - split; [|simpl; exact Hl']. unfold allocated in *. simpl.
    rewrite poke_length. exact Ha'.
  - exact Hlive'.
  - unfold stream at 1. simpl. rewrite firstn_poke.
    rewrite <- poke_app1 by (rewrite length_firstn; unfold allocated in Ha'; lia).
    fold (stream h' n'). rewrite Hst. reflexivity.
  - rewrite (ext_rest _ _ _ _ Hext). reflexivity.
  - exact Ht.
  - exact Hw.
Qed.

Lemma poke_middle (l1 l2 : list ascii) (c d : ascii) :
  poke (l1 ++ c :: l2) (length l1) d = l1 ++ d :: l2.
Proof. induction l1 as [|x l1 IH]; simpl; [reflexivity|]. f_equal. exact IH. Qed.

(** What the buffer holds is the front of the stream. *)
Lemma stream_data (h : cr_redis) (n : net) (front back : list ascii) :
  sound (buf h) ->
  stream h n = front ++ back ->
  Z.of_nat (length front) <= buf_len (buf h) ->
  exists tail, buf_data (buf h) = front ++ tail.
Proof.
  intros (Ha & Hl) Hst Hf. unfold allocated in Ha. unfold stream in Hst.
  exists (skipn (length front) (buf_data (buf h))).
  rewrite <- (firstn_skipn (length front) (buf_data (buf h))) at 1. f_equal.
  apply (f_equal (firstn (length front))) in Hst.
  rewrite firstn_app, firstn_firstn in Hst.
  rewrite length_firstn in Hst.
  replace (Nat.min (length front) (Z.to_nat (buf_len (buf h))))
    with (length front) in Hst by lia.
  replace (length front - Nat.min _ _)%nat with O in Hst by lia.
  simpl in Hst. rewrite app_nil_r in Hst. rewrite Hst.
  rewrite firstn_app, firstn_all, Nat.sub_diag. simpl. apply app_nil_r.
Qed.

(** A string of the buffer read off the stream. *)
Lemma c_string_stream (h : cr_redis) (n : net) (pre text rest : list ascii) :
  sound (buf h) ->
  stream h n = pre ++ text ++ NUL :: rest ->
  Z.of_nat (length pre + length text) < buf_len (buf h) ->
  ~ In NUL text ->
  c_string (buf h) (Z.of_nat (length pre)) = text.
Proof.
  intros Hs Hst Hlen Hn.
  destruct (stream_data h n (pre ++ text ++ [NUL]) rest Hs) as (tail & Hd).
  - rewrite Hst, <- !app_assoc. reflexivity.
  - rewrite !length_app. simpl. lia.
  - unfold c_string.
    replace (0 <=? Z.of_nat (length pre)) with true by (symmetry; apply Z.leb_le; lia).
    rewrite Hd, Nat2Z.id, <- !app_assoc, skipn_app, skipn_all, Nat.sub_diag.
    simpl. rewrite c_string_of_cut. apply c_string_of_clean. exact Hn.
Qed.

(** The line that lies at the cursor of the stream is the line read,
    whatever the pieces it arrives in. *)
Lemma cr_readln_line (P : platform) (h : cr_redis) (n : net) (start line idx : Z)
    (pre text post : list ascii) :
  generous P -> sound (buf h) -> live (rx n) = true ->
  stream h n = pre ++ text ++ CRLF ++ post ->
  buf_idx (buf h) = Z.of_nat (length pre) ->
  0 <= start <= Z.of_nat (length text) ->
  ~ In CR (skipn (Z.to_nat start) text) ->
  reads_to h n (Z.of_nat (length pre + length text)) (cr_readln P h n start line idx) /\
  stream (rl_h (cr_readln P h n start line idx))
         (rl_net (cr_readln P h n start line idx)) =
    pre ++ text ++ NUL :: LF :: post.
Proof.
  intros Hg Hs Hlive Hst Hidx Hstart Hno.
  assert (Hpt : stream h n = (pre ++ text) ++ CR :: LF :: post)
    by (rewrite Hst, <- app_assoc; reflexivity).
  assert (Hr : reads_to h n (Z.of_nat (length pre + length text))
                 (cr_readln P h n start line idx)).
  { apply cr_readln_stream; auto.
    - lia.
    - rewrite Hpt, length_app. simpl. rewrite length_app. lia.
    - rewrite Nat2Z.id, Hpt, <- length_app. apply nth_middle.
    - replace (Z.to_nat (Z.of_nat (length pre + length text) + 1))
        with (S (length (pre ++ text))) by (rewrite length_app; lia).
      rewrite Hpt.
      change ((pre ++ text) ++ CR :: LF :: post)
        with ((pre ++ text) ++ [CR] ++ LF :: post).
      rewrite app_assoc.
      replace (S (length (pre ++ text))) with (length ((pre ++ text) ++ [CR]))
        by (rewrite (length_app (pre ++ text)); simpl; lia).
      apply nth_middle.
    - intros j Hj Hcr. apply Hno.
      rewrite Hst, app_nth2 in Hcr by lia.
      rewrite app_nth1 in Hcr by lia.
      replace (Z.to_nat j - length pre)%nat
        with (Z.to_nat start + (Z.to_nat j - length pre - Z.to_nat start))%nat
        in Hcr by lia.
      rewrite <- nth_skipn in Hcr. rewrite <- Hcr. apply nth_In.
      rewrite length_skipn. lia. }
  split; [exact Hr|].
  rewrite (rt_stream _ _ _ _ Hr), Hpt, Nat2Z.id, <- length_app, poke_middle.
  rewrite <- app_assoc. reflexivity.
Qed.

Lemma atoi_decimal (k : nat) : Z.of_nat k <= INT_MAX -> atoi (decimal k) = Z.of_nat k.
Proof.
  intros Hk. unfold atoi.
  rewrite <- (app_nil_r (decimal k)).
  rewrite (scan_int_decimal k [] eq_refl Hk). reflexivity.
Qed.

Lemma atoi_printf_d (v : Z) : INT_MIN <= v <= INT_MAX -> atoi (printf_d v) = v.
Proof.
  intros Hv. unfold printf_d. destruct (v <? 0) eqn:E.
  - apply Z.ltb_lt in E.
    pose proof (digits_decimal (Z.to_nat (- v)) [] eq_refl) as Hd.
    rewrite app_nil_r in Hd.
    destruct (decimal_cons (Z.to_nat (- v))) as (c & l & Hc & Hdig).
    unfold atoi, scan_int. simpl skip_space. rewrite Hc in Hd |- *.
    change (("-" =? "-")%char) with true. cbv iota beta.
    simpl starts_with_digit. rewrite Hdig, Hd.
    rewrite to_int_small by (unfold INT_MIN, INT_MAX in *; lia).
    lia.
  - apply Z.ltb_ge in E. rewrite atoi_decimal by lia. lia.
Qed.

(** ** Replies that arrive whole *)

Lemma cr_receivereply_prefix (P : platform) (h : cr_redis) (n : net) (t c : ascii) :
  0 < rl_rc (first_line P h n) ->
  peek P (buf (rl_h (first_line P h n))) (rl_line (first_line P h n)) = c ->
  cr_receivereply P h n t =
  let r := first_line P h n in
  let line := rl_line r + 1 in
  if negb (Ascii.eqb c t) && negb (Ascii.eqb c CR_ERROR)
  then (CREDIS_ERR_PROTOCOL, rl_h r, rl_net r)
  else if Ascii.eqb c CR_ERROR
  then (CREDIS_ERR_PROTOCOL, set_reply_line (rl_h r) (Some line), rl_net r)
  else if Ascii.eqb c CR_INLINE
  then (0, set_reply_line (rl_h r) (Some line), rl_net r)
  else if Ascii.eqb c CR_INT
  then (0, set_reply_integer (rl_h r) (atoi (c_string (buf (rl_h r)) line)), rl_net r)
  else if Ascii.eqb c CR_BULK then cr_receivebulk P (rl_h r) (rl_net r) line
  else if Ascii.eqb c CR_MULTIBULK then cr_receivemultibulk P (rl_h r) (rl_net r) line
  else (CREDIS_ERR_RECV, rl_h r, rl_net r).
Proof.
  intros Hrc Hc. unfold cr_receivereply. fold (first_line P h n).
  replace (0 <? rl_rc (first_line P h n)) with true
    by (symmetry; apply Z.ltb_lt; exact Hrc).
  rewrite Hc. reflexivity.
Qed.

(** The first line of a reply that arrives whole. *)
Lemma first_line_stream (P : platform) (h : cr_redis) (n : net) (c : ascii)
    (text post : list ascii) :
  generous P -> allocated (buf h) -> live (rx n) = true ->
  rx_bytes (rx n) = c :: text ++ CRLF ++ post ->
  c <> CR -> ~ In CR text ->
  let r := first_line P h n in
  rl_rc r = Z.of_nat (S (length text)) /\ rl_line r = 0 /\
  peek P (buf (rl_h r)) 0 = c /\
  buf_idx (buf (rl_h r)) = Z.of_nat (length text) + 3 /\
  Z.of_nat (S (length text)) < buf_len (buf (rl_h r)) /\
  sound (buf (rl_h r)) /\ live (rx (rl_net r)) = true /\
  stream (rl_h r) (rl_net r) = c :: text ++ NUL :: LF :: post /\
  reply (rl_h r) = reply h.
Proof.
  intros Hg Ha Hlive Hb Hc Hno r. subst r. unfold first_line.
  set (h0 := set_buf h (reset_buffer (buf h))).
  assert (Hs0 : sound (buf h0)).
  { unfold sound, allocated in *. simpl. split; [exact Ha|lia]. }
  destruct (cr_readln_line P h0 n 0 (junk_int P) (junk_int P) [] (c :: text) post
              Hg Hs0 Hlive) as (Hr & Hst).
  - unfold stream. simpl. exact Hb.
  - reflexivity.
  - simpl length. lia.
  - simpl. intros [He|Hi]; [apply Hc; exact He|exact (Hno Hi)].
  - set (r := cr_readln P h0 n 0 (junk_int P) (junk_int P)) in *.
    destruct Hr as [Hrc Hline _ Hcur Hfill _ Hs Hl Hstr Hrest _ _].
    simpl in Hrc, Hline, Hcur, Hfill.
    split; [lia|]. split; [exact Hline|]. split.
    { rewrite (peek_stream P (rl_h r) (rl_net r) 0 Hs ltac:(lia)), Hst.
      reflexivity. }
    split; [lia|]. split; [lia|]. split; [exact Hs|]. split; [exact Hl|].
    split; [exact Hst|]. rewrite Hrest. reflexivity.
Qed.

Lemma cr_receivereply_status (P : platform) (h : cr_redis) (n : net)
    (text post : list ascii) :
  generous P -> allocated (buf h) -> live (rx n) = true ->
  rx_bytes (rx n) = CR_INLINE :: text ++ CRLF ++ post ->
  ~ In CR text -> ~ In NUL text ->
  let r := cr_receivereply P h n CR_INLINE in
  fst (fst r) = 0 /\
  view_string (decoded r) (reply_line (reply (decoded r))) = Some text.
Proof.
  intros Hg Ha Hlive Hb Hcr Hnul r.
  destruct (first_line_stream P h n CR_INLINE text post Hg Ha Hlive Hb
              ltac:(discriminate) Hcr)
    as (Hrc & Hline & Hpk & Hcur & Hfill & Hs & Hl & Hst & _).
  unfold r. rewrite (cr_receivereply_prefix P h n CR_INLINE CR_INLINE)
    by (rewrite ?Hline; auto; lia).
  simpl. unfold decoded. simpl. rewrite Hline. simpl.
  split; [reflexivity|].
  f_equal. apply (c_string_stream _ (rl_net (first_line P h n))
                    [CR_INLINE] text (LF :: post) Hs Hst); [simpl; lia|exact Hnul].
Qed.

(** X7.  A status reply that arrives whole in a modest exchange, in any
    pieces, is decoded to its text. *)
Theorem status_reply_decoded (P : platform) (h : cr_redis) (n : net)
    (text post : list ascii) :
  generous P -> allocated (buf h) -> modest h n -> live (rx n) = true ->
  rx_bytes (rx n) = CR_INLINE :: text ++ CRLF ++ post ->
  ~ In CR text -> ~ In NUL text ->
  let r := cr_receivereply P h n CR_INLINE in
  fst (fst r) = 0 /\
  view_string (decoded r) (reply_line (reply (decoded r))) = Some text.
Proof.
  intros Hg Ha _. exact (cr_receivereply_status P h n text post Hg Ha).
Qed.

Lemma status_reply_decoded_witness :
  view_string
    (decoded (cr_receivereply quiet (rendered fresh_handle (txt "PING" ++ CRLF))
                (idle [RxData (txt "+PO"); RxData (txt "NG" ++ [CR]); RxData [LF]])
                CR_INLINE))
    (reply_line (reply (decoded
       (cr_receivereply quiet (rendered fresh_handle (txt "PING" ++ CRLF))
          (idle [RxData (txt "+PO"); RxData (txt "NG" ++ [CR]); RxData [LF]])
          CR_INLINE)))) = Some (txt "PONG").
Proof.
  refine (proj2 (status_reply_decoded quiet (rendered fresh_handle (txt "PING" ++ CRLF))
                   (idle [RxData (txt "+PO"); RxData (txt "NG" ++ [CR]); RxData [LF]])
                   (txt "PONG") [] (fun z => eq_refl) _ _ eq_refl eq_refl _ _)).
  - vm_compute. reflexivity.
  - split; vm_compute; discriminate.
  - vm_compute. intuition discriminate.
  - vm_compute. intuition discriminate.
Defined.

Lemma uint_digits (d : Decimal.uint) (c : ascii) :
  In c (list_ascii_of_string (NilEmpty.string_of_uint d)) -> isdigit c = true.
Proof.
  induction d; simpl; try tauto; intros [<-|H]; auto.
Qed.

Lemma decimal_digits (k : nat) (c : ascii) : In c (decimal k) -> isdigit c = true.
Proof.
  unfold decimal, NilZero.string_of_uint.
  destruct (Nat.to_uint k) eqn:E; try apply uint_digits.
  simpl. intros [<-|[]]. reflexivity.
Qed.

Lemma printf_d_plain (v : Z) : ~ In CR (printf_d v) /\ ~ In NUL (printf_d v).
Proof.
  assert (H : forall c, isdigit c = false -> c <> "-"%char -> ~ In c (printf_d v)).
  { intros c Hc Hm Hin. unfold printf_d in Hin.
    destruct (v <? 0); [destruct Hin as [He|Hin]; [exact (Hm (eq_sym He))|]|];
      apply decimal_digits in Hin; congruence. }
  split; apply H; try reflexivity; discriminate.
Qed.

Lemma cr_receivereply_integer (P : platform) (h : cr_redis) (n : net)
    (v : Z) (post : list ascii) :
  generous P -> allocated (buf h) -> live (rx n) = true ->
  rx_bytes (rx n) = CR_INT :: printf_d v ++ CRLF ++ post ->
  INT_MIN <= v <= INT_MAX ->
  fst (fst (cr_receivereply P h n CR_INT)) = 0 /\
  reply_integer (reply (decoded (cr_receivereply P h n CR_INT))) = v.
Proof.
  intros Hg Ha Hlive Hb Hv.
  destruct (printf_d_plain v) as (Hcr & Hnul).
  destruct (first_line_stream P h n CR_INT (printf_d v) post Hg Ha Hlive Hb
              ltac:(discriminate) Hcr)
    as (Hrc & Hline & Hpk & Hcur & Hfill & Hs & Hl & Hst & _).
  rewrite (cr_receivereply_prefix P h n CR_INT CR_INT)
    by (rewrite ?Hline; auto; lia).
  simpl. unfold decoded. simpl. rewrite Hline. simpl.
  split; [reflexivity|].
  pose proof (c_string_stream _ (rl_net (first_line P h n))
                [CR_INT] (printf_d v) (LF :: post) Hs Hst ltac:(simpl; lia) Hnul)
    as Hstr.
  simpl in Hstr. rewrite Hstr.
  apply atoi_printf_d. exact Hv.
Qed.

(** X8.  An integer reply that arrives whole, in any pieces, is decoded to the
    number it prints, for every number of the range of [int]. *)
Theorem integer_reply_decoded (P : platform) (h : cr_redis) (n : net)
    (v : Z) (post : list ascii) :
  generous P -> allocated (buf h) -> live (rx n) = true ->
  rx_bytes (rx n) = CR_INT :: printf_d v ++ CRLF ++ post ->
  INT_MIN <= v <= INT_MAX ->
  fst (fst (cr_receivereply P h n CR_INT)) = 0 /\
  reply_integer (reply (decoded (cr_receivereply P h n CR_INT))) = v.
Proof. exact (cr_receivereply_integer P h n v post). Qed.

Lemma integer_reply_decoded_witness :
  reply_integer (reply (decoded
    (cr_receivereply quiet fresh_handle
       (idle [RxData (txt ":-1"); RxData (txt "7" ++ CRLF)]) CR_INT))) = -17.
Proof.
  refine (proj2 (integer_reply_decoded quiet fresh_handle
                   (idle [RxData (txt ":-1"); RxData (txt "7" ++ CRLF)])
                   (-17) [] (fun z => eq_refl) _ eq_refl eq_refl _)).
  - vm_compute. reflexivity.
  - vm_compute. split; discriminate.
Defined.

(** X9.  A reply that arrives whole in a modest exchange but is of another
    type than the one expected, and not an error reply, gives
    CREDIS_ERR_PROTOCOL and leaves the reply fields of the handle as they
    were. *)
Theorem unexpected_reply_type (P : platform) (h : cr_redis) (n : net)
    (t c : ascii) (text post : list ascii) :
  generous P -> allocated (buf h) -> modest h n -> live (rx n) = true ->
  rx_bytes (rx n) = c :: text ++ CRLF ++ post ->
  c <> CR -> ~ In CR text ->
  c <> t -> c <> CR_ERROR ->
  fst (fst (cr_receivereply P h n t)) = CREDIS_ERR_PROTOCOL /\
  reply (decoded (cr_receivereply P h n t)) = reply h.
Proof.
  intros Hg Ha _ Hlive Hb Hc Hcr Ht He.
  destruct (first_line_stream P h n c text post Hg Ha Hlive Hb Hc Hcr)
    as (Hrc & Hline & Hpk & _ & _ & _ & _ & _ & Hrep).
  rewrite (cr_receivereply_prefix P h n t c) by (rewrite ?Hline; auto; lia).
  apply Ascii.eqb_neq in Ht, He. cbv zeta. rewrite Ht, He. simpl.
  split; [reflexivity|exact Hrep].
Qed.

Lemma unexpected_reply_type_witness :
  fst (fst (cr_receivereply quiet fresh_handle
              (idle [RxData (txt "+OK" ++ CRLF)]) CR_INT)) = CREDIS_ERR_PROTOCOL.
Proof.
  refine (proj1 (unexpected_reply_type quiet fresh_handle
                   (idle [RxData (txt "+OK" ++ CRLF)]) CR_INT "+"%char
                   (txt "OK") [] (fun z => eq_refl) _ _ eq_refl eq_refl _ _ _ _)).
  - vm_compute. reflexivity.
  - split; vm_compute; discriminate.
  - discriminate.
  - vm_compute. intuition discriminate.
  - discriminate.
  - discriminate.
Defined.

(** X10.  When the bytes that arrive contain no carriage return, the reply has
    no line end and [cr_receivereply] gives CREDIS_ERR_RECV, whatever type
    was expected, and leaves the reply fields of the handle as they were. *)
Theorem reply_without_line_end (P : platform) (h : cr_redis) (n : net) (t : ascii) :
  allocated (buf h) ->
  ~ In CR (rx_bytes (rx n)) ->
  fst (fst (cr_receivereply P h n t)) = CREDIS_ERR_RECV /\
  reply (decoded (cr_receivereply P h n t)) = reply h.
Proof.
  intros Ha Hno.
  set (h0 := set_buf h (reset_buffer (buf h))).
  assert (Hs0 : sound (buf h0)).
  { unfold sound, allocated in *. simpl. split; [exact Ha|lia]. }
  assert (Hrc : rl_rc (first_line P h n) <= 0).
  { destruct (cr_readln_cases P h0 n 0 (junk_int P) (junk_int P) Hs0 ltac:(simpl; lia))
      as [Hf|Hm].
    - exfalso. destruct Hf as (nl & hm & got & Hext & Hb & _ & _ & Hnl & Hc & _).
      apply Hno.
      pose proof (stream_extends P h0 hm n _ got Hext Hb) as Hst.
      simpl in Hnl.
      rewrite <- (proj1 Hc).
      rewrite (peek_stream P hm (rl_net (cr_readln P h0 n 0 (junk_int P) (junk_int P)))
                 nl (ext_sound _ _ _ _ Hext) ltac:(lia)).
      rewrite Hst. unfold stream. simpl. apply nth_In.
      pose proof (f_equal (@length ascii) Hst) as Hlen.
      unfold stream in Hlen. simpl in Hlen.
      rewrite length_app, length_firstn in Hlen.
      destruct (ext_sound _ _ _ _ Hext) as (Hal & Hl). unfold allocated in Hal. lia.
    - destruct Hm as (_ & _ & _ & _ & _ & Hcode).
      unfold first_line. fold h0. unfold CREDIS_ERR_NOMEM in Hcode. lia. }
  unfold cr_receivereply, decoded. fold (first_line P h n).
  replace (0 <? rl_rc (first_line P h n)) with false
    by (symmetry; apply Z.ltb_ge; exact Hrc).
  simpl. split; [reflexivity|].
  unfold first_line. rewrite cr_readln_reply. reflexivity.
Qed.

Lemma reply_without_line_end_witness :
  fst (fst (cr_receivereply quiet fresh_handle
              (idle [RxData (txt "+PON"); RxClosed]) CR_INLINE)) = CREDIS_ERR_RECV.
Proof.
  refine (proj1 (reply_without_line_end quiet fresh_handle
                   (idle [RxData (txt "+PON"); RxClosed]) CR_INLINE _ _)).
  - vm_compute. reflexivity.
  - vm_compute. intuition discriminate.
Defined.

Lemma decimal_plain (k : nat) : ~ In CR (decimal k) /\ ~ In NUL (decimal k).
Proof.
  split; intros Hin; apply decimal_digits in Hin; discriminate Hin.
Qed.

(** The second line of a bulk value: the payload, found by its length. *)
Lemma bulk_body (P : platform) (h : cr_redis) (n : net) (line idx : Z)
    (pre p post : list ascii) :
  generous P -> sound (buf h) -> live (rx n) = true ->
  stream h n = pre ++ p ++ CRLF ++ post ->
  buf_idx (buf h) = Z.of_nat (length pre) ->
  ~ In NUL p ->
  let r := cr_readln P h n (Z.of_nat (length p)) line idx in
  reads_to h n (Z.of_nat (length pre + length p)) r /\
  stream (rl_h r) (rl_net r) = pre ++ p ++ NUL :: LF :: post /\
  c_string (buf (rl_h r)) (Z.of_nat (length pre)) = p.
Proof.
  intros Hg Hs Hlive Hst Hidx Hnul r.
  destruct (cr_readln_line P h n (Z.of_nat (length p)) line idx pre p post
              Hg Hs Hlive Hst Hidx ltac:(lia)) as (Hr & Hst').
  { rewrite Nat2Z.id, skipn_all. intros []. }
  fold r in Hr, Hst'. split; [exact Hr|]. split; [exact Hst'|].
  apply (c_string_stream _ (rl_net r) pre p (LF :: post)
           (rt_sound _ _ _ _ Hr) Hst'); [|exact Hnul].
  apply (rt_fill _ _ _ _ Hr).
Qed.

Lemma cr_receivereply_bulk (P : platform) (h : cr_redis) (n : net)
    (item : option (list ascii)) (post : list ascii) :
  generous P -> allocated (buf h) -> live (rx n) = true ->
  rx_bytes (rx n) = encode_bulk item ++ post ->
  plain_payload item ->
  fst (fst (cr_receivereply P h n CR_BULK)) = 0 /\
  bulk_value (cr_receivereply P h n CR_BULK) = item /\
  forall p, item = Some p ->
    exists front tail,
      reply_bulk (reply (decoded (cr_receivereply P h n CR_BULK))) =
        Some (Z.of_nat (length front)) /\
      buf_data (buf (decoded (cr_receivereply P h n CR_BULK))) =
        front ++ p ++ NUL :: tail.
Proof.
  intros Hg Ha Hlive Hb Hp.
  destruct item as [p|]; unfold encode_bulk in Hb; simpl in Hp.
  - destruct Hp as (Hnul & Hmax).
    destruct (decimal_plain (length p)) as (Hdcr & Hdnul).
    rewrite <- app_comm_cons, <- !app_assoc in Hb.
    destruct (first_line_stream P h n CR_BULK (decimal (length p))
                (p ++ CRLF ++ post) Hg Ha Hlive Hb ltac:(discriminate) Hdcr)
      as (Hrc & Hline & Hpk & Hcur & Hfill & Hs & Hl & Hst & _).
    rewrite (cr_receivereply_prefix P h n CR_BULK CR_BULK)
      by (rewrite ?Hline; auto; lia).
    cbv zeta. simpl negb. simpl Ascii.eqb. cbv iota. rewrite Hline.
    set (h1 := rl_h (first_line P h n)) in *.
    set (n1 := rl_net (first_line P h n)) in *.
    pose proof (c_string_stream h1 n1 [CR_BULK] (decimal (length p))
                  (LF :: p ++ CRLF ++ post) Hs Hst ltac:(simpl; lia) Hdnul) as Hlen.
    simpl in Hlen.
    unfold cr_receivebulk. simpl (0 + 1). rewrite Hlen, atoi_decimal by exact Hmax.
    replace (Z.of_nat (length p) =? -1) with false by (symmetry; apply Z.eqb_neq; lia).
    set (pre := CR_BULK :: decimal (length p) ++ [NUL; LF]).
    assert (Hpre : Z.of_nat (length pre) = buf_idx (buf h1)).
    { unfold pre. simpl length. rewrite length_app. simpl length. lia. }
    destruct (bulk_body P h1 n1 1 (junk_int P) pre p post Hg Hs Hl)
      as (Hr & Hst2 & Hstr); auto.
    { rewrite Hst. unfold pre. simpl. rewrite <- app_assoc. reflexivity. }
    set (r2 := cr_readln P h1 n1 (Z.of_nat (length p)) 1 (junk_int P)) in *.
    replace (0 <=? rl_rc r2) with true
      by (symmetry; apply Z.leb_le; rewrite (rt_rc _ _ _ _ Hr); lia).
    unfold bulk_value, decoded. simpl.
    split; [reflexivity|].
    split; [rewrite (rt_line _ _ _ _ Hr), <- Hpre, Hstr; reflexivity|].
    intros p0 Hp0. injection Hp0 as <-.
    destruct (stream_data (rl_h r2) (rl_net r2) (pre ++ p ++ [NUL]) (LF :: post)
                (rt_sound _ _ _ _ Hr)) as (tail & Hd).
    { rewrite Hst2, <- !app_assoc. reflexivity. }
    { pose proof (rt_fill _ _ _ _ Hr) as Hf. rewrite !length_app.
      change (length [NUL]) with 1%nat. lia. }
    exists pre, tail. split; [rewrite (rt_line _ _ _ _ Hr), <- Hpre; reflexivity|].
    rewrite Hd, <- !app_assoc. reflexivity.
  - destruct (first_line_stream P h n CR_BULK (txt "-1") post Hg Ha Hlive Hb
                ltac:(discriminate) ltac:(simpl; intuition discriminate))
      as (Hrc & Hline & Hpk & Hcur & Hfill & Hs & Hl & Hst & _).
    rewrite (cr_receivereply_prefix P h n CR_BULK CR_BULK)
      by (rewrite ?Hline; auto; lia).
    cbv zeta. simpl negb. simpl Ascii.eqb. cbv iota. rewrite Hline.
    pose proof (c_string_stream _ (rl_net (first_line P h n)) [CR_BULK] (txt "-1")
                  (LF :: post) Hs Hst ltac:(simpl in Hfill |- *; lia)
                  ltac:(simpl; intuition discriminate)) as Hlen.
    simpl in Hlen.
    unfold cr_receivebulk. simpl (0 + 1). rewrite Hlen.
    replace (atoi (txt "-1")) with (-1) by (vm_compute; reflexivity).
    split; [reflexivity|]. split; [reflexivity|]. intros p0 Hp0. discriminate Hp0.
Qed.

(** X11.  A bulk reply that arrives whole in a modest exchange, in any
    pieces, is decoded to its payload, line ends inside the payload
    included; the reply of the value that does not exist is decoded to the
    null pointer. *)
Theorem bulk_reply_decoded (P : platform) (h : cr_redis) (n : net)
    (item : option (list ascii)) (post : list ascii) :
  generous P -> allocated (buf h) -> modest h n -> live (rx n) = true ->
  rx_bytes (rx n) = encode_bulk item ++ post ->
  plain_payload item ->
  fst (fst (cr_receivereply P h n CR_BULK)) = 0 /\
  bulk_value (cr_receivereply P h n CR_BULK) = item.
Proof.
  intros Hg Ha _ Hlive Hb Hp.
  destruct (cr_receivereply_bulk P h n item post Hg Ha Hlive Hb Hp) as (H1 & H2 & _).
  split; assumption.
Qed.

Lemma bulk_reply_decoded_witness :
  bulk_value (cr_receivereply quiet fresh_handle
                (idle [RxData (txt "$7" ++ CRLF ++ txt "a" ++ [CR]);
                       RxData (LF :: txt "b" ++ CRLF ++ txt "c" ++ CRLF)])
                CR_BULK) = Some (txt "a" ++ CRLF ++ txt "b" ++ CRLF ++ txt "c").
Proof.
  refine (proj2 (bulk_reply_decoded quiet fresh_handle
                   (idle [RxData (txt "$7" ++ CRLF ++ txt "a" ++ [CR]);
                          RxData (LF :: txt "b" ++ CRLF ++ txt "c" ++ CRLF)])
                   (Some (txt "a" ++ CRLF ++ txt "b" ++ CRLF ++ txt "c")) []
                   (fun z => eq_refl) _ _ eq_refl eq_refl _)).
  - vm_compute. reflexivity.
  - split; vm_compute; discriminate.
  - vm_compute. split; [intuition discriminate|discriminate].
Defined.

(** ** Multibulk replies that arrive whole *)

Lemma firstn_upd (A : Type) (l : list A) (i : nat) (x : A) :
  (i < length l)%nat -> firstn (S i) (upd l i x) = firstn i l ++ [x].
Proof.
  revert i; induction l as [|y l IH]; intros i Hi; simpl in Hi; [lia|].
  destruct i as [|i]; [reflexivity|].
  change (y :: firstn (S i) (upd l i x) = y :: firstn i l ++ [x]).
  f_equal. apply IH. lia.
Qed.

Lemma skipn_upd (A : Type) (l : list A) (i k : nat) (x : A) :
  (i < k)%nat -> skipn k (upd l i x) = skipn k l.
Proof.
  revert i k; induction l as [|y l IH]; intros i k Hi.
  - destruct i; destruct k; reflexivity.
  - destruct k as [|k]; [lia|]. destruct i as [|i]; [reflexivity|].
    simpl. apply IH. lia.
Qed.

Lemma recorded_app (done more : list ascii) (item : option (list ascii)) (ix : Z) :
  recorded done item ix -> recorded (done ++ more) item ix.
Proof.
  destruct item as [p|]; simpl; [|auto].
  intros (Hpos & front & back & Hd & Hf). split; [exact Hpos|].
  exists front, (back ++ more). split; [|exact Hf].
  rewrite Hd, <- !app_assoc. reflexivity.
Qed.

(** The length line of an element. *)
Lemma bulk_header (P : platform) (h : cr_redis) (n : net) (line idx : Z)
    (done digits post : list ascii) :
  generous P -> sound (buf h) -> live (rx n) = true ->
  stream h n = done ++ (CR_BULK :: digits) ++ CRLF ++ post ->
  buf_idx (buf h) = Z.of_nat (length done) ->
  ~ In CR digits -> ~ In NUL digits ->
  let r := cr_readln P h n 0 line idx in
  reads_to h n (Z.of_nat (length done + S (length digits))) r /\
  stream (rl_h r) (rl_net r) = (done ++ CR_BULK :: digits ++ [NUL; LF]) ++ post /\
  (0 <? rl_rc r) = true /\
  peek P (buf (rl_h r)) (rl_line r) = CR_BULK /\
  c_string (buf (rl_h r)) (rl_line r + 1) = digits /\
  buf_idx (buf (rl_h r)) = Z.of_nat (length (done ++ CR_BULK :: digits ++ [NUL; LF])).
Proof.
  intros Hg Hs Hlive Hst Hidx Hcr Hnul r.
  destruct (cr_readln_line P h n 0 line idx done (CR_BULK :: digits) post
              Hg Hs Hlive Hst Hidx ltac:(simpl length; lia)) as (Hr & Hst').
  { simpl. intros [He|Hi]; [discriminate He|exact (Hcr Hi)]. }
  fold r in Hr, Hst'.
  pose proof (rt_fill _ _ _ _ Hr) as Hfill. simpl length in Hfill.
  split; [exact Hr|]. split.
  { rewrite Hst'. repeat first [rewrite <- app_assoc | progress simpl]. reflexivity. }
  split; [apply Z.ltb_lt; rewrite (rt_rc _ _ _ _ Hr); simpl length; lia|].
  split; [|split].
  - rewrite (rt_line _ _ _ _ Hr), Hidx.
    rewrite (peek_stream P (rl_h r) (rl_net r) (Z.of_nat (length done))
               (rt_sound _ _ _ _ Hr) ltac:(lia)).
    rewrite Hst', Nat2Z.id. apply nth_middle.
  - rewrite (rt_line _ _ _ _ Hr), Hidx.
    replace (Z.of_nat (length done) + 1) with (Z.of_nat (length (done ++ [CR_BULK])))
      by (rewrite length_app; simpl; lia).
    apply (c_string_stream _ (rl_net r) (done ++ [CR_BULK]) digits (LF :: post)
             (rt_sound _ _ _ _ Hr)); [| |exact Hnul].
    + rewrite Hst'. repeat first [rewrite <- app_assoc | progress simpl]. reflexivity.
    + rewrite length_app. simpl length. lia.
  - rewrite (rt_cursor _ _ _ _ Hr), length_app. simpl length.
    rewrite length_app. simpl length. lia.
Qed.

Lemma multibulk_loop_step (P : platform) (k : nat) (h : cr_redis) (n : net)
    (i bnum line idx : Z) :
  multibulk_loop P (S k) h n i bnum line idx =
  let r := cr_readln P h n 0 line idx in
  if 0 <? rl_rc r then
    if negb (Ascii.eqb (peek P (buf (rl_h r)) (rl_line r)) CR_BULK)
    then MbReturn CREDIS_ERR_PROTOCOL (rl_h r) (rl_net r)
    else
      if atoi (c_string (buf (rl_h r)) (rl_line r + 1)) =? -1
      then multibulk_loop P k (set_idxs (rl_h r) i (-1)) (rl_net r)
                          (i + 1) (bnum - 1) (rl_line r + 1) idx
      else
        let r2 := cr_readln P (rl_h r) (rl_net r)
                    (atoi (c_string (buf (rl_h r)) (rl_line r + 1)))
                    (rl_line r + 1) idx in
        if negb (rl_rc r2 =? atoi (c_string (buf (rl_h r)) (rl_line r + 1)))
        then MbReturn CREDIS_ERR_PROTOCOL (rl_h r2) (rl_net r2)
        else multibulk_loop P k (set_idxs (rl_h r2) i (rl_idx r2)) (rl_net r2)
                            (i + 1) (bnum - 1) (rl_line r2) (rl_idx r2)
  else MbDone i bnum (rl_h r) (rl_net r).
Proof. reflexivity. Qed.

Lemma set_idxs_at (h : cr_redis) (i : nat) (v : Z) :
  buf (set_idxs h (Z.of_nat i) v) = buf h /\
  mb_idxs (reply_multibulk (reply (set_idxs h (Z.of_nat i) v))) =
    upd (mb_idxs (reply_multibulk (reply h))) i v /\
  mb_bulks (reply_multibulk (reply (set_idxs h (Z.of_nat i) v))) =
    mb_bulks (reply_multibulk (reply h)) /\
  mb_size (reply_multibulk (reply (set_idxs h (Z.of_nat i) v))) =
    mb_size (reply_multibulk (reply h)).
Proof.
  unfold set_idxs. simpl.
  replace (0 <=? Z.of_nat i) with true by (symmetry; apply Z.leb_le; lia).
  rewrite Nat2Z.id. auto.
Qed.

Lemma idxs_step (l offs : list Z) (i k : nat) (off : Z) :
  (i + S k <= length l)%nat ->
  firstn (S i) (upd l i off) ++ offs ++ skipn (S i + k) (upd l i off) =
  firstn i l ++ (off :: offs) ++ skipn (i + S k) l.
Proof.
  intros Hl. replace (S i + k)%nat with (i + S k)%nat by lia.
  rewrite firstn_upd by lia. rewrite skipn_upd by lia.
  rewrite <- app_assoc. reflexivity.
Qed.

(** One element of a multibulk reply: the loop records its offset and
    goes on behind it. *)
Lemma multibulk_element (P : platform) (h : cr_redis) (n : net) (i k : nat)
    (line idx : Z) (done post : list ascii) (item : option (list ascii)) :
  generous P -> sound (buf h) -> live (rx n) = true ->
  stream h n = done ++ encode_bulk item ++ post ->
  buf_idx (buf h) = Z.of_nat (length done) ->
  (0 < length done)%nat ->
  plain_payload item ->
  exists h2 n2 tail off line2 idx2,
    multibulk_loop P (S k) h n (Z.of_nat i) (Z.of_nat (S k)) line idx =
      multibulk_loop P k h2 n2 (Z.of_nat (S i)) (Z.of_nat k) line2 idx2 /\
    sound (buf h2) /\ live (rx n2) = true /\
    stream h2 n2 = (done ++ tail) ++ post /\
    buf_idx (buf h2) = Z.of_nat (length (done ++ tail)) /\
    Z.of_nat (length (done ++ tail)) <= buf_len (buf h2) + 1 /\
    recorded (done ++ tail) item off /\
    mb_idxs (reply_multibulk (reply h2)) =
      upd (mb_idxs (reply_multibulk (reply h))) i off /\
    mb_bulks (reply_multibulk (reply h2)) = mb_bulks (reply_multibulk (reply h)) /\
    mb_size (reply_multibulk (reply h2)) = mb_size (reply_multibulk (reply h)).
Proof.
  intros Hg Hs Hlive Hst Hidx Hdone Hp.
  assert (Hi1 : Z.of_nat i + 1 = Z.of_nat (S i)) by lia.
  assert (Hk1 : Z.of_nat (S k) - 1 = Z.of_nat k) by lia.
  destruct item as [p|]; unfold encode_bulk in Hst; simpl in Hp.
  - destruct Hp as (Hnul & Hmax).
    destruct (decimal_plain (length p)) as (Hdcr & Hdnul).
    destruct (bulk_header P h n line idx done (decimal (length p))
                (p ++ CRLF ++ post) Hg Hs Hlive) as (Hr & Hst1 & Hrc & Hpk & Hstr & Hcur);
      auto.
    { rewrite Hst. repeat first [rewrite <- app_assoc | progress simpl]. reflexivity. }
    set (r := cr_readln P h n 0 line idx) in *.
    set (pre2 := done ++ CR_BULK :: decimal (length p) ++ [NUL; LF]) in *.
    destruct (bulk_body P (rl_h r) (rl_net r) (rl_line r + 1) idx pre2 p post Hg
                (rt_sound _ _ _ _ Hr) (rt_live _ _ _ _ Hr) Hst1 Hcur Hnul)
      as (Hr2 & Hst2 & Hstr2).
    set (r2 := cr_readln P (rl_h r) (rl_net r) (Z.of_nat (length p))
                 (rl_line r + 1) idx) in *.
    destruct (set_idxs_at (rl_h r2) i (rl_idx r2)) as (Hb & Hix & Hbk & Hsz).
    exists (set_idxs (rl_h r2) (Z.of_nat i) (rl_idx r2)), (rl_net r2),
           ((CR_BULK :: decimal (length p) ++ [NUL; LF]) ++ p ++ [NUL; LF]),
           (rl_idx r2), (rl_line r2), (rl_idx r2).
    assert (Hdone2 : done ++ (CR_BULK :: decimal (length p) ++ [NUL; LF]) ++ p ++ [NUL; LF]
                     = pre2 ++ p ++ [NUL; LF])
      by (unfold pre2; rewrite <- !app_assoc; reflexivity).
    rewrite Hdone2.
    assert (Hrep : reply (rl_h r2) = reply h).
    { rewrite (rt_rest _ _ _ _ Hr2). simpl. rewrite (rt_rest _ _ _ _ Hr). reflexivity. }
    split.
    { rewrite multibulk_loop_step. cbv zeta. fold r. rewrite Hrc, Hpk.
      change (negb (Ascii.eqb CR_BULK CR_BULK)) with false. cbv iota.
      rewrite Hstr, atoi_decimal by exact Hmax.
      replace (Z.of_nat (length p) =? -1) with false
        by (symmetry; apply Z.eqb_neq; lia).
      fold r2.
      replace (rl_rc r2 =? Z.of_nat (length p)) with true
        by (symmetry; apply Z.eqb_eq; rewrite (rt_rc _ _ _ _ Hr2), Hcur; lia).
      simpl negb. cbv iota. rewrite Hi1, Hk1. reflexivity. }
    rewrite Hb, Hix, Hbk, Hsz, Hrep. unfold stream. rewrite Hb. fold (stream (rl_h r2) (rl_net r2)).
    split; [apply (rt_sound _ _ _ _ Hr2)|].
    split; [apply (rt_live _ _ _ _ Hr2)|].
    split; [rewrite Hst2, <- !app_assoc; reflexivity|].
    pose proof (rt_cursor _ _ _ _ Hr2) as Hc2.
    pose proof (rt_fill _ _ _ _ Hr2) as Hf2.
    assert (Hl2 : length (pre2 ++ p ++ [NUL; LF]) = (length pre2 + length p + 2)%nat)
      by (rewrite !length_app; simpl; lia).
    split; [rewrite Hc2, Hl2; lia|].
    split; [rewrite Hl2; lia|].
    split; [|auto].
    simpl. rewrite (rt_idx _ _ _ _ Hr2), Hcur.
    split; [unfold pre2; rewrite length_app; lia|].
    exists pre2, []. split; reflexivity.
  - destruct (bulk_header P h n line idx done (txt "-1") post Hg Hs Hlive)
      as (Hr & Hst1 & Hrc & Hpk & Hstr & Hcur); auto.
    { simpl. intuition discriminate. }
    { simpl. intuition discriminate. }
    set (r := cr_readln P h n 0 line idx) in *.
    destruct (set_idxs_at (rl_h r) i (-1)) as (Hb & Hix & Hbk & Hsz).
    exists (set_idxs (rl_h r) (Z.of_nat i) (-1)), (rl_net r),
           (CR_BULK :: txt "-1" ++ [NUL; LF]), (-1), (rl_line r + 1), idx.
    assert (Hrep : reply (rl_h r) = reply h)
      by (rewrite (rt_rest _ _ _ _ Hr); reflexivity).
    split.
    { rewrite multibulk_loop_step. cbv zeta. fold r. rewrite Hrc, Hpk.
      change (negb (Ascii.eqb CR_BULK CR_BULK)) with false. cbv iota.
      rewrite Hstr.
      replace (atoi (txt "-1")) with (-1) by (vm_compute; reflexivity).
      rewrite Z.eqb_refl, Hi1, Hk1. reflexivity. }
    rewrite Hb, Hix, Hbk, Hsz, Hrep. unfold stream. rewrite Hb. fold (stream (rl_h r) (rl_net r)).
    split; [apply (rt_sound _ _ _ _ Hr)|].
    split; [apply (rt_live _ _ _ _ Hr)|].
    split; [exact Hst1|].
    split; [exact Hcur|].
    pose proof (rt_cursor _ _ _ _ Hr) as Hc2.
    pose proof (rt_fill _ _ _ _ Hr) as Hf2.
    split; [rewrite <- Hcur, Hc2; lia|].
    split; [reflexivity|auto].
Qed.

Lemma multibulk_loop_decodes (P : platform) (items : list (option (list ascii))) :
  forall h n (i : nat) line idx done post,
    generous P -> sound (buf h) -> live (rx n) = true ->
    stream h n = done ++ concat (map encode_bulk items) ++ post ->
    buf_idx (buf h) = Z.of_nat (length done) ->
    (0 < length done)%nat ->
    Z.of_nat (length done) <= buf_len (buf h) + 1 ->
    Forall plain_payload items ->
    (i + length items <= length (mb_idxs (reply_multibulk (reply h))))%nat ->
    exists h' n' done' offs,
      multibulk_loop P (length items) h n (Z.of_nat i) (Z.of_nat (length items))
                     line idx
        = MbDone (Z.of_nat (i + length items)) 0 h' n' /\
      sound (buf h') /\
      stream h' n' = (done ++ done') ++ post /\
      Z.of_nat (length (done ++ done')) <= buf_len (buf h') + 1 /\
      Forall2 (recorded (done ++ done')) items offs /\
      mb_idxs (reply_multibulk (reply h')) =
        firstn i (mb_idxs (reply_multibulk (reply h))) ++ offs ++
        skipn (i + length items) (mb_idxs (reply_multibulk (reply h))) /\
      mb_bulks (reply_multibulk (reply h')) = mb_bulks (reply_multibulk (reply h)) /\
      mb_size (reply_multibulk (reply h')) = mb_size (reply_multibulk (reply h)).
Proof.
  induction items as [|item rest IH];
    intros h n i line idx done post Hg Hs Hlive Hst Hidx Hdone Hfill Hp Hroom.
  - exists h, n, [], []. simpl. rewrite Nat.add_0_r, app_nil_r.
    split; [reflexivity|]. split; [exact Hs|]. split; [exact Hst|].
    split; [exact Hfill|]. split; [constructor|].
    split; [symmetry; apply firstn_skipn|split; reflexivity].
  - inversion Hp as [|x l Hp1 Hp2]; subst x l. simpl length in *.
    simpl in Hst. rewrite <- app_assoc in Hst.
    destruct (multibulk_element P h n i (length rest) line idx done
                (concat (map encode_bulk rest) ++ post) item Hg Hs Hlive Hst Hidx
                Hdone Hp1)
      as (h2 & n2 & tail & off & line2 & idx2 & Heq & Hs2 & Hl2 & Hst2 & Hidx2 &
          Hfill2 & Hrec & Hix & Hbk & Hsz).
    destruct (IH h2 n2 (S i) line2 idx2 (done ++ tail) post Hg Hs2 Hl2 Hst2 Hidx2
                ltac:(rewrite length_app; lia) Hfill2 Hp2
                ltac:(rewrite Hix, upd_length; lia))
      as (h' & n' & done' & offs & Heq' & Hs' & Hst' & Hfill' & Hrec' & Hix' & Hbk' & Hsz').
    exists h', n', (tail ++ done'), (off :: offs).
    rewrite app_assoc.
    split; [rewrite Heq, Heq'; do 2 f_equal; lia|].
    split; [exact Hs'|]. split; [exact Hst'|]. split; [exact Hfill'|].
    split; [constructor; [apply recorded_app; exact Hrec|exact Hrec']|].
    split; [|split; congruence].
    rewrite Hix', Hix. apply idxs_step. exact Hroom.
Qed.

Lemma firstn_exact (A : Type) (k : nat) (l1 l2 : list A) :
  length l1 = k -> firstn k (l1 ++ l2) = l1.
Proof.
  intros <-. rewrite firstn_app, firstn_all, Nat.sub_diag, firstn_O. apply app_nil_r.
Qed.

Lemma recorded_views (h : cr_redis) (n : net) (done post : list ascii)
    (items : list (option (list ascii))) (offs : list Z) :
  sound (buf h) ->
  stream h n = done ++ post ->
  Z.of_nat (length done) <= buf_len (buf h) + 1 ->
  Forall plain_payload items ->
  Forall2 (recorded done) items offs ->
  map (view_string h) (map (fun ix => if 0 <? ix then Some ix else None) offs) = items.
Proof.
  intros Hs Hst Hfill Hp Hrec.
  induction Hrec as [|item off items0 offs0 Hr0 Hrest IHr]; [reflexivity|].
  inversion Hp as [|x l Hp1 Hp2]; subst x l.
  simpl. f_equal; [|apply IHr; exact Hp2].
  destruct item as [p|]; simpl in Hr0, Hp1.
  - destruct Hr0 as (Hpos & front & back & Hd & Hf).
    replace (0 <? off) with true by (symmetry; apply Z.ltb_lt; exact Hpos).
    unfold view_string. simpl. f_equal. rewrite <- Hf.
    apply (c_string_stream h n front p (LF :: back ++ post) Hs);
      [rewrite Hst, Hd, <- !app_assoc; reflexivity| |apply Hp1].
    rewrite Hd, !length_app in Hfill. simpl in Hfill. lia.
  - subst off. reflexivity.
Qed.

(** X12.  A multibulk reply that arrives whole in a modest exchange, in any
    pieces, is decoded to its elements in order, values that do not exist
    included, whatever their number. *)
Theorem multibulk_reply_decoded (P : platform) (h : cr_redis) (n : net)
    (items : list (option (list ascii))) (post : list ascii) :
  generous P -> allocated (buf h) -> store_ok (reply_multibulk (reply h)) ->
  modest h n ->
  live (rx n) = true ->
  rx_bytes (rx n) =
    CR_MULTIBULK :: decimal (length items) ++ CRLF ++
    concat (map encode_bulk items) ++ post ->
  Forall plain_payload items ->
  Z.of_nat (length items) <= INT_MAX ->
  fst (fst (cr_receivereply P h n CR_MULTIBULK)) = 0 /\
  multibulk_values (cr_receivereply P h n CR_MULTIBULK) = items.
Proof.
  intros Hg Ha Hm _ Hlive Hb Hp Hmax.
  destruct (decimal_plain (length items)) as (Hdcr & Hdnul).
  destruct (first_line_stream P h n CR_MULTIBULK (decimal (length items))
              (concat (map encode_bulk items) ++ post) Hg Ha Hlive Hb
              ltac:(discriminate) Hdcr)
    as (Hrc & Hline & Hpk & Hcur & Hfill & Hs & Hl & Hst & Hrep).
  rewrite (cr_receivereply_prefix P h n CR_MULTIBULK CR_MULTIBULK)
    by (rewrite ?Hline; auto; lia).
  cbv zeta. simpl negb. simpl Ascii.eqb. cbv iota. rewrite Hline.
  set (h1 := rl_h (first_line P h n)) in *.
  set (n1 := rl_net (first_line P h n)) in *.
  pose proof (c_string_stream h1 n1 [CR_MULTIBULK] (decimal (length items))
                (LF :: concat (map encode_bulk items) ++ post) Hs Hst
                ltac:(simpl; lia) Hdnul) as Hnum.
  simpl in Hnum.
  unfold cr_receivemultibulk. simpl (0 + 1). rewrite Hnum, atoi_decimal by exact Hmax.
  replace (Z.of_nat (length items) =? -1) with false
    by (symmetry; apply Z.eqb_neq; lia).
  rewrite Hrep.
  destruct (if mb_size (reply_multibulk (reply h)) <? Z.of_nat (length items)
            then cr_morebulk P (reply_multibulk (reply h))
                   (Z.of_nat (length items) - mb_size (reply_multibulk (reply h)))
            else Some (reply_multibulk (reply h))) as [mb1|] eqn:Eg.
  2:{ exfalso. destruct (_ <? _) in Eg; [|discriminate Eg].
      unfold cr_morebulk in Eg. rewrite !Hg in Eg. discriminate Eg. }
  assert (Hg1 : store_ok mb1 /\ Z.of_nat (length items) <= mb_size mb1).
  { destruct (mb_size (reply_multibulk (reply h)) <? Z.of_nat (length items)) eqn:El.
    - apply Z.ltb_lt in El.
      destruct (cr_morebulk_keeps P _ _
                  (Z.of_nat (length items) - mb_size (reply_multibulk (reply h)))
                  Hm ltac:(lia) Eg) as (Hm1 & Hlt & _).
      split; [exact Hm1|lia].
    - apply Z.ltb_ge in El. inversion Eg; subst mb1. split; [exact Hm|lia]. }
  destruct Hg1 as ((Hbk1 & Hix1 & Hlen1) & Hroom1).
  set (pre := CR_MULTIBULK :: decimal (length items) ++ [NUL; LF]).
  destruct (multibulk_loop_decodes P items (set_reply_multibulk h1 mb1) n1 O 1
              (junk_int P) pre post Hg Hs Hl)
    as (h' & n' & done' & offs & Heq & Hs' & Hst' & Hfill' & Hrec & Hix' & Hbk' & Hsz').
  { unfold stream. simpl buf. fold (stream h1 n1). rewrite Hst. unfold pre.
    repeat first [rewrite <- app_assoc | progress simpl]. reflexivity. }
  { simpl buf. rewrite Hcur. unfold pre. simpl length. rewrite length_app.
    simpl length. lia. }
  { unfold pre. simpl. lia. }
  { simpl buf. unfold pre. simpl length. rewrite length_app. simpl length. lia. }
  { exact Hp. }
  { simpl. lia. }
  simpl Z.of_nat in Heq. rewrite Nat2Z.id, Heq. simpl in Hix', Hbk', Hsz'.
  replace (negb (0 =? 0)) with false by reflexivity. cbv iota.
  pose proof (Forall2_length Hrec) as Hlo.
  unfold multibulk_values, decoded. simpl.
  split; [reflexivity|].
  rewrite !Nat2Z.id, Hix', Hlo.
  rewrite (firstn_exact _ (length offs) offs) by reflexivity.
  rewrite firstn_exact by apply length_map.
  apply (recorded_views _ n' (pre ++ done') post items offs); auto.
Qed.

Lemma multibulk_reply_decoded_witness :
  multibulk_values
    (cr_receivereply quiet fresh_handle
       (idle [RxData (txt "*3" ++ CRLF ++ txt "$2" ++ [CR]);
              RxData (LF :: txt "ab" ++ CRLF ++ txt "$-1" ++ CRLF ++ txt "$");
              RxData (txt "3" ++ CRLF ++ txt "c" ++ CRLF ++ CRLF)])
       CR_MULTIBULK) =
  [Some (txt "ab"); None; Some (txt "c" ++ CRLF)].
Proof.
  refine (proj2 (multibulk_reply_decoded quiet fresh_handle
                   (idle [RxData (txt "*3" ++ CRLF ++ txt "$2" ++ [CR]);
                          RxData (LF :: txt "ab" ++ CRLF ++ txt "$-1" ++ CRLF ++ txt "$");
                          RxData (txt "3" ++ CRLF ++ txt "c" ++ CRLF ++ CRLF)])
                   [Some (txt "ab"); None; Some (txt "c" ++ CRLF)] []
                   (fun z => eq_refl) _ _ _ eq_refl eq_refl _ _)).
  - vm_compute. reflexivity.
  - vm_compute. repeat split; try reflexivity; discriminate.
  - split; vm_compute; discriminate.
  - repeat constructor; vm_compute; try discriminate; intuition discriminate.
  - vm_compute. discriminate.
Defined.

(** ** Requests end to end *)

(** Once the command is on the wire, the request is the decode of the
    reply, and the receive side has not been touched yet. *)
Lemma cr_sendfandreceive_sent (P : platform) (h : cr_redis) (n : net) (t : ascii)
    (text : list ascii) (rooms : list nat) (s : list tx_event) :
  well_formed h -> generous P ->
  tx n = map TxSend rooms ++ s ->
  (length text <= list_sum rooms)%nat ->
  exists h1 n1,
    cr_sendfandreceive P h n t text = cr_receivereply P h1 n1 t /\
    allocated (buf h1) /\ reply h1 = reply h /\
    rx n1 = rx n /\ wire_out n1 = wire_out n ++ text.
Proof.
  intros Hw Hg Htx Hroom. unfold cr_sendfandreceive.
  destruct (render P h text) as [h1|] eqn:Er;
    [|exfalso; exact (render_total P h text Hg Er)].
  destruct (render_spec P h h1 text ltac:(apply Hw) Er)
    as ((Ha1 & Hl1 & rest & Hd1) & Hfit & _ & _ & Hh1).
  unfold cr_sendandreceive.
  destruct (cr_senddata_whole n (timeout h1) (buf_data (buf h1)) (buf_len (buf h1))
              rooms s) as (Hrc & Hout); auto.
  { rewrite Hl1, Hd1, length_app. simpl. lia. }
  { rewrite Hl1. lia. }
  destruct (cr_senddata_prefix n (timeout h1) (buf_data (buf h1))
              (buf_len (buf h1))) as (_ & _ & _ & _ & Hrx).
  { rewrite Hl1, Hd1, length_app. simpl. lia. }
  destruct (cr_senddata n _ _ _) as [rc n1]. simpl in Hrc, Hout, Hrx. subst rc.
  rewrite Z.eqb_refl. simpl.
  exists h1, n1. split; [reflexivity|]. split; [exact Ha1|].
  split; [rewrite Hh1; reflexivity|]. split; [exact Hrx|].
  rewrite Hout, Hl1, Hd1, Nat2Z.id.
  rewrite firstn_app, firstn_all, Nat.sub_diag. simpl. rewrite app_nil_r. reflexivity.
Qed.

Lemma cr_receivereply_error (P : platform) (h : cr_redis) (n : net) (t : ascii)
    (text post : list ascii) :
  generous P -> allocated (buf h) -> live (rx n) = true ->
  rx_bytes (rx n) = CR_ERROR :: text ++ CRLF ++ post ->
  ~ In CR text -> ~ In NUL text ->
  fst (fst (cr_receivereply P h n t)) = CREDIS_ERR_PROTOCOL /\
  view_string (decoded (cr_receivereply P h n t))
              (credis_errorreply (decoded (cr_receivereply P h n t))) = Some text.
Proof.
  intros Hg Ha Hlive Hb Hcr Hnul.
  destruct (first_line_stream P h n CR_ERROR text post Hg Ha Hlive Hb
              ltac:(discriminate) Hcr)
    as (Hrc & Hline & Hpk & Hcur & Hfill & Hs & Hl & Hst & _).
  rewrite (cr_receivereply_prefix P h n t CR_ERROR) by (rewrite ?Hline; auto; lia).
  cbv zeta. change (Ascii.eqb CR_ERROR CR_ERROR) with true.
  rewrite andb_false_r. cbv iota.
  unfold decoded, credis_errorreply. simpl. rewrite Hline. simpl.
  split; [reflexivity|].
  f_equal. apply (c_string_stream _ (rl_net (first_line P h n))
                    [CR_ERROR] text (LF :: post) Hs Hst); [simpl; lia|exact Hnul].
Qed.

Lemma issue_text (P : platform) (h : cr_redis) (n : net) (c : plain_command) :
  issue P h n c = cr_sendfandreceive P h n CR_INLINE (command_line c).
Proof.
  destruct c as [|password| |[name|] port0]; unfold issue, command_line;
    try reflexivity.
  unfold credis_slaveof, SP. destruct (port0 =? 0); [reflexivity|].
  rewrite <- !app_assoc. reflexivity.
Qed.

(** X13.  PING, AUTH, MONITOR and SLAVEOF end to end, in a modest exchange:
    when the command is sent in full and the server's status line arrives, the call returns 0 and
    the handle gives the text of the line; when an error line arrives
    instead, the call returns CREDIS_ERR_PROTOCOL and [credis_errorreply]
    gives the text of the error. *)
Theorem plain_command_replies (P : platform) (h : cr_redis) (n : net)
    (c : plain_command) (rooms : list nat) (s : list tx_event)
    (text post : list ascii) :
  well_formed h -> generous P ->
  modest h n -> modest_text (command_line c) ->
  tx n = map TxSend rooms ++ s ->
  (length (command_line c) <= list_sum rooms)%nat ->
  live (rx n) = true ->
  ~ In CR text -> ~ In NUL text ->
  (rx_bytes (rx n) = CR_INLINE :: text ++ CRLF ++ post ->
   fst (fst (issue P h n c)) = 0 /\
   view_string (decoded (issue P h n c))
               (reply_line (reply (decoded (issue P h n c)))) = Some text) /\
  (rx_bytes (rx n) = CR_ERROR :: text ++ CRLF ++ post ->
   fst (fst (issue P h n c)) = CREDIS_ERR_PROTOCOL /\
   view_string (decoded (issue P h n c))
               (credis_errorreply (decoded (issue P h n c))) = Some text).
Proof.
  intros Hw Hg _ _ Htx Hroom Hlive Hcr Hnul. rewrite issue_text.
  destruct (cr_sendfandreceive_sent P h n CR_INLINE (command_line c) rooms s
              Hw Hg Htx Hroom) as (h1 & n1 & -> & Ha1 & _ & Hrx & _).
  rewrite <- Hrx in *.
  split; intros Hb.
  - exact (cr_receivereply_status P h1 n1 text post Hg Ha1 Hlive Hb Hcr Hnul).
  - exact (cr_receivereply_error P h1 n1 CR_INLINE text post Hg Ha1 Hlive Hb Hcr Hnul).
Qed.

Lemma plain_command_replies_witness :
  fst (fst (issue quiet fresh_handle (idle [RxData (txt "-ERR"); RxData (txt " no" ++ CRLF)])
              (Auth (txt "secret")))) = CREDIS_ERR_PROTOCOL /\
  view_string
    (decoded (issue quiet fresh_handle
                (idle [RxData (txt "-ERR"); RxData (txt " no" ++ CRLF)])
                (Auth (txt "secret"))))
    (credis_errorreply
       (decoded (issue quiet fresh_handle
                   (idle [RxData (txt "-ERR"); RxData (txt " no" ++ CRLF)])
                   (Auth (txt "secret"))))) = Some (txt "ERR no").
Proof.
  refine (proj2 (plain_command_replies quiet fresh_handle
                   (idle [RxData (txt "-ERR"); RxData (txt " no" ++ CRLF)])
                   (Auth (txt "secret")) (repeat 4096%nat 16) [] (txt "ERR no") []
                   _ (fun z => eq_refl) _ _ eq_refl _ eq_refl _ _) eq_refl).
  - vm_compute. repeat split; try reflexivity; discriminate.
  - split; vm_compute; discriminate.
  - vm_compute. discriminate.
  - apply Nat.leb_le. vm_compute. reflexivity.
  - vm_compute. intuition discriminate.
  - vm_compute. intuition discriminate.
Defined.

Lemma integer_request (P : platform) (h : cr_redis) (n : net) (text : list ascii)
    (rooms : list nat) (s : list tx_event) (v : Z) (post : list ascii) :
  well_formed h -> generous P ->
  tx n = map TxSend rooms ++ s ->
  (length text <= list_sum rooms)%nat ->
  live (rx n) = true ->
  rx_bytes (rx n) = CR_INT :: printf_d v ++ CRLF ++ post ->
  INT_MIN <= v <= INT_MAX ->
  exists h2 n2,
    cr_sendfandreceive P h n CR_INT text = (0, h2, n2) /\
    reply_integer (reply h2) = v /\
    wire_out n2 = wire_out n ++ text.
Proof.
  intros Hw Hg Htx Hroom Hlive Hb Hv.
  destruct (cr_sendfandreceive_sent P h n CR_INT text rooms s Hw Hg Htx Hroom)
    as (h1 & n1 & -> & Ha1 & Hrep & Hrx & Hwire).
  rewrite <- Hrx in *.
  destruct (cr_receivereply_integer P h1 n1 v post Hg Ha1 Hlive Hb Hv) as (Hrc & Hint).
  destruct (cr_receivereply_steady P h1 n1 CR_INT Ha1
              ltac:(rewrite Hrep; apply Hw)) as (_ & _ & _ & _ & Hw2).
  unfold decoded in *.
  destruct (cr_receivereply P h1 n1 CR_INT) as [[rc h2] n2].
  simpl in Hrc, Hint, Hw2. subst rc.
  exists h2, n2. split; [reflexivity|]. split; [exact Hint|].
  rewrite Hw2. exact Hwire.
Qed.

(** X14.  SADD and ZADD end to end, in a modest exchange: when the command is
    sent in full and the server's integer reply arrives, the call returns -1 for the reply 0
    and 0 for every other number, the command having gone out as the
    protocol writes it, the member counted and on a line of its own. *)
Theorem set_commands_end_to_end (P : platform) (double : Type)
    (printf_f : double -> list ascii) (h : cr_redis) (n : net)
    (key member : list ascii) (score : double)
    (rooms : list nat) (s : list tx_event) (v : Z) (post : list ascii) :
  well_formed h -> generous P -> modest h n ->
  tx n = map TxSend rooms ++ s ->
  live (rx n) = true ->
  rx_bytes (rx n) = CR_INT :: printf_d v ++ CRLF ++ post ->
  INT_MIN <= v <= INT_MAX ->
  ((length (sadd_text key member) <= list_sum rooms)%nat ->
   modest_text (sadd_text key member) ->
   fst (fst (credis_sadd P h n key member)) = (if v =? 0 then -1 else 0) /\
   wire_out (snd (credis_sadd P h n key member)) =
     wire_out n ++ sadd_text key member) /\
  ((length (zadd_text (printf_f score) key member) <= list_sum rooms)%nat ->
   modest_text (zadd_text (printf_f score) key member) ->
   fst (fst (credis_zadd P double printf_f h n key score member)) =
     (if v =? 0 then -1 else 0) /\
   wire_out (snd (credis_zadd P double printf_f h n key score member)) =
     wire_out n ++ zadd_text (printf_f score) key member).
Proof.
  intros Hw Hg _ Htx Hlive Hb Hv. split; intros Hroom _.
  - destruct (integer_request P h n (sadd_text key member) rooms s v post
                Hw Hg Htx Hroom Hlive Hb Hv) as (h2 & n2 & Heq & Hint & Hwire).
    unfold credis_sadd, cr_setaddrem. fold (sadd_text key member).
    rewrite Heq, Hint. simpl. split; [|exact Hwire].
    destruct (v =? 0); reflexivity.
  - destruct (integer_request P h n (zadd_text (printf_f score) key member) rooms s
                v post Hw Hg Htx Hroom Hlive Hb Hv) as (h2 & n2 & Heq & Hint & Hwire).
    unfold credis_zadd. fold (zadd_text (printf_f score) key member).
    rewrite Heq, Hint. simpl. split; [|exact Hwire].
    destruct (v =? 0); reflexivity.
Qed.

Lemma set_commands_end_to_end_witness :
  fst (fst (credis_sadd quiet fresh_handle (idle [RxData (txt ":0" ++ CRLF)])
              (txt "k") (txt "m"))) = -1 /\
  wire_out (snd (credis_sadd quiet fresh_handle (idle [RxData (txt ":0" ++ CRLF)])
                   (txt "k") (txt "m"))) =
    txt "SADD k 1" ++ CRLF ++ txt "m" ++ CRLF.
Proof.
  refine (proj1 (set_commands_end_to_end quiet unit (fun _ => txt "1.000000")
                   fresh_handle (idle [RxData (txt ":0" ++ CRLF)])
                   (txt "k") (txt "m") tt (repeat 4096%nat 16) [] 0 []
                   _ (fun z => eq_refl) _ eq_refl eq_refl eq_refl _) _ _).
  - vm_compute. repeat split; try reflexivity; discriminate.
  - split; vm_compute; discriminate.
  - vm_compute. split; discriminate.
  - apply Nat.leb_le. vm_compute. reflexivity.
  - vm_compute. discriminate.
Defined.

(** ** The scan for the line end, the element store, the line read *)

(** X15.  [cr_findnl] returns the first offset of the range that holds a
    carriage return with a line feed right after it, and nothing when the
    range has no such offset.  The line feed is looked for one byte behind
    the carriage return even when that byte is the first one outside the
    range. *)
Theorem cr_findnl_finds_first (mem : Z -> ascii) (p : Z) (len : nat) (q : Z) :
  (cr_findnl mem p len = Some q <->
   p <= q < p + Z.of_nat len /\ crlf_at mem q /\
   forall j, p <= j < q -> ~ crlf_at mem j) /\
  (cr_findnl mem p len = None <->
   forall j, p <= j < p + Z.of_nat len -> ~ crlf_at mem j).
Proof.
  split; split.
  - apply cr_findnl_some.
  - intros (Hr & Hc & Hmin).
    destruct (cr_findnl mem p len) as [q'|] eqn:E.
    + destruct (cr_findnl_some _ _ _ _ E) as (Hr' & Hc' & Hmin').
      f_equal. destruct (Z.lt_trichotomy q' q) as [Hlt|[Heq|Hgt]]; [|exact Heq|].
      * exfalso. apply (Hmin q'); [lia|exact Hc'].
      * exfalso. apply (Hmin' q); [lia|exact Hc].
    + exfalso. apply (cr_findnl_none _ _ _ E q Hr Hc).
  - apply cr_findnl_none.
  - intros Hno. destruct (cr_findnl mem p len) as [q'|] eqn:E; [|reflexivity].
    exfalso. destruct (cr_findnl_some _ _ _ _ E) as (Hr' & Hc' & _).
    exact (Hno q' Hr' Hc').
Qed.

(** X16.  [cr_morebulk], asked for [extra] more elements, adds the least whole
    number of steps of 256 elements that exceeds the request to both
    arrays, and keeps what they held and the element count. *)
Theorem cr_morebulk_growth (P : platform) (mb mb' : cr_multibulk) (extra : Z) :
  store_ok mb -> 0 <= extra ->
  cr_morebulk P mb extra = Some mb' ->
  store_ok mb' /\
  mb_size mb' = mb_size mb + (extra / CR_MULTIBULK_SIZE + 1) * CR_MULTIBULK_SIZE /\
  mb_size mb + extra < mb_size mb' <= mb_size mb + extra + CR_MULTIBULK_SIZE /\
  mb_len mb' = mb_len mb /\
  firstn (Z.to_nat (mb_size mb)) (mb_idxs mb') = mb_idxs mb /\
  firstn (Z.to_nat (mb_size mb)) (mb_bulks mb') = mb_bulks mb.
Proof.
  intros Hm Hx Hg.
  destruct (cr_morebulk_keeps P mb mb' extra Hm Hx Hg)
    as (Hm' & Hlt & _ & Hlen & Hi & Hb).
  destruct Hm as (Hbk & Hix & Hl).
  assert (Hsz : mb_size mb' =
                mb_size mb + (extra / CR_MULTIBULK_SIZE + 1) * CR_MULTIBULK_SIZE).
  { unfold cr_morebulk in Hg. destruct (_ && _) in Hg; [|discriminate].
    injection Hg as <-. simpl.
    rewrite Z.quot_div_nonneg by (unfold CR_MULTIBULK_SIZE; lia). reflexivity. }
  split; [exact Hm'|]. split; [exact Hsz|].
  split.
  { unfold CR_MULTIBULK_SIZE in *.
    pose proof (Z.div_mod extra 256 ltac:(lia)) as Hdm.
    pose proof (Z.mod_pos_bound extra 256 ltac:(lia)) as Hmod. lia. }
  split; [exact Hlen|]. split.
  - rewrite Hi by lia. apply firstn_all2. lia.
  - rewrite Hb by lia. apply firstn_all2. lia.
Qed.

Lemma cr_morebulk_growth_witness :
  mb_size (match cr_morebulk quiet (reply_multibulk (reply fresh_handle)) 300 with
           | Some mb' => mb'
           | None => reply_multibulk (reply fresh_handle)
           end) = 768.
Proof.
  destruct (cr_morebulk quiet (reply_multibulk (reply fresh_handle)) 300)
    as [mb'|] eqn:E; [|vm_compute in E; discriminate E].
  destruct (cr_morebulk_growth quiet (reply_multibulk (reply fresh_handle)) mb' 300
              ltac:(vm_compute; repeat split; try reflexivity; discriminate)
              ltac:(vm_compute; discriminate) E) as (_ & Hsz & _).
  rewrite Hsz. vm_compute. reflexivity.
Defined.

(** X17.  In a modest exchange, a line without a carriage return inside is
    read the same however the bytes are cut into receives: [cr_readln] returns its length, reports
    the offset of its first byte as the line and as its index, leaves its
    text terminated there and moves the cursor behind the line end. *)
Theorem cr_readln_reads_the_line (P : platform) (h : cr_redis) (n : net)
    (line idx : Z) (pre text post : list ascii) :
  generous P -> sound (buf h) -> modest h n -> live (rx n) = true ->
  stream h n = pre ++ text ++ CRLF ++ post ->
  buf_idx (buf h) = Z.of_nat (length pre) ->
  ~ In CR text -> ~ In NUL text ->
  line_read (cr_readln P h n 0 line idx) =
    (Z.of_nat (length text), text, Z.of_nat (length pre + length text) + 2) /\
  rl_line (cr_readln P h n 0 line idx) = Z.of_nat (length pre) /\
  rl_idx (cr_readln P h n 0 line idx) = Z.of_nat (length pre).
Proof.
  intros Hg Hs _ Hlive Hst Hidx Hcr Hnul.
  destruct (cr_readln_line P h n 0 line idx pre text post Hg Hs Hlive Hst Hidx
              ltac:(lia) Hcr) as (Hr & Hst').
  split; [|rewrite (rt_line _ _ _ _ Hr), (rt_idx _ _ _ _ Hr), Hidx; auto].
  unfold line_read.
  rewrite (rt_rc _ _ _ _ Hr), (rt_line _ _ _ _ Hr), (rt_cursor _ _ _ _ Hr), Hidx.
  replace (Z.of_nat (length pre + length text) - Z.of_nat (length pre))
    with (Z.of_nat (length text)) by lia.
  rewrite (c_string_stream _ _ pre text (LF :: post) (rt_sound _ _ _ _ Hr) Hst'
             (rt_fill _ _ _ _ Hr) Hnul).
  reflexivity.
Qed.

Lemma cr_readln_reads_the_line_witness :
  line_read (first_line quiet (rendered fresh_handle (txt "PING" ++ CRLF))
               (idle [RxData (txt "+ab"); RxData (txt "c" ++ [CR]); RxData [LF]])) =
  (4, txt "+abc", 6).
Proof.
  refine (proj1 (cr_readln_reads_the_line quiet
            (set_buf (rendered fresh_handle (txt "PING" ++ CRLF))
                     (reset_buffer (buf (rendered fresh_handle (txt "PING" ++ CRLF)))))
            (idle [RxData (txt "+ab"); RxData (txt "c" ++ [CR]); RxData [LF]])
            (junk_int quiet) (junk_int quiet) [] (txt "+abc") []
            (fun z => eq_refl) _ _ eq_refl eq_refl eq_refl _ _)).
  - vm_compute. repeat split; try reflexivity; discriminate.
  - split; vm_compute; discriminate.
  - vm_compute. intuition discriminate.
  - vm_compute. intuition discriminate.
Defined.

(** ** INFO *)

Lemma is_prefix_spec (p l : list ascii) :
  is_prefix p l = true <-> firstn (length p) l = p.
Proof.
  revert l; induction p as [|c p IH]; intros l; simpl; [tauto|].
  destruct l as [|d l]; [split; discriminate|].
  rewrite andb_true_iff, Ascii.eqb_eq, IH. split.
  - intros [-> ->]. reflexivity.
  - intros H. injection H as -> H. auto.
Qed.

Lemma strstr_some (hay needle : list ascii) :
  forall i, strstr hay needle = Some i -> first_at hay needle i.
Proof.
  induction hay as [|c hay IH]; intros i; simpl.
  - destruct (is_prefix needle []) eqn:E; [|discriminate].
    intros H; injection H as <-. split; [apply is_prefix_spec; exact E|].
    intros j Hj. lia.
  - destruct (is_prefix needle (c :: hay)) eqn:E.
    + intros H; injection H as <-. split; [apply is_prefix_spec; exact E|].
      intros j Hj. lia.
    + destruct (strstr hay needle) as [i'|] eqn:Es; [|discriminate].
      simpl. intros H; injection H as <-.
      destruct (IH i' eq_refl) as (Ho & Hmin). split; [exact Ho|].
      intros [|j] Hj Hocc.
      * apply is_prefix_spec in Hocc. simpl skipn in Hocc. congruence.
      * apply (Hmin j); [lia|exact Hocc].
Qed.

Lemma strstr_none (hay needle : list ascii) :
  strstr hay needle = None -> absent hay needle.
Proof.
  induction hay as [|c hay IH]; simpl.
  - destruct (is_prefix needle []) eqn:E; [discriminate|].
    intros _ j Hocc. unfold occurs_at in Hocc. rewrite skipn_nil in Hocc.
    apply is_prefix_spec in Hocc. congruence.
  - destruct (is_prefix needle (c :: hay)) eqn:E; [discriminate|].
    destruct (strstr hay needle) as [i'|] eqn:Es; [discriminate|].
    intros _ [|j] Hocc.
    + apply is_prefix_spec in Hocc. simpl skipn in Hocc. congruence.
    + exact (IH eq_refl j Hocc).
Qed.

Lemma strstr_first (hay needle : list ascii) (i : nat) :
  first_at hay needle i -> strstr hay needle = Some i.
Proof.
  intros (Ho & Hmin).
  destruct (strstr hay needle) as [i'|] eqn:E.
  - destruct (strstr_some _ _ _ E) as (Ho' & Hmin'). f_equal.
    destruct (Nat.lt_trichotomy i' i) as [Hlt|[Heq|Hgt]]; [|exact Heq|].
    + exfalso. exact (Hmin i' Hlt Ho').
    + exfalso. exact (Hmin' i Hgt Ho).
  - exfalso. exact (strstr_none _ _ E i Ho).
Qed.

Lemma strstr_absent (hay needle : list ascii) :
  absent hay needle -> strstr hay needle = None.
Proof.
  intros Ha. destruct (strstr hay needle) as [i|] eqn:E; [|reflexivity].
  exfalso. exact (Ha i (proj1 (strstr_some _ _ _ E))).
Qed.

Lemma c_string_of_terminated (text tail : list ascii) :
  ~ In NUL text -> c_string_of (text ++ NUL :: tail) = text.
Proof. intros Hn. rewrite c_string_of_cut. apply c_string_of_clean. exact Hn. Qed.

(** A field that does not occur is not stored; a field that occurs is
    converted from the text that follows the byte after its name. *)
Lemma cr_parseinfo_absent (A : Type) (text tail name : list ascii)
    (scan : list ascii -> option A) :
  ~ In NUL text -> absent text name ->
  cr_parseinfo (text ++ NUL :: tail) name scan = None.
Proof.
  intros Hn Ha. unfold cr_parseinfo.
  rewrite c_string_of_terminated by exact Hn.
  rewrite (strstr_absent _ _ Ha). reflexivity.
Qed.

Lemma cr_parseinfo_found (A : Type) (pre name value tail : list ascii) (sep : ascii)
    (scan : list ascii -> option A) :
  ~ In NUL (pre ++ name ++ sep :: value) ->
  first_at (pre ++ name ++ sep :: value) name (length pre) ->
  cr_parseinfo ((pre ++ name ++ sep :: value) ++ NUL :: tail) name scan = scan value.
Proof.
  intros Hn Hf. unfold cr_parseinfo.
  rewrite c_string_of_terminated by exact Hn.
  rewrite (strstr_first _ _ _ Hf).
  replace (skipn (length pre + length name + 1)
                 ((pre ++ name ++ sep :: value) ++ NUL :: tail))
    with (value ++ NUL :: tail).
  - rewrite c_string_of_terminated; [reflexivity|].
    intros Hin. apply Hn. rewrite !in_app_iff. right. right. right. exact Hin.
  - replace ((pre ++ name ++ sep :: value) ++ NUL :: tail)
      with ((pre ++ name ++ [sep]) ++ value ++ NUL :: tail)
      by (repeat first [rewrite <- app_assoc | progress simpl]; reflexivity).
    rewrite skipn_app, skipn_all2 by (rewrite !length_app; simpl; lia).
    replace (length pre + length name + 1 - length (pre ++ name ++ [sep]))%nat
      with O by (rewrite !length_app; simpl; lia).
    reflexivity.
Qed.

Lemma scan_number_printf_d (v : Z) (rest : list ascii) :
  starts_with_digit rest = false ->
  scan_number (printf_d v ++ rest) = Some (v <? 0, Z.abs v).
Proof.
  intros Hrest. unfold printf_d. destruct (v <? 0) eqn:E.
  - apply Z.ltb_lt in E.
    pose proof (digits_decimal (Z.to_nat (- v)) rest Hrest) as Hd.
    destruct (decimal_cons (Z.to_nat (- v))) as (c & l & Hc & Hdig).
    unfold scan_number. simpl skip_space. rewrite Hc in Hd |- *.
    change (("-" =? "-")%char) with true. cbv iota beta.
    simpl app in Hd |- *. simpl starts_with_digit. rewrite Hdig, Hd. simpl.
    do 2 f_equal. lia.
  - apply Z.ltb_ge in E.
    pose proof (digits_decimal (Z.to_nat v) rest Hrest) as Hd.
    destruct (decimal_cons (Z.to_nat v)) as (c & l & Hc & Hdig).
    rewrite Hc in Hd |- *. simpl app in Hd |- *.
    destruct (isdigit_not_sign c Hdig) as [Hm Hp].
    unfold scan_number. simpl skip_space.
    rewrite (isdigit_not_space c Hdig), Hm, Hp.
    simpl starts_with_digit. rewrite Hdig, Hd. simpl.
    do 2 f_equal. lia.
Qed.

Lemma scan_int_printf_d (v : Z) (rest : list ascii) :
  starts_with_digit rest = false -> INT_MIN <= v <= INT_MAX ->
  scan_int (printf_d v ++ rest) = Some (v, rest).
Proof.
  intros Hrest Hv. unfold printf_d. destruct (v <? 0) eqn:E.
  - apply Z.ltb_lt in E.
    pose proof (digits_decimal (Z.to_nat (- v)) rest Hrest) as Hd.
    destruct (decimal_cons (Z.to_nat (- v))) as (c & l & Hc & Hdig).
    unfold scan_int. simpl skip_space. rewrite Hc in Hd |- *.
    change (("-" =? "-")%char) with true. cbv iota beta.
    simpl app in Hd |- *. simpl starts_with_digit. rewrite Hdig, Hd.
    rewrite to_int_small by (unfold INT_MIN, INT_MAX in *; lia).
    do 2 f_equal. lia.
  - apply Z.ltb_ge in E.
    rewrite scan_int_decimal by (auto; lia). do 2 f_equal. lia.
Qed.

Lemma scan_as_printf_d (t : c_type) (v : Z) (rest : list ascii) :
  starts_with_digit rest = false -> in_type t v ->
  scan_as t (printf_d v ++ rest) = Some v.
Proof.
  intros Hrest Hv. destruct t; simpl in Hv; unfold scan_as.
  - unfold scan_d. rewrite scan_int_printf_d by assumption. reflexivity.
  - unfold scan_ld. rewrite scan_number_printf_d by assumption. simpl.
    unfold strtol_value, saturate_long. f_equal.
    destruct (v <? 0) eqn:E; [apply Z.ltb_lt in E|apply Z.ltb_ge in E]; lia.
  - unfold scan_zu. rewrite scan_number_printf_d by assumption. simpl.
    unfold strtoul_value.
    replace (ULONG_MAX <? Z.abs v) with false by (symmetry; apply Z.ltb_ge; lia).
    replace (v <? 0) with false by (symmetry; apply Z.ltb_ge; lia).
    f_equal. lia.
  - unfold scan_u. rewrite scan_number_printf_d by assumption. simpl.
    unfold strtoul_value.
    replace (ULONG_MAX <? Z.abs v) with false
      by (symmetry; apply Z.ltb_ge; unfold ULONG_MAX; lia).
    replace (v <? 0) with false by (symmetry; apply Z.ltb_ge; lia).
    f_equal. rewrite Z.mod_small; lia.
Qed.

Lemma rx_bytes_total (s : list rx_event) :
  (length (rx_bytes s) <= rx_total s)%nat.
Proof.
  induction s as [|e s IH]; simpl; [lia|].
  destruct e; simpl; try lia. rewrite length_app. lia.
Qed.

(** The payload of a reply that arrives in a modest exchange can be counted
    by an [int]. *)
Lemma modest_payload (n : net) (payload post : list ascii) :
  Z.of_nat (rx_total (rx n)) <= MODEST ->
  rx_bytes (rx n) = encode_bulk (Some payload) ++ post ->
  Z.of_nat (length payload) <= INT_MAX.
Proof.
  intros Hw Hb.
  pose proof (rx_bytes_total (rx n)) as Hl. rewrite Hb in Hl.
  unfold encode_bulk in Hl. simpl in Hl. rewrite !length_app in Hl.
  simpl in Hl. rewrite length_app in Hl.
  unfold MODEST, INT_MAX in *. lia.
Qed.

(** The INFO request when the reply arrives whole: the reply pointer is
    at the payload, which lies terminated in the buffer. *)
Lemma info_request (P : platform) (h : cr_redis) (n : net)
    (rooms : list nat) (s : list tx_event) (payload post : list ascii) :
  well_formed h -> generous P ->
  tx n = map TxSend rooms ++ s ->
  (6 <= list_sum rooms)%nat ->
  live (rx n) = true ->
  rx_bytes (rx n) = encode_bulk (Some payload) ++ post ->
  ~ In NUL payload -> Z.of_nat (length payload) <= INT_MAX ->
  exists h1 n1 p tail,
    cr_sendfandreceive P h n CR_BULK (txt "INFO" ++ CRLF) = (0, h1, n1) /\
    reply_bulk (reply h1) = Some p /\
    skipn (Z.to_nat p) (buf_data (buf h1)) = payload ++ NUL :: tail.
Proof.
  intros Hw Hg Htx Hroom Hlive Hb Hnul Hmax.
  destruct (cr_sendfandreceive_sent P h n CR_BULK (txt "INFO" ++ CRLF) rooms s
              Hw Hg Htx Hroom) as (h1 & n1 & -> & Ha1 & _ & Hrx & _).
  rewrite <- Hrx in *.
  destruct (cr_receivereply_bulk P h1 n1 (Some payload) post Hg Ha1 Hlive Hb
              (conj Hnul Hmax)) as (Hrc & _ & Hlay).
  destruct (Hlay payload eq_refl) as (front & tail & Hp & Hd).
  unfold decoded in *.
  destruct (cr_receivereply P h1 n1 CR_BULK) as [[rc h2] n2].
  simpl in Hrc, Hp, Hd. subst rc.
  exists h2, n2, (Z.of_nat (length front)), tail.
  split; [reflexivity|]. split; [exact Hp|].
  rewrite Hd, Nat2Z.id, skipn_app, skipn_all, Nat.sub_diag. reflexivity.
Qed.

(** X18.  [credis_info] end to end, for the numeric fields.  When, in a modest
    exchange, the request is sent in full and the reply arrives whole, each numeric field is 0
    when its name stands nowhere in the reply, and is the number printed
    behind the first place where its name stands, whatever byte separates
    them and whether or not that place begins a line, for every number of
    the C type of the field. *)
Theorem credis_info_numbers (P : platform) (h : cr_redis) (n : net)
    (info : REDIS_INFO) (role_at : Z)
    (rooms : list nat) (s : list tx_event) (payload post : list ascii) :
  well_formed h -> generous P -> modest h n ->
  tx n = map TxSend rooms ++ s ->
  (6 <= list_sum rooms)%nat ->
  live (rx n) = true ->
  rx_bytes (rx n) = encode_bulk (Some payload) ++ post ->
  ~ In NUL payload ->
  exists h1 n1 info',
    credis_info P h n info role_at = Some (0, h1, n1, info') /\
    (forall k, absent payload (number_name k) -> number_of info' k = 0) /\
    (forall k pre sep v rest,
       payload = pre ++ number_name k ++ sep :: printf_d v ++ rest ->
       first_at payload (number_name k) (length pre) ->
       starts_with_digit rest = false ->
       in_type (number_type k) v ->
       number_of info' k = v).
Proof.
  intros Hw Hg Hmod Htx Hroom Hlive Hb Hnul.
  pose proof (modest_payload n payload post (proj2 Hmod) Hb) as Hmax.
  destruct (info_request P h n rooms s payload post Hw Hg Htx Hroom Hlive Hb Hnul Hmax)
    as (h1 & n1 & p & tail & Heq & Hp & Hsk).
  unfold credis_info. rewrite Heq. change (0 =? 0) with true. cbv iota.
  rewrite Hp, Hsk.
  eexists h1, n1, _. split; [reflexivity|]. split.
  - intros k Ha.
    assert (Hval : stored (cr_parseinfo (payload ++ NUL :: tail) (number_name k)
                             (scan_as (number_type k))) 0 = 0)
      by (rewrite cr_parseinfo_absent by assumption; reflexivity).
    destruct k; exact Hval.
  - intros k pre sep v rest Hpay Hf Hrest Hv.
    assert (Hval : stored (cr_parseinfo (payload ++ NUL :: tail) (number_name k)
                             (scan_as (number_type k))) 0 = v).
    { subst payload. rewrite cr_parseinfo_found by assumption.
      rewrite scan_as_printf_d by assumption. reflexivity. }
    destruct k; exact Hval.
Qed.

(** X19.  [credis_info] end to end, for the role, when in a modest exchange
    the request is sent in full and the reply arrives whole.  The role is
    master or slave.
    It is master exactly when the byte behind the first place where
    "role" stands, and one more byte, is the letter m; when "role" stands
    nowhere in the reply it is decided by the byte the local variable
    happens to hold, which the function never sets. *)
Theorem credis_info_role (P : platform) (h : cr_redis) (n : net)
    (info : REDIS_INFO) (role_at : Z)
    (rooms : list nat) (s : list tx_event) (payload post : list ascii) :
  well_formed h -> generous P -> modest h n ->
  tx n = map TxSend rooms ++ s ->
  (6 <= list_sum rooms)%nat ->
  live (rx n) = true ->
  rx_bytes (rx n) = encode_bulk (Some payload) ++ post ->
  ~ In NUL payload ->
  exists h1 n1 info',
    credis_info P h n info role_at = Some (0, h1, n1, info') /\
    (role info' = CREDIS_SERVER_MASTER \/ role info' = CREDIS_SERVER_SLAVE) /\
    (absent payload (txt "role") ->
     (role info' = CREDIS_SERVER_MASTER <-> junk P role_at = "m"%char)) /\
    (forall pre sep c rest,
       payload = pre ++ txt "role" ++ sep :: c :: rest ->
       first_at payload (txt "role") (length pre) ->
       (role info' = CREDIS_SERVER_MASTER <-> c = "m"%char)).
Proof.
  intros Hw Hg Hmod Htx Hroom Hlive Hb Hnul.
  pose proof (modest_payload n payload post (proj2 Hmod) Hb) as Hmax.
  destruct (info_request P h n rooms s payload post Hw Hg Htx Hroom Hlive Hb Hnul Hmax)
    as (h1 & n1 & p & tail & Heq & Hp & Hsk).
  unfold credis_info. rewrite Heq. change (0 =? 0) with true. cbv iota.
  rewrite Hp, Hsk.
  eexists h1, n1, _. split; [reflexivity|].
  cbv beta iota delta [role].
  assert (Hm : forall c : ascii,
            (if Ascii.eqb c "m" then CREDIS_SERVER_MASTER else CREDIS_SERVER_SLAVE)
              = CREDIS_SERVER_MASTER <-> c = "m"%char).
  { intros c. destruct (Ascii.eqb c "m") eqn:E.
    - apply Ascii.eqb_eq in E. tauto.
    - apply Ascii.eqb_neq in E. split; [discriminate|contradiction]. }
  split; [|split].
  - destruct (Ascii.eqb _ "m"); [left|right]; reflexivity.
  - intros Ha. rewrite cr_parseinfo_absent by assumption. apply Hm.
  - intros pre sep c rest Hpay Hf. subst payload.
    rewrite cr_parseinfo_found by assumption. apply Hm.
Qed.

Lemma credis_info_numbers_witness :
  number_of
    (info_of (credis_info quiet fresh_handle
                (idle [RxData (encode_bulk
                         (Some (txt "used_memory:1024" ++ CRLF ++
                                txt "role:master" ++ CRLF)))])
                cleared 0))
    Used_memory = 1024.
Proof.
  destruct (credis_info_numbers quiet fresh_handle
              (idle [RxData (encode_bulk
                       (Some (txt "used_memory:1024" ++ CRLF ++
                              txt "role:master" ++ CRLF)))])
              cleared 0 (repeat 4096%nat 16) []
              (txt "used_memory:1024" ++ CRLF ++ txt "role:master" ++ CRLF) []
              ltac:(vm_compute; repeat split; try reflexivity; discriminate)
              (fun z => eq_refl) ltac:(split; vm_compute; discriminate) eq_refl
              ltac:(apply Nat.leb_le; vm_compute; reflexivity)
              eq_refl eq_refl
              ltac:(vm_compute; intuition discriminate))
    as (h1 & n1 & info' & Heq & _ & Hv).
  rewrite Heq. simpl info_of.
  apply (Hv Used_memory [] ":"%char 1024 (CRLF ++ txt "role:master" ++ CRLF)).
  - reflexivity.
  - apply strstr_some. vm_compute. reflexivity.
  - reflexivity.
  - vm_compute. split; discriminate.
Defined.

Lemma credis_info_role_witness :
  role (info_of (credis_info quiet fresh_handle
                   (idle [RxData (encode_bulk (Some (txt "role:master" ++ CRLF)))])
                   cleared 0)) = CREDIS_SERVER_MASTER.
Proof.
  destruct (credis_info_role quiet fresh_handle
              (idle [RxData (encode_bulk (Some (txt "role:master" ++ CRLF)))])
              cleared 0 (repeat 4096%nat 16) [] (txt "role:master" ++ CRLF) []
              ltac:(vm_compute; repeat split; try reflexivity; discriminate)
              (fun z => eq_refl) ltac:(split; vm_compute; discriminate) eq_refl
              ltac:(apply Nat.leb_le; vm_compute; reflexivity)
              eq_refl eq_refl
              ltac:(vm_compute; intuition discriminate))
    as (h1 & n1 & info' & Heq & _ & _ & Hr).
  rewrite Heq. simpl info_of.
  apply (Hr [] ":"%char "m"%char (txt "aster" ++ CRLF)).
  - reflexivity.
  - apply strstr_some. vm_compute. reflexivity.
  - reflexivity.
Defined.

(** X20.  When the server answers INFO with the reply of a value that does not
    exist, [cr_sendfandreceive] returns 0 with the null pointer in
    [reply.bulk], and [credis_info] hands that pointer to [strstr]. *)
Theorem credis_info_without_value (P : platform) (h : cr_redis) (n : net)
    (info : REDIS_INFO) (role_at : Z)
    (rooms : list nat) (s : list tx_event) (post : list ascii) :
  well_formed h -> generous P ->
  tx n = map TxSend rooms ++ s ->
  (6 <= list_sum rooms)%nat ->
  live (rx n) = true ->
  rx_bytes (rx n) = encode_bulk None ++ post ->
  fst (fst (cr_sendfandreceive P h n CR_BULK (txt "INFO" ++ CRLF))) = 0 /\
  credis_info P h n info role_at = None.
Proof.
  intros Hw Hg Htx Hroom Hlive Hb.
  destruct (cr_sendfandreceive_sent P h n CR_BULK (txt "INFO" ++ CRLF) rooms s
              Hw Hg Htx Hroom) as (h1 & n1 & Heq & Ha1 & _ & Hrx & _).
  rewrite <- Hrx in *.
  destruct (cr_receivereply_bulk P h1 n1 None post Hg Ha1 Hlive Hb I)
    as (Hrc & Hval & _).
  unfold credis_info. rewrite Heq.
  unfold bulk_value, decoded, view_string in Hval.
  destruct (cr_receivereply P h1 n1 CR_BULK) as [[rc h2] n2].
  simpl in Hrc, Hval |- *. subst rc. split; [reflexivity|].
  destruct (reply_bulk (reply h2)); [discriminate Hval|reflexivity].
Qed.

Lemma credis_info_without_value_witness :
  credis_info quiet fresh_handle (idle [RxData (txt "$-1" ++ CRLF)]) cleared 0 = None.
Proof.
  refine (proj2 (credis_info_without_value quiet fresh_handle
                   (idle [RxData (txt "$-1" ++ CRLF)]) cleared 0
                   (repeat 4096%nat 16) [] [] _ (fun z => eq_refl) eq_refl _
                   eq_refl eq_refl)).
  - vm_compute. repeat split; try reflexivity; discriminate.
  - apply Nat.leb_le. vm_compute. reflexivity.
Defined.

Lemma token_word (tok rest : list ascii) (c : ascii) :
  (forall x, In x tok -> isspace x = false) -> isspace c = true ->
  token (tok ++ c :: rest) = tok.
Proof.
  intros Hw Hc. induction tok as [|x tok IH]; simpl.
  - rewrite Hc. reflexivity.
  - rewrite (Hw x (or_introl eq_refl)). f_equal. apply IH.
    intros y Hy. apply Hw. right. exact Hy.
Qed.

Lemma scan_s_word (width : nat) (tok rest : list ascii) (c : ascii) :
  (0 < width)%nat -> tok <> [] ->
  (forall x, In x tok -> isspace x = false) -> isspace c = true ->
  scan_s width (tok ++ c :: rest) = Some (firstn width tok).
Proof.
  intros Hwd Hne Hw Hc. unfold scan_s.
  destruct tok as [|x tok]; [contradiction Hne; reflexivity|].
  assert (Hsk : skip_space ((x :: tok) ++ c :: rest) = (x :: tok) ++ c :: rest).
  { simpl. rewrite (Hw x (or_introl eq_refl)). reflexivity. }
  rewrite Hsk, token_word by assumption.
  destruct width as [|w]; [lia|]. reflexivity.
Qed.

(** X21.  [credis_info] end to end, for the string fields, when in a modest
    exchange the request is sent in full and the reply arrives whole.
    Each is empty when
    its name stands nowhere in the reply, and otherwise holds the word
    behind the first place where its name stands and one more byte, cut
    to the size of the array: a word of that size or longer fills the
    array and leaves no room in it for the terminator. *)
Theorem credis_info_strings (P : platform) (h : cr_redis) (n : net)
    (info : REDIS_INFO) (role_at : Z)
    (rooms : list nat) (s : list tx_event) (payload post : list ascii) :
  well_formed h -> generous P -> modest h n ->
  tx n = map TxSend rooms ++ s ->
  (6 <= list_sum rooms)%nat ->
  live (rx n) = true ->
  rx_bytes (rx n) = encode_bulk (Some payload) ++ post ->
  ~ In NUL payload ->
  exists h1 n1 info',
    credis_info P h n info role_at = Some (0, h1, n1, info') /\
    (forall k, absent payload (string_name k) -> string_of info' k = []) /\
    (forall k pre sep word c rest,
       payload = pre ++ string_name k ++ sep :: word ++ c :: rest ->
       first_at payload (string_name k) (length pre) ->
       word <> [] -> (forall x, In x word -> isspace x = false) ->
       isspace c = true ->
       string_of info' k = firstn (string_size k) word /\
       (length (string_of info' k) <= string_size k)%nat).
Proof.
  intros Hw Hg Hmod Htx Hroom Hlive Hb Hnul.
  pose proof (modest_payload n payload post (proj2 Hmod) Hb) as Hmax.
  destruct (info_request P h n rooms s payload post Hw Hg Htx Hroom Hlive Hb Hnul Hmax)
    as (h1 & n1 & p & tail & Heq & Hp & Hsk).
  unfold credis_info. rewrite Heq. change (0 =? 0) with true. cbv iota.
  rewrite Hp, Hsk.
  eexists h1, n1, _. split; [reflexivity|]. split.
  - intros k Ha.
    assert (Hval : stored (cr_parseinfo (payload ++ NUL :: tail) (string_name k)
                             (scan_s (string_size k))) [] = [])
      by (rewrite cr_parseinfo_absent by assumption; reflexivity).
    destruct k; exact Hval.
  - intros k pre sep word c rest Hpay Hf Hne Hword Hc.
    assert (Hval : stored (cr_parseinfo (payload ++ NUL :: tail) (string_name k)
                             (scan_s (string_size k))) [] =
                   firstn (string_size k) word).
    { subst payload. rewrite cr_parseinfo_found by assumption.
      rewrite scan_s_word by (auto; destruct k; simpl; unfold
        CREDIS_VERSION_STRING_SIZE, CREDIS_MULTIPLEXING_API_SIZE,
        CREDIS_USED_MEMORY_HUMAN_SIZE; lia).
      reflexivity. }
    assert (Hlen : (length (firstn (string_size k) word) <= string_size k)%nat)
      by (rewrite length_firstn; lia).
    rewrite <- Hval in Hlen.
    destruct k; split; [exact Hval|exact Hlen|exact Hval|exact Hlen|exact Hval|exact Hlen].
Qed.

Lemma credis_info_strings_witness :
  string_of
    (info_of (credis_info quiet fresh_handle
                (idle [RxData (encode_bulk (Some (txt "redis_version:2.0.4" ++ CRLF)))])
                cleared 0))
    Redis_version = txt "2.0.4".
Proof.
  destruct (credis_info_strings quiet fresh_handle
              (idle [RxData (encode_bulk (Some (txt "redis_version:2.0.4" ++ CRLF)))])
              cleared 0 (repeat 4096%nat 16) [] (txt "redis_version:2.0.4" ++ CRLF) []
              ltac:(vm_compute; repeat split; try reflexivity; discriminate)
              (fun z => eq_refl) ltac:(split; vm_compute; discriminate) eq_refl
              ltac:(apply Nat.leb_le; vm_compute; reflexivity)
              eq_refl eq_refl
              ltac:(vm_compute; intuition discriminate))
    as (h1 & n1 & info' & Heq & _ & Hv).
  rewrite Heq. simpl info_of.
  apply (Hv Redis_version [] ":"%char (txt "2.0.4") CR [LF]).
  - reflexivity.
  - apply strstr_some. vm_compute. reflexivity.
  - discriminate.
  - vm_compute. intuition (subst; reflexivity).
  - reflexivity.
Defined.

(** ** The connection end to end *)

Lemma cr_new_generous (P : platform) : generous P -> cr_new P <> None.
Proof. intros Hg. unfold cr_new. rewrite !Hg. discriminate. Qed.

Lemma strsep_all_line (line rest : list ascii) :
  ~ In CR line -> ~ In LF line ->
  strsep_all (line ++ CR :: rest) = line :: strsep_all rest.
Proof.
  intros Hcr Hlf. induction line as [|x line IH]; [reflexivity|].
  simpl.
  replace (Ascii.eqb x CR) with false
    by (symmetry; apply Ascii.eqb_neq; intros ->; apply Hcr; left; reflexivity).
  replace (Ascii.eqb x LF) with false
    by (symmetry; apply Ascii.eqb_neq; intros ->; apply Hlf; left; reflexivity).
  simpl. rewrite IH; [reflexivity| |].
  - intros H. apply Hcr. right. exact H.
  - intros H. apply Hlf. right. exact H.
Qed.

(** A bulk request when the reply arrives whole. *)
Lemma bulk_request (P : platform) (h : cr_redis) (n : net) (text : list ascii)
    (rooms : list nat) (s : list tx_event) (payload post : list ascii) :
  well_formed h -> generous P ->
  tx n = map TxSend rooms ++ s ->
  (length text <= list_sum rooms)%nat ->
  live (rx n) = true ->
  rx_bytes (rx n) = encode_bulk (Some payload) ++ post ->
  ~ In NUL payload -> Z.of_nat (length payload) <= INT_MAX ->
  exists h1 n1 p,
    cr_sendfandreceive P h n CR_BULK text = (0, h1, n1) /\
    reply_bulk (reply h1) = Some p /\
    c_string (buf h1) p = payload /\
    wire_out n1 = wire_out n ++ text /\
    well_formed h1 /\ same_connection h h1.
Proof.
  intros Hw Hg Htx Hroom Hlive Hb Hnul Hmax.
  destruct (cr_sendfandreceive_steady P h n CR_BULK text Hw) as (W & C & _).
  destruct (cr_sendfandreceive_sent P h n CR_BULK text rooms s Hw Hg Htx Hroom)
    as (h1 & n1 & Heq & Ha1 & Hrep & Hrx & Hwire).
  rewrite Heq in W, C |- *. rewrite <- Hrx in *.
  destruct (cr_receivereply_bulk P h1 n1 (Some payload) post Hg Ha1 Hlive Hb
              (conj Hnul Hmax)) as (Hrc & Hval & _).
  destruct (cr_receivereply_steady P h1 n1 CR_BULK Ha1
              ltac:(rewrite Hrep; apply Hw)) as (_ & _ & _ & _ & Hw2).
  unfold bulk_value, decoded, view_string in *.
  destruct (cr_receivereply P h1 n1 CR_BULK) as [[rc h2] n2].
  simpl in Hrc, Hval, Hw2, W, C. subst rc.
  destruct (reply_bulk (reply h2)) as [p|] eqn:Ep; [|discriminate Hval].
  simpl in Hval. injection Hval as Hval.
  exists h2, n2, p. repeat split; auto; try apply W; try apply C.
  rewrite Hw2. exact Hwire.
Qed.

Lemma version_line_plain (a b c : nat) (x : ascii) :
  In x (txt "redis_version:" ++ decimal a ++ txt "." ++ decimal b
            ++ txt "." ++ decimal c) ->
  isspace x = false /\ x <> NUL.
Proof.
  assert (Hd : forall k, In x (decimal k) -> isspace x = false /\ x <> NUL).
  { intros k Hin. apply decimal_digits in Hin. split.
    - apply isdigit_not_space. exact Hin.
    - intros ->. discriminate Hin. }
  rewrite !in_app_iff.
  intros [H|[H|[H|[H|[H|H]]]]]; try (eapply Hd; exact H);
    simpl in H; repeat (destruct H as [<-|H]; [split; [reflexivity|discriminate]|]);
    contradiction.
Qed.

(** X22.  [credis_connect] end to end.  With the socket connected and memory at
    hand, when INFO is sent in full and the reply, of a modest size,
    arrives whole with the
    version line first, a handle is returned that carries that version,
    the descriptor and address of the socket, the timeout given and the
    port given, 6379 standing in for 0; INFO is all that was sent. *)
Theorem credis_connect_end_to_end (P : platform) (l : link) (n : net)
    (host : option (list ascii)) (port0 timeout0 : Z)
    (rooms : list nat) (s : list tx_event) (a b c : nat) (rest post : list ascii) :
  generous P -> Z.of_nat (rx_total (rx n)) <= MODEST ->
  tx n = map TxSend rooms ++ s ->
  (6 <= list_sum rooms)%nat ->
  live (rx n) = true ->
  rx_bytes (rx n) =
    encode_bulk (Some ((txt "redis_version:" ++ decimal a ++ txt "." ++ decimal b
                            ++ txt "." ++ decimal c) ++ CRLF ++ rest)) ++ post ->
  ~ In NUL rest ->
  Z.of_nat a <= INT_MAX -> Z.of_nat b <= INT_MAX -> Z.of_nat c <= INT_MAX ->
  exists h n',
    credis_connect P (Some l) n host port0 timeout0 = (Connected h, n') /\
    version h = mk_version (Z.of_nat a) (Z.of_nat b) (Z.of_nat c) /\
    wire_out n' = wire_out n ++ txt "INFO" ++ CRLF /\
    fd h = link_fd l /\ ip h = link_ip l /\
    port h = (if port0 =? 0 then 6379 else port0) /\ timeout h = timeout0.
Proof.
  intros Hg Hwt Htx Hroom Hlive Hb Hnul Ha Hbb Hc.
  pose proof (modest_payload n _ post Hwt Hb) as Hmax.
  set (line := txt "redis_version:" ++ decimal a ++ txt "." ++ decimal b
                   ++ txt "." ++ decimal c) in *.
  assert (Hplain : forall x, In x line -> isspace x = false /\ x <> NUL)
    by (intros x; apply version_line_plain).
  unfold credis_connect.
  destruct (cr_new P) as [h0|] eqn:En; [|exfalso; exact (cr_new_generous P Hg En)].
  destruct (cr_new_well_formed P h0 En) as ((Hs0 & Hm0) & _).
  set (hc := mk_redis (version h0) (link_fd l) (link_ip l)
                      (if port0 =? 0 then 6379 else port0) timeout0
                      (buf h0) (reply h0) (error h0)).
  assert (Wc : well_formed hc) by (split; [exact Hs0|exact Hm0]).
  destruct (bulk_request P hc n (txt "INFO" ++ CRLF) rooms s (line ++ CRLF ++ rest) post
              Wc Hg Htx Hroom Hlive Hb) as (h1 & n1 & p & Heq & Hp & Hstr & Hwire & W1 & C1);
    [|exact Hmax|].
  { rewrite !in_app_iff. intros [H|[H|H]].
    - exact (proj2 (Hplain _ H) eq_refl).
    - simpl in H. destruct H as [H|[H|[]]]; discriminate H.
    - exact (Hnul H). }
  rewrite Heq. change (0 =? 0) with true. cbv iota. rewrite Hp, Hstr.
  unfold strdup_tokens. rewrite Hg.
  change (line ++ CRLF ++ rest) with (line ++ CR :: LF :: rest).
  rewrite strsep_all_line;
    [|intros H; destruct (Hplain _ H) as (Hsp & _); discriminate Hsp
     |intros H; destruct (Hplain _ H) as (Hsp & _); discriminate Hsp].
  destruct (version_line_shapes a b c Ha Hbb Hc) as (_ & Hpv & _ & _ & Hpar & _).
  fold line in Hpv, Hpar.
  pose proof (scan_version_first (line :: strsep_all (LF :: rest)) 0 (version h1)
                ltac:(lia)) as Hsv.
  simpl first_version in Hsv. rewrite Hpar in Hsv.
  destruct Hsv as (items & v' & Hscan & H2 & Hv).
  rewrite Hscan, Hpv in *.
  replace (items <? 2) with false by (symmetry; apply Z.ltb_ge; lia).
  destruct C1 as (_ & C2 & C3 & C4 & C5 & _). simpl in C2, C3, C4, C5.
  destruct (items =? 2).
  - eexists _, n1. split; [reflexivity|]. simpl. auto 10.
  - eexists _, n1. split; [reflexivity|]. simpl. auto 10.
Qed.

Lemma credis_connect_end_to_end_witness :
  exists h n',
    credis_connect quiet (Some (mk_link 3 (txt "127.0.0.1")))
      (idle [RxData (txt "$29" ++ CRLF ++ txt "redis_ver");
             RxData (txt "sion:2.0.4" ++ CRLF ++ txt "role:m" ++ CRLF ++ CRLF)])
      None 0 2000 = (Connected h, n') /\
    version h = mk_version 2 0 4 /\ port h = 6379.
Proof.
  destruct (credis_connect_end_to_end quiet (mk_link 3 (txt "127.0.0.1"))
              (idle [RxData (txt "$29" ++ CRLF ++ txt "redis_ver");
                     RxData (txt "sion:2.0.4" ++ CRLF ++ txt "role:m" ++ CRLF ++ CRLF)])
              None 0 2000 (repeat 4096%nat 16) [] 2 0 4 (txt "role:m" ++ CRLF) []
              (fun z => eq_refl) ltac:(vm_compute; discriminate) eq_refl
              ltac:(apply Nat.leb_le; vm_compute; reflexivity)
              eq_refl eq_refl
              ltac:(vm_compute; intuition discriminate)
              ltac:(vm_compute; discriminate)
              ltac:(vm_compute; discriminate)
              ltac:(vm_compute; discriminate))
    as (h & n' & Heq & Hv & _ & _ & _ & Hp & _).
  exists h, n'. split; [exact Heq|]. split; [exact Hv|exact Hp].
Defined.
